(** * coredns-hosts-api: the Corefile normalizer, the record store,
      the installer's ensure steps and the configmap sync worker.

    The development follows the Go sources:
      - pkg/installer/server.go   ([BuildNewCoreFile], [constructLine],
        [constructBlock], the [ensure*] steps, [RunOnce]);
      - pkg/server (record controller: [initConfigmap], [SetData],
        [DeleteData]);
      - pkg/server/controller ([worker], [syncConfigmap]).

    [BuildNewCoreFile] is written against the package
    github.com/coredns/caddy/caddyfile (lexer, parser, Dispenser, FromJSON),
    which is a dependency and not part of the repository.  Module
    [caddyfile] below embeds the part of that package the function goes
    through, for ASCII text. *)

From Stdlib Require Import ZArith String Ascii List Bool Lia.
From stdpp Require Import base option list gmap strings sorting pretty.

Local Open Scope string_scope.
Local Open Scope list_scope.

(** ** Characters and small string helpers *)

Definition chNL : ascii := "010"%char.
Definition chTab : ascii := "009"%char.
Definition chCR : ascii := "013"%char.
Definition chQuote : ascii := "034"%char.
Definition chBackslash : ascii := "092"%char.
Definition chHash : ascii := "#"%char.
Definition chSpace : ascii := " "%char.

Definition str1 (c : ascii) : string := String c EmptyString.
Definition nl : string := str1 chNL.
Definition tab : string := str1 chTab.

Definition isEmpty (s : string) : bool :=
  match s with EmptyString => true | _ => false end.

(** [strings.Repeat] *)
Fixpoint Repeat (s : string) (n : nat) : string :=
  match n with O => EmptyString | S n' => s +:+ Repeat s n' end.

(** [strings.Count(s, "\n")] *)
Fixpoint countNL (s : string) : nat :=
  match s with
  | EmptyString => O
  | String c r => ((if Ascii.eqb c chNL then 1 else 0) + countNL r)
  end.

(** [strings.ContainsAny(s, chars)] *)
Fixpoint ContainsAny (s : string) (chars : list ascii) : bool :=
  match s with
  | EmptyString => false
  | String c r => existsb (Ascii.eqb c) chars || ContainsAny r chars
  end.

(** [strings.Replace] of every double quote by a backslash and the
    quote. *)
Fixpoint escapeQuotes (s : string) : string :=
  match s with
  | EmptyString => EmptyString
  | String c r =>
      if Ascii.eqb c chQuote
      then String chBackslash (String chQuote (escapeQuotes r))
      else String c (escapeQuotes r)
  end.

(** Does [s] contain [{$] or [{%], the openers of an environment
    reference? *)
Fixpoint hasEnvRef (s : string) : bool :=
  match s with
  | String "{" ((String c _) as r) =>
      Ascii.eqb c "$" || Ascii.eqb c "%" || hasEnvRef r
  | String _ r => hasEnvRef r
  | EmptyString => false
  end.

(** The last character of a string, if any. *)
Fixpoint lastChar (s : string) : option ascii :=
  match s with
  | EmptyString => None
  | String c EmptyString => Some c
  | String _ r => lastChar r
  end.

Fixpoint dropLast (s : string) : string :=
  match s with
  | EmptyString => EmptyString
  | String _ EmptyString => EmptyString
  | String c r => String c (dropLast r)
  end.

Module caddyfile.

(** ** Tokens and the lexer *)

(** [Token]: the file name is the constant ["Caddyfile"] throughout and is
    left out. *)
Record Token := mkToken { Line : nat; Text : string }.

#[export] Instance Token_eq_dec : EqDecision Token.
Proof. solve_decision. Defined.

(** [unicode.IsSpace] on ASCII: tab, line feed, vertical tab, form feed,
    carriage return, space. *)
Definition isSpace (c : ascii) : bool :=
  Ascii.eqb c chTab || Ascii.eqb c chNL || Ascii.eqb c "011"%char
  || Ascii.eqb c "012"%char || Ascii.eqb c chCR || Ascii.eqb c chSpace.

(** [lexer.next], iterated by [allTokens].  The lexer keeps [line] across
    tokens; [val], [comment], [quoted] and [escaped] are local to one call
    of [next] and start afresh after every token.  [tline] is the line
    recorded when the token began. *)
Fixpoint lex (input : string) (line tline : nat) (val : string)
    (comment quoted escaped : bool) {struct input} : list Token :=
  match input with
  | EmptyString =>
      if isEmpty val then [] else [mkToken tline val]
  | String ch rest =>
      if quoted then
        if negb escaped && Ascii.eqb ch chBackslash then
          lex rest line tline val comment true true
        else if negb escaped && Ascii.eqb ch chQuote then
          mkToken tline val :: lex rest line O EmptyString false false false
        else
          let line' := if Ascii.eqb ch chNL then S line else line in
          let val' := if escaped && negb (Ascii.eqb ch chQuote)
                      then val +:+ str1 chBackslash else val in
          lex rest line' tline (val' +:+ str1 ch) comment true false
      else if isSpace ch then
        if Ascii.eqb ch chCR then
          lex rest line tline val comment false escaped
        else
          let line' := if Ascii.eqb ch chNL then S line else line in
          let comment' := if Ascii.eqb ch chNL then false else comment in
          if isEmpty val
          then lex rest line' tline val comment' false escaped
          else mkToken tline val :: lex rest line' O EmptyString false false false
      else
        let comment' := comment || Ascii.eqb ch chHash in
        if comment' then lex rest line tline val true false escaped
        else if isEmpty val then
          if Ascii.eqb ch chQuote
          then lex rest line line val false true escaped
          else lex rest line line (str1 ch) false false escaped
        else lex rest line tline (val +:+ str1 ch) false false escaped
  end.

(** [allTokens]: the lexer starts on line 1. *)
Definition allTokens (input : string) : list Token :=
  lex input 1 O EmptyString false false false.

(** ** The Dispenser *)

Record Dispenser := mkDisp { tokens : list Token; cursor : Z }.

(** [NewDispenserTokens]: the cursor starts before the first token. *)
Definition NewDispenserTokens (toks : list Token) : Dispenser :=
  mkDisp toks (-1)%Z.

Definition tokenAt (d : Dispenser) (i : Z) : option Token :=
  if (i <? 0)%Z then None else tokens d !! Z.to_nat i.

Definition ntokens (d : Dispenser) : Z := Z.of_nat (length (tokens d)).

(** [Dispenser.Val]: the empty string outside the slice. *)
Definition Val (d : Dispenser) : string :=
  match tokenAt d (cursor d) with
  | Some t => Text t
  | None => EmptyString
  end.

(** [Dispenser.Next] *)
Definition Next (d : Dispenser) : bool * Dispenser :=
  if (cursor d <? ntokens d - 1)%Z
  then (true, mkDisp (tokens d) (cursor d + 1)%Z)
  else (false, d).

(** [Dispenser.numLineBreaks] *)
Definition numLineBreaks (d : Dispenser) (i : Z) : nat :=
  match tokenAt d i with
  | Some t => countNL (Text t)
  | None => O
  end.

(** [Dispenser.NextArg]: advance only to a token on the same line. *)
Definition NextArg (d : Dispenser) : bool * Dispenser :=
  if (cursor d <? 0)%Z then (true, mkDisp (tokens d) (cursor d + 1)%Z)
  else if (ntokens d <=? cursor d)%Z then (false, d)
  else
    match tokenAt d (cursor d), tokenAt d (cursor d + 1)%Z with
    | Some t, Some t' =>
        if (Line t + numLineBreaks d (cursor d) =? Line t')%nat
        then (true, mkDisp (tokens d) (cursor d + 1)%Z)
        else (false, d)
    | _, _ => (false, d)
    end.

(** ** The parser *)

(** [ServerBlock]: [Tokens] maps a directive name to the tokens of all its
    occurrences in the block, in order. *)
Record ServerBlock := mkSB {
  Keys : list string;
  Tokens : gmap string (list Token)
}.

(** [Dispenser.isNewLine], with [prev] the token before the cursor. *)
Definition isNewLine (prev : option Token) (t : Token) : bool :=
  match prev with
  | None => true
  | Some p => (Line p + countNL (Text p) <? Line t)%nat
  end.

(** [parser.isSnippet] *)
Definition isSnippet (keys : list string) : bool :=
  match keys with
  | [String c r] => Ascii.eqb c "(" && bool_decide (lastChar (String c r) = Some ")"%char)
  | _ => false
  end.

(** The recursive-descent parser ([parseAll], [begin], [addresses],
    [blockContents], [directives], [directive]) walks the token slice once
    from left to right; where a routine has read one token too far it steps
    the cursor back and its caller reads that token again.  The walk is
    written here as a machine over the token list whose states are the loop
    heads of those routines.

    [None] is the parser's error, and it is also the answer on the three
    features that need more than the text and are left out of the
    embedding: [import] where the parser would call [doImport] (it reads
    other files or an earlier snippet), a snippet definition (a single key
    in parentheses), and a token that may hold an environment reference
    (an opening brace followed by a dollar or percent sign, which
    [replaceEnvVars] expands from the process environment).  Wherever the
    machine answers [Some], no such feature was met and the blocks are
    those the library returns. *)
Inductive pstate :=
| PStart
    (* parseAll, before the first token of a server block *)
| PAddr (keys : list string) (expecting : bool)
    (* addresses, after [p.Next()] succeeded *)
| PDirs (keys : list string) (m : gmap string (list Token)) (opened : bool)
    (* directives, loop head *)
| PDir (keys : list string) (m : gmap string (list Token)) (opened : bool)
       (dir : string) (nesting : nat).
    (* directive, loop head *)

(** [p.block.Tokens[dir] = append(p.block.Tokens[dir], tok)] *)
Definition addTok (m : gmap string (list Token)) (dir : string) (t : Token)
  : gmap string (list Token) :=
  <[dir := default [] (m !! dir) ++ [t]]> m.

(** parseAll keeps a block only when it has keys. *)
Definition finishBlock (keys : list string) (m : gmap string (list Token))
  : list ServerBlock :=
  match keys with [] => [] | _ => [mkSB keys m] end.

(** One turn of the loop of [directives] on token [t]. *)
Definition dirsStep (keys : list string) (m : gmap string (list Token))
    (opened : bool) (t : Token) : option (pstate * list ServerBlock) :=
  if String.eqb (Text t) "}" then Some (PStart, finishBlock keys m)
  else if String.eqb (Text t) "import" then None
  else if hasEnvRef (Text t) then None
  else Some (PDir keys (addTok m (Text t) t) opened (Text t) O, []).

(** The head of the loop of [addresses] on token [t]. *)
Definition addrTop (keys : list string) (expecting : bool)
    (prev : option Token) (t : Token) : option (pstate * list ServerBlock) :=
  let tkn := Text t in
  if hasEnvRef tkn then None
  else if String.eqb tkn "import" && isNewLine prev t then None
  else if String.eqb tkn "{" then
    if expecting then None
    else if isSnippet keys then None
    else Some (PDirs keys ∅ true, [])
  else if isEmpty tkn then Some (PAddr keys expecting, [])
  else if bool_decide (lastChar tkn = Some ","%char)
  then Some (PAddr (keys ++ [dropLast tkn]) true, [])
  else Some (PAddr (keys ++ [tkn]) false, []).

Definition pstep (st : pstate) (prev : option Token) (t : Token)
  : option (pstate * list ServerBlock) :=
  match st with
  | PStart => addrTop [] false prev t
  | PAddr keys expecting =>
      if negb expecting && isNewLine prev t then
        (* addresses is over; begin goes on to blockContents *)
        if isSnippet keys then None
        else if String.eqb (Text t) "{" then Some (PDirs keys ∅ true, [])
        else dirsStep keys ∅ false t
      else addrTop keys expecting prev t
  | PDirs keys m opened => dirsStep keys m opened t
  | PDir keys m opened dir nesting =>
      if String.eqb (Text t) "{" then
        Some (PDir keys (addTok m dir t) opened dir (S nesting), [])
      else if isNewLine prev t && (nesting =? 0)%nat then
        dirsStep keys m opened t
      else if String.eqb (Text t) "}" then
        match nesting with
        | O => None
        | S n => Some (PDir keys (addTok m dir t) opened dir n, [])
        end
      else if String.eqb (Text t) "import" && isNewLine prev t then None
      else if hasEnvRef (Text t) then None
      else Some (PDir keys (addTok m dir t) opened dir nesting, [])
  end.

(** What is left to do when the tokens run out. *)
Definition closeCurlyBrace (opened : bool) (prev : option Token) : bool :=
  negb opened ||
  match prev with Some p => String.eqb (Text p) "}" | None => false end.

Definition pfinish (st : pstate) (prev : option Token)
  : option (list ServerBlock) :=
  match st with
  | PStart => Some []
  | PAddr keys expecting =>
      if expecting then None else Some (finishBlock keys ∅)
  | PDirs keys m opened =>
      if closeCurlyBrace opened prev then Some (finishBlock keys m) else None
  | PDir keys m opened _ nesting =>
      match nesting with
      | O => if closeCurlyBrace opened prev
             then Some (finishBlock keys m) else None
      | S _ => None
      end
  end.

Fixpoint parseRun (st : pstate) (prev : option Token) (toks : list Token)
  : option (list ServerBlock) :=
  match toks with
  | [] => pfinish st prev
  | t :: rest =>
      match pstep st prev t with
      | None => None
      | Some (st', done) =>
          match parseRun st' (Some t) rest with
          | None => None
          | Some blocks => Some (done ++ blocks)
          end
      end
  end.

(** [caddyfile.Parse] (with no list of valid directives). *)
Definition Parse (input : string) : option (list ServerBlock) :=
  parseRun PStart None (allTokens input).

(** ** The JSON-encodable document and [FromJSON] *)

#[local] Set Warnings "-register-all".

(** An element of a line ([interface{}] in Go) is a string or a nested
    body ([[][]interface{}]).  [Block []] stands for the nil body, which
    [json.Marshal] writes as [null]. *)
Inductive item :=
| Str (s : string)
| Block (b : list (list item)).

(** [EncodedServerBlock] *)
Record EncodedServerBlock := mkESB {
  EKeys : list string;
  Body : list (list item)
}.

(** [EncodedCaddyfile] *)
Definition EncodedCaddyfile := list EncodedServerBlock.

(** [jsonToText] on a string. *)
Definition textOfString (s : string) : string :=
  if ContainsAny s [chQuote; chSpace; chNL; chTab; chCR]
  then str1 chQuote +:+ escapeQuotes s +:+ str1 chQuote
  else s.

(** The separator [jsonToText] writes after the element [v] of a line
    whose remaining elements are [r].  The branch for a nested body ends
    in [continue], before the separator; every other element, nil
    included, is followed by a space unless it is the last. *)
Definition sepAfter (v : item) (r : list item) : string :=
  match v, r with
  | Block (_ :: _), _ => EmptyString
  | _, [] => EmptyString
  | _, _ :: _ => " "
  end.

(** [jsonToText] on one element of a line at [depth]: a string; a body
    decoded from a JSON array; or nil, decoded from [null], for which the
    type switch has no case and nothing is written. *)
Fixpoint itemText (depth : nat) (v : item) : string :=
  match v with
  | Str s => textOfString s
  | Block [] => EmptyString
  | Block b =>
      "{" +:+ nl +:+
      (fix blk (b : list (list item)) : string :=
         match b with
         | [] => EmptyString
         | arg :: b' =>
             Repeat tab depth +:+
             (fix ln (l : list item) : string :=
                match l with
                | [] => EmptyString
                | v :: r => itemText (S depth) v +:+ sepAfter v r +:+ ln r
                end) arg +:+ nl +:+ blk b'
         end) b +:+
      Repeat tab (depth - 1) +:+ "}"
  end.

(** [jsonToText] on a line ([[]interface{}]) at [depth]. *)
Fixpoint lineText (depth : nat) (l : list item) : string :=
  match l with
  | [] => EmptyString
  | v :: r => itemText depth v +:+ sepAfter v r +:+ lineText depth r
  end.

(** The lines of a body, each indented by [depth] tabs. *)
Fixpoint linesText (depth : nat) (b : list (list item)) : string :=
  match b with
  | [] => EmptyString
  | arg :: b' => Repeat tab depth +:+ lineText (S depth) arg +:+ nl +:+ linesText depth b'
  end.

(** [jsonToText] on a server block's body ([[][]interface{}]). *)
Definition bodyText (depth : nat) (b : list (list item)) : string :=
  " {" +:+ nl +:+ linesText depth b +:+ Repeat tab (depth - 1) +:+ "}".

Fixpoint keysText (keys : list string) : string :=
  match keys with
  | [] => EmptyString
  | k :: r => k +:+ (match r with [] => EmptyString | _ => ", " end) +:+ keysText r
  end.

(** [FromJSON] on the value [json.Unmarshal] rebuilds from
    [json.Marshal(j)]. *)
Fixpoint FromJSON (j : EncodedCaddyfile) : string :=
  match j with
  | [] => EmptyString
  | sb :: r =>
      keysText (EKeys sb) +:+ bodyText 1 (Body sb) +:+
      (match r with [] => EmptyString | _ => nl +:+ nl end) +:+ FromJSON r
  end.

End caddyfile.

Import caddyfile.

(** ** The cluster: objects, errors and the calls made on it *)

Module k8s.

(** The reasons of an API status error the code tells apart. *)
Inductive StatusReason := NotFound | Conflict | AlreadyExists | InternalError.

(** An [error] is an API status error, an [fmt.Errorf] message (the text
    interpolated by [%v] is left out: [%v] does not wrap, so the result is
    a plain error whatever it was built from), another failure such as one
    of the parser or the file system, or a run-time panic (which ends the
    program rather than being returned). *)
Inductive error :=
| StatusError (r : StatusReason)
| Errorf (format : string)
| OtherError (msg : string)
| Panic (msg : string).

#[export] Instance StatusReason_eq_dec : EqDecision StatusReason.
Proof. solve_decision. Defined.
#[export] Instance error_eq_dec : EqDecision error.
Proof. solve_decision. Defined.

(** [errors.IsNotFound], [errors.IsConflict] *)
Definition IsNotFound (e : error) : bool :=
  match e with StatusError NotFound => true | _ => false end.
Definition IsConflict (e : error) : bool :=
  match e with StatusError Conflict => true | _ => false end.

Definition result (A : Type) : Type := error + A.

(** The answer of a fetch of an object that does not exist. *)
Definition notFound {A : Type} : result A := inl (StatusError NotFound).

Record ObjectMeta := mkMeta {
  Name : string; Namespace : string; ResourceVersion : string
}.

(** [Data] is a Go map: [None] is the nil map. *)
Record ConfigMap := mkCM {
  cmMeta : ObjectMeta;
  Data : option (gmap string string)
}.

Record ServicePort := mkSP { spName : string; spPort : Z }.
Record Service := mkSvc { svcMeta : ObjectMeta; svcPorts : list ServicePort }.

Record VolumeMount := mkVM { vmName : string; MountPath : string }.
Record Container := mkC {
  cName : string; Image : string; ImagePullPolicy : string;
  cArgs : list string; cPorts : list Z; VolumeMounts : list VolumeMount
}.
Record Volume := mkV { vName : string; EmptyDir : bool }.
Record Deployment := mkD {
  dMeta : ObjectMeta;
  ServiceAccountName : string; DeprecatedServiceAccount : string;
  Containers : list Container; Volumes : list Volume
}.

Record PolicyRule := mkPR {
  Verbs : list string; APIGroups : list string; Resources : list string;
  ResourceNames : list string; NonResourceURLs : list string
}.
Record ClusterRole := mkCR { crMeta : ObjectMeta; Rules : list PolicyRule }.

Record Subject := mkSubj { sKind : string; sName : string; sNamespace : string }.
Record ClusterRoleBinding := mkCRB {
  Subjects : list Subject; rrKind : string; rrName : string
}.

#[export] Instance ObjectMeta_eq_dec : EqDecision ObjectMeta.
Proof. solve_decision. Defined.
#[export] Instance ConfigMap_eq_dec : EqDecision ConfigMap.
Proof. solve_decision. Defined.
#[export] Instance ServicePort_eq_dec : EqDecision ServicePort.
Proof. solve_decision. Defined.
#[export] Instance Service_eq_dec : EqDecision Service.
Proof. solve_decision. Defined.
#[export] Instance VolumeMount_eq_dec : EqDecision VolumeMount.
Proof. solve_decision. Defined.
#[export] Instance Container_eq_dec : EqDecision Container.
Proof. solve_decision. Defined.
#[export] Instance Volume_eq_dec : EqDecision Volume.
Proof. solve_decision. Defined.
#[export] Instance Deployment_eq_dec : EqDecision Deployment.
Proof. solve_decision. Defined.
#[export] Instance PolicyRule_eq_dec : EqDecision PolicyRule.
Proof. solve_decision. Defined.
#[export] Instance ClusterRole_eq_dec : EqDecision ClusterRole.
Proof. solve_decision. Defined.

(** The calls the code makes on the clientset, the file system and the
    work queue.  They are answered from outside the program. *)
Inductive event :=
| ListClusterRoleBindings
| GetClusterRole (name : string)
| UpdateClusterRole (cr : ClusterRole)
| GetDeployment (ns name : string)
| UpdateDeployment (ns : string) (d : Deployment)
| GetService (ns name : string)
| UpdateService (ns : string) (s : Service)
| GetConfigMap (ns name : string)
| UpdateConfigMap (ns : string) (cm : ConfigMap)
| CreateConfigMap (ns : string) (cm : ConfigMap)
| WriteFile (path content : string)
| QueueGet
| QueueDone (key : string)
| QueueAddRateLimited (key : string)
| QueueForget (key : string).

(** What a call answers. *)
Definition resp (e : event) : Type :=
  match e with
  | ListClusterRoleBindings => result (list ClusterRoleBinding)
  | GetClusterRole _ | UpdateClusterRole _ => result ClusterRole
  | GetDeployment _ _ | UpdateDeployment _ _ => result Deployment
  | GetService _ _ | UpdateService _ _ => result Service
  | GetConfigMap _ _ | UpdateConfigMap _ _ | CreateConfigMap _ _ =>
      result ConfigMap
  | WriteFile _ _ => option error
  | QueueGet => (string * bool)%type
  | QueueDone _ | QueueAddRateLimited _ | QueueForget _ => unit
  end.

(** A program: it returns, or makes one call and goes on with the
    answer. *)
Inductive prog (R : Type) : Type :=
| Ret (r : R)
| Do (e : event) (k : resp e -> prog R).
Arguments Ret {R} r.
Arguments Do {R} e k.

Fixpoint bind {A B : Type} (p : prog A) (f : A -> prog B) : prog B :=
  match p with
  | Ret a => f a
  | Do e k => Do e (fun x => bind (k x) f)
  end.

Definition call (e : event) : prog (resp e) := Do e Ret.

#[export] Instance prog_ret : MRet prog := @Ret.
#[export] Instance prog_bind : MBind prog := fun A B f p => bind p f.

(** Whoever answers the calls: the API server with everything else that
    writes to it, the file system, the queue.  [W] is its state. *)
Record client (W : Type) := mkClient {
  handle : forall e : event, W -> resp e * W
}.
Arguments handle {W} c e w.

(** Running a program against a client: the value returned, the final
    state and the calls made, in order. *)
Fixpoint exec {W R : Type} (c : client W) (p : prog R) (w : W)
  : R * W * list event :=
  match p with
  | Ret r => (r, w, [])
  | Do e k =>
      let '(x, w1) := handle c e w in
      let '(r, w2, log) := exec c (k x) w1 in
      (r, w2, e :: log)
  end.

(** [retry.RetryOnConflict] (through [retry.OnError] and
    [wait.ExponentialBackoff]): [fn] runs at most [steps] times, again only
    after a conflict; when the steps are used up the last conflict is
    returned.  The sleeps between attempts are not represented. *)
Fixpoint retryLoop (steps : nat) (fn : prog (option error))
    (lastErr : option error) : prog (option error) :=
  match steps with
  | O => Ret lastErr
  | S n =>
      err ← fn;
      match err with
      | None => Ret None
      | Some e => if IsConflict e then retryLoop n fn (Some e) else Ret (Some e)
      end
  end.

(** [retry.DefaultRetry.Steps] *)
Definition DefaultRetrySteps : nat := 5.

Definition RetryOnConflict (fn : prog (option error)) : prog (option error) :=
  retryLoop DefaultRetrySteps fn None.

End k8s.

Import k8s.

(** ** pkg/installer: BuildNewCoreFile *)

Module installer.

Definition hostsPath : string := "/etc/coredns-dir/hosts".

(** [sort.Strings]: Go compares strings byte by byte, as [String.le]
    does. *)
Definition sortStrings (l : list string) : list string :=
  merge_sort String.le l.

(** [ExistStringSlice] *)
Fixpoint ExistStringSlice (val : string) (item : list string) : bool :=
  match item with
  | [] => false
  | v :: r => if String.eqb val v then true else ExistStringSlice val r
  end.

(** [ExistInterfaceSlice]: [val == v] holds only for a string element. *)
Fixpoint ExistInterfaceSlice (val : string) (it : list item) : bool :=
  match it with
  | [] => false
  | Str v :: r => if String.eqb val v then true else ExistInterfaceSlice val r
  | Block _ :: r => ExistInterfaceSlice val r
  end.

(** [constructLine] and [constructBlock].  Both advance the cursor of the
    one Dispenser they share; [fuel] bounds the number of nested loop turns
    and running out of it is [None].

    [lineArgs] is the [for d.NextArg()] loop of [constructLine],
    [blockLines] the [for d.Next()] loop of [constructBlock]. *)
Fixpoint lineArgs (fuel : nat) (d : Dispenser)
  : option (list item * Dispenser) :=
  match fuel with
  | O => None
  | S f =>
      let '(ok, d1) := NextArg d in
      if ok then
        if String.eqb (Val d1) "{" then
          match blockLines f d1 with
          | None => None
          | Some (blk, d2) =>
              match lineArgs f d2 with
              | None => None
              | Some (args, d3) => Some (Block blk :: args, d3)
              end
          end
        else
          match lineArgs f d1 with
          | None => None
          | Some (args, d3) => Some (Str (Val d1) :: args, d3)
          end
      else Some ([], d1)
  end
with blockLines (fuel : nat) (d : Dispenser)
  : option (list (list item) * Dispenser) :=
  match fuel with
  | O => None
  | S f =>
      let '(ok, d1) := Next d in
      if ok then
        if String.eqb (Val d1) "}" then Some ([], d1)
        else
          match lineArgs f d1 with
          | None => None
          | Some (args, d2) =>
              match blockLines f d2 with
              | None => None
              | Some (blk, d3) => Some ((Str (Val d1) :: args) :: blk, d3)
              end
          end
      else Some ([], d1)
  end.

Definition constructLine (fuel : nat) (d : Dispenser)
  : option (list item * Dispenser) :=
  match lineArgs fuel d with
  | None => None
  | Some (args, d') => Some (Str (Val d) :: args, d')
  end.

Definition constructBlock (fuel : nat) (d : Dispenser)
  : option (list (list item) * Dispenser) :=
  blockLines fuel d.

(** The rewriting of one line of the hosts directive (the [// first floor]
    branch): the line and whether it set [needUpdate]. *)
Definition fixHosts (it : list item) : list item * bool :=
  match it with
  | Str h :: _ =>
      if String.eqb h "hosts" then
        if ExistInterfaceSlice hostsPath it then (it, false)
        else if (length it =? 1)%nat
             then (it ++ [Str hostsPath], true)
             else (<[1%nat := Str hostsPath]> it, true)
      else (it, false)
  | _ => (it, false)
  end.

(** [for disp.Next() { item := constructLine(&disp); ... }]: the lines of
    one directive's tokens, appended to [body]; [hosts] selects the branch
    that rewrites. *)
Fixpoint dispLoop (fuel : nat) (hosts : bool) (d : Dispenser)
    (body : list (list item)) (needUpdate : bool)
  : option (list (list item) * bool) :=
  match fuel with
  | O => None
  | S f =>
      let '(ok, d1) := Next d in
      if ok then
        match constructLine f d1 with
        | None => None
        | Some (it, d2) =>
            if hosts then
              let '(it', upd) := fixHosts it in
              dispLoop f hosts d2 (body ++ [it']) (needUpdate || upd)
            else dispLoop f hosts d2 (body ++ [it]) needUpdate
        end
      else Some (body, needUpdate)
  end.

(** The lines [constructLine] makes of a directive's tokens. *)
Definition linesOf (toks : list Token) : option (list (list item)) :=
  fst <$> dispLoop (S (length toks)) false (NewDispenserTokens toks) [] false.

(** [sb.Tokens[dir]]: nil for a name that is not a key. *)
Definition tokensOf (sb : ServerBlock) (dir : string) : list Token :=
  default [] (Tokens sb !! dir).

(** The body of [for _, dir := range directives]. *)
Definition emitDirective (sb : ServerBlock) (dir : string)
    (body : list (list item)) (needUpdate : bool)
  : option (list (list item) * bool) :=
  let toks := tokensOf sb dir in
  if String.eqb dir "hosts" then
    match toks with
    | [] => Some (body ++ [[Str "hosts"; Str hostsPath]], true)
    | _ => dispLoop (S (length toks)) true (NewDispenserTokens toks) body needUpdate
    end
  else dispLoop (S (length toks)) false (NewDispenserTokens toks) body needUpdate.

(** An element that is the string [s]. *)
Definition isString (s : string) (v : item) : bool :=
  match v with
  | Str s' => String.eqb s' s
  | Block _ => false
  end.

(** A line of the hosts directive without the path: its first element is
    the string hosts, and none of the line's own elements is the string
    [hostsPath]; what nested bodies hold does not count.  That this is
    when the rewriting sets [needUpdate] is [fixHosts_flag]. *)
Definition lacksPath (it : list item) : bool :=
  match it with
  | v :: _ => isString "hosts" v && negb (existsb (isString hostsPath) it)
  | [] => false
  end.

(** A block that makes [BuildNewCoreFile] set [needUpdate]: it has no
    hosts tokens, or one of its hosts lines lacks the path. *)
Definition needsHosts (sb : ServerBlock) : bool :=
  match tokensOf sb "hosts" with
  | [] => true
  | toks => existsb lacksPath (default [] (linesOf toks))
  end.

Fixpoint emitDirectives (sb : ServerBlock) (dirs : list string)
    (body : list (list item)) (needUpdate : bool)
  : option (list (list item) * bool) :=
  match dirs with
  | [] => Some (body, needUpdate)
  | dir :: r =>
      match emitDirective sb dir body needUpdate with
      | None => None
      | Some (body', needUpdate') => emitDirectives sb r body' needUpdate'
      end
  end.

(** The lines a block's body receives for the name [dir], and the whole
    body for a list of names: what [emitDirective] and [emitDirectives]
    append (see [emitDirectives_spec]). *)
Definition dirLines (sb : ServerBlock) (dir : string) : list (list item) :=
  let ls := default [] (linesOf (tokensOf sb dir)) in
  if String.eqb dir "hosts" then
    match tokensOf sb dir with
    | [] => [[Str "hosts"; Str hostsPath]]
    | _ => map (fun it => (fixHosts it).1) ls
    end
  else ls.

(** The directive names of a block: [make([]string, len(sb.Tokens))] gives
    as many empty strings as the map has keys, the keys are appended to it
    (in the map's order, which the sort forgets), then ["hosts"] if it is
    missing. *)
Definition directivesOf (sb : ServerBlock) : list string :=
  let directives :=
    replicate (size (Tokens sb)) EmptyString ++ (map_to_list (Tokens sb)).*1 in
  let directives :=
    if ExistStringSlice "hosts" directives then directives
    else directives ++ ["hosts"] in
  sortStrings directives.

(** The body of [for _, sb := range serverBlocks]. *)
Fixpoint encodeBlocks (sbs : list ServerBlock) (j : EncodedCaddyfile)
    (needUpdate : bool) : option (EncodedCaddyfile * bool) :=
  match sbs with
  | [] => Some (j, needUpdate)
  | sb :: r =>
      match emitDirectives sb (directivesOf sb) [] needUpdate with
      | None => None
      | Some (body, needUpdate') =>
          encodeBlocks r (j ++ [mkESB (Keys sb) body]) needUpdate'
      end
  end.

(** The encoded block [encodeBlocks] appends for [sb] (see
    [encodeBlocks_spec]). *)
Definition encodeBlock (sb : ServerBlock) : EncodedServerBlock :=
  mkESB (Keys sb) (concat (map (dirLines sb) (directivesOf sb))).

(** [BuildNewCoreFile] up to [json.Marshal]: the encoded document and
    [needUpdate]. *)
Definition encodeCoreFile (corefile : string)
  : option (EncodedCaddyfile * bool) :=
  match Parse corefile with
  | None => None
  | Some serverBlocks => encodeBlocks serverBlocks [] false
  end.

(** [BuildNewCoreFile]: [None] is the error return. *)
Definition BuildNewCoreFile (corefile : string) : option (string * bool) :=
  match encodeCoreFile corefile with
  | None => None
  | Some (j, needUpdate) => Some (FromJSON j, needUpdate)
  end.

(** ** pkg/installer: the ensure steps *)

Record ServerArgs := mkServerArgs { saKubeconfig : string; Port : Z }.

Record Args := mkArgs {
  Kubeconfig : string;
  CoreDNSName : string;
  CoreDNSNamespace : string;
  CoreDNSHostsServerVersion : string;
  ServerArgs_ : ServerArgs
}.

(** [Server]: [corednsDeployment] is a pointer, [None] when nil. *)
Record Server := mkServer {
  corednsDeployment : option Deployment;
  args : Args
}.

Definition errOf {A : Type} (r : result A) : option error :=
  match r with inl e => Some e | inr _ => None end.

(** [ExistPolicyRule]: [reflect.DeepEqual] on the rule (a nil and an empty
    slice are one list here). *)
Definition ExistPolicyRule (rule : PolicyRule) (rules : list PolicyRule) : bool :=
  existsb (fun val => bool_decide (val = rule)) rules.

Definition ExistContainerByName (name : string) (containers : list Container) : bool :=
  existsb (fun val => String.eqb (cName val) name) containers.

Definition ExistVolumeMountsByName (name : string) (volumeMounts : list VolumeMount) : bool :=
  existsb (fun val => String.eqb (vmName val) name) volumeMounts.

Definition ExistVolumeMsByName (name : string) (volumes : list Volume) : bool :=
  existsb (fun val => String.eqb (vName val) name) volumes.

Definition ExistPortsByPort (port : Z) (ports : list ServicePort) : bool :=
  existsb (fun val => Z.eqb (spPort val) port) ports.

(** The two nested loops of [ensureClusterrole] over the bindings and
    their subjects: the last match wins. *)
Definition findClusterRoleName (items : list ClusterRoleBinding)
    (serviceAccountName serviceAccountNamespace : string) : string :=
  fold_left (fun acc item =>
    fold_left (fun acc subject =>
      if String.eqb (sName subject) serviceAccountName
         && String.eqb (sKind subject) "ServiceAccount"
         && String.eqb (sNamespace subject) serviceAccountNamespace
      then if String.eqb (rrKind item) "ClusterRole" then rrName item else acc
      else acc) (Subjects item) acc) items EmptyString.

Definition addRule : PolicyRule :=
  mkPR ["*"] [EmptyString] ["configmaps"] [] [].

(** The closure [ensureClusterrole] hands to [RetryOnConflict]. *)
Definition ensureClusterroleOnce (clusterRoleName : string) : prog (option error) :=
  r ← call (GetClusterRole clusterRoleName);
  match r with
  | inl getErr => Ret (Some (Errorf "failed to get latest version of Cluster: %v"))
  | inr result =>
      if negb (ExistPolicyRule addRule (Rules result)) then
        u ← call (UpdateClusterRole (mkCR (crMeta result) (Rules result ++ [addRule])));
        Ret (errOf u)
      else Ret None
  end.

Definition ensureClusterrole (s : Server) : prog (option error) :=
  match corednsDeployment s with
  | None => Ret (Some (Errorf "the coredns deployment can not be nil"))
  | Some dep =>
      let serviceAccountName :=
        if isEmpty (ServiceAccountName dep)
        then DeprecatedServiceAccount dep else ServiceAccountName dep in
      if isEmpty serviceAccountName
      then Ret (Some (Errorf "the serviceAccountName can not be empty"))
      else
        l ← call ListClusterRoleBindings;
        match l with
        | inl err => Ret (Some err)
        | inr items =>
            let clusterRoleName :=
              findClusterRoleName items serviceAccountName (Namespace (dMeta dep)) in
            if isEmpty clusterRoleName
            then Ret (Some (Errorf "the clusterRoleName can not be empty"))
            else RetryOnConflict (ensureClusterroleOnce clusterRoleName)
        end
  end.

Definition volumeName : string := "shared-data".
Definition volumeMountItem : VolumeMount := mkVM volumeName "/etc/coredns-dir".
Definition coreDNSHostsServerName : string := "coredns-hosts-server".

Definition hostsServerContainer (a : Args) : Container :=
  mkC coreDNSHostsServerName
      ("docker.io/devincd/coredns-hosts-server:" +:+ CoreDNSHostsServerVersion a)
      "Always"
      ["--kubeconfig"; saKubeconfig (ServerArgs_ a); "--port"; pretty (Port (ServerArgs_ a))]
      [Port (ServerArgs_ a)] [].

(** The mutation of [ensureDeployment]: the new object and [needUpdate]. *)
Definition mutateDeployment (a : Args) (result : Deployment) : Deployment * bool :=
  let needC := negb (ExistContainerByName coreDNSHostsServerName (Containers result)) in
  let cs := if needC then Containers result ++ [hostsServerContainer a]
            else Containers result in
  let needM := existsb (fun c => negb (ExistVolumeMountsByName volumeName (VolumeMounts c))) cs in
  let cs := map (fun c =>
      if negb (ExistVolumeMountsByName volumeName (VolumeMounts c))
      then mkC (cName c) (Image c) (ImagePullPolicy c) (cArgs c) (cPorts c)
               (VolumeMounts c ++ [volumeMountItem])
      else c) cs in
  let needV := negb (ExistVolumeMsByName volumeName (Volumes result)) in
  let vs := if needV then Volumes result ++ [mkV volumeName true] else Volumes result in
  (mkD (dMeta result) (ServiceAccountName result) (DeprecatedServiceAccount result) cs vs,
   needC || needM || needV).

Definition ensureDeploymentOnce (a : Args) (dep : Deployment) : prog (option error) :=
  r ← call (GetDeployment (Namespace (dMeta dep)) (Name (dMeta dep)));
  match r with
  | inl getErr => Ret (Some (Errorf "failed to get latest version of Deployment: %v"))
  | inr result =>
      let '(result', needUpdate) := mutateDeployment a result in
      if needUpdate then
        u ← call (UpdateDeployment (Namespace (dMeta dep)) result');
        Ret (errOf u)
      else Ret None
  end.

Definition ensureDeployment (s : Server) : prog (option error) :=
  match corednsDeployment s with
  | None => Ret (Some (Panic "nil pointer dereference"))
  | Some dep => RetryOnConflict (ensureDeploymentOnce (args s) dep)
  end.

(** What [ensureService] does with the service it has fetched. *)
Definition ensurePort (a : Args) (result : Service) : prog (option error) :=
  if negb (ExistPortsByPort (Port (ServerArgs_ a)) (svcPorts result)) then
    u ← call (UpdateService (CoreDNSNamespace a)
                (mkSvc (svcMeta result)
                       (svcPorts result ++ [mkSP "apis" (Port (ServerArgs_ a))])));
    Ret (errOf u)
  else Ret None.

(** The closure [ensureService] hands to [RetryOnConflict]: when the fetch
    under the configured name fails, the service named kube-dns is fetched
    in its place. *)
Definition ensureServiceOnce (a : Args) : prog (option error) :=
  r ← call (GetService (CoreDNSNamespace a) (CoreDNSName a));
  match r with
  | inr result => ensurePort a result
  | inl getErr =>
      r2 ← call (GetService (CoreDNSNamespace a) "kube-dns");
      match r2 with
      | inl getErr2 => Ret (Some (Errorf "failed to get latest version of Service: %v"))
      | inr result => ensurePort a result
      end
  end.

Definition ensureService (s : Server) : prog (option error) :=
  RetryOnConflict (ensureServiceOnce (args s)).

(** [cm.Data["Corefile"]]: reading a nil map or a missing key gives the
    empty string. *)
Definition dataAt (cm : ConfigMap) (key : string) : string :=
  default EmptyString (default ∅ (Data cm) !! key).

Definition updateCorefileOnce (a : Args) (corefile : string) : prog (option error) :=
  r ← call (GetConfigMap (CoreDNSNamespace a) (CoreDNSName a));
  match r with
  | inl getErr => Ret (Some (Errorf "failed to get latest version of ConfigMap: %v"))
  | inr result =>
      match Data result with
      | None => Ret (Some (Panic "assignment to entry in nil map"))
      | Some data =>
          u ← call (UpdateConfigMap (CoreDNSNamespace a)
                      (mkCM (cmMeta result) (Some (<["Corefile" := corefile]> data))));
          Ret (errOf u)
      end
  end.

Definition ensureCoreDNSConfigmap (s : Server) : prog (option error) :=
  r ← call (GetConfigMap (CoreDNSNamespace (args s)) (CoreDNSName (args s)));
  match r with
  | inl err => Ret (Some err)
  | inr cm =>
      match BuildNewCoreFile (dataAt cm "Corefile") with
      | None => Ret (Some (OtherError "caddyfile.Parse"))
      | Some (corefile, needUpdate) =>
          if needUpdate then RetryOnConflict (updateCorefileOnce (args s) corefile)
          else Ret None
      end
  end.

(** [fmt.Errorf(format, err)] around a returned error; a panic is not a
    returned error and goes through. *)
Definition wrapErr (format : string) (e : error) : error :=
  match e with Panic m => Panic m | _ => Errorf format end.

(** [RunOnce]: the four steps in order; the first failure ends it. *)
Definition RunOnce (s : Server) : prog (option error) :=
  e1 ← ensureClusterrole s;
  match e1 with
  | Some e => Ret (Some (wrapErr "failed to ensureClusterrole:%v" e))
  | None =>
      e2 ← ensureDeployment s;
      match e2 with
      | Some e => Ret (Some (wrapErr "failed to ensureDeployment:%v" e))
      | None =>
          e3 ← ensureService s;
          match e3 with
          | Some e => Ret (Some (wrapErr "failed to ensureService:%v" e))
          | None =>
              e4 ← ensureCoreDNSConfigmap s;
              match e4 with
              | Some e => Ret (Some (wrapErr "failed to ensureCoreDNSConfigmap:%v" e))
              | None => Ret None
              end
          end
      end
  end.

(** [stringSlicesEqual]: after the test of the lengths, [b[i]] is read for
    every index [i] of [a]; [None] is the run-time panic of an index out
    of range. *)
Fixpoint slicesEqualFrom (i : nat) (a b : list string) : option bool :=
  match a with
  | [] => Some true
  | v :: r =>
      match b !! i with
      | Some x => if String.eqb v x then slicesEqualFrom (S i) r b else Some false
      | None => None
      end
  end.

Definition stringSlicesEqual (a b : list string) : option bool :=
  if (length a =? length b)%nat then slicesEqualFrom 0 a b else Some false.

End installer.

Import installer.

(** ** pkg/server/controller: the configmap sync worker *)

Module controller.

Definition ConfigmapName : string := "coredns-hosts-api".
Definition ConfigmapNamespace : string := "kube-system".

(** [strings.Split(key, "/")] *)
Fixpoint splitSlash (s : string) : list string :=
  match s with
  | EmptyString => [EmptyString]
  | String c r =>
      if Ascii.eqb c "/" then EmptyString :: splitSlash r
      else match splitSlash r with
           | [] => [str1 c]
           | p :: ps => String c p :: ps
           end
  end.

(** [cache.SplitMetaNamespaceKey] *)
Definition SplitMetaNamespaceKey (key : string) : result (string * string) :=
  match splitSlash key with
  | [name] => inr (EmptyString, name)
  | [namespace; name] => inr (namespace, name)
  | _ => inl (Errorf "unexpected key format: %q")
  end.

(** [fmt.Sprintf("%s %s\n", val, key)] *)
Definition hostsLine (kv : string * string) : string :=
  kv.2 +:+ " " +:+ kv.1 +:+ nl.

(** The sink's content: the lines of the entries, in the order the
    [range] over the map visits them. *)
Fixpoint flatten (entries : list (string * string)) : string :=
  match entries with
  | [] => EmptyString
  | kv :: r => hostsLine kv +:+ flatten r
  end.

Section Sync.

(** The order in which [for key, val := range cm.Data] visits the entries
    of a map is not fixed by Go; [mapRange] is that order. *)
Variable mapRange : gmap string string -> list (string * string).

(** The sink path ([c.filePath]). *)
Variable filePath : string.

(** [syncConfigmap] *)
Definition syncConfigmap (key : string) : prog (option error) :=
  match SplitMetaNamespaceKey key with
  | inl err => Ret (Some err)
  | inr (namespace, name) =>
      r ← call (GetConfigMap namespace name);
      match r with
      | inl err => if IsNotFound err then Ret None else Ret (Some err)
      | inr cm =>
          call (WriteFile filePath (flatten (mapRange (default ∅ (Data cm)))))
      end
  end.

(** The function literal that is the body of the loop in [worker]: its
    [return] leaves the literal. [c.workqueue.Done(key)] is deferred and
    runs last. *)
Definition workerItem : prog unit :=
  g ← call QueueGet;
  let '(key, quit) := g in
  if (quit : bool) then Ret tt
  else
    err ← syncConfigmap key;
    _ ← (match err with
         | Some _ => call (QueueAddRateLimited key)
         | None => call (QueueForget key)
         end);
    call (QueueDone key).

(** How one turn of a [for] loop ends. *)
Inductive ctrl := Continue | Break.

(** [for { body }] run for at most [fuel] turns: [Some tt] when the loop
    was left, [None] when it is still running after [fuel] turns. *)
Fixpoint goFor (fuel : nat) (body : prog ctrl) : prog (option unit) :=
  match fuel with
  | O => Ret None
  | S f =>
      c ← body;
      match c with
      | Break => Ret (Some tt)
      | Continue => goFor f body
      end
  end.

(** [worker]: the loop body is the call of the function literal, and
    nothing else. *)
Definition worker (fuel : nat) : prog (option unit) :=
  goFor fuel (_ ← workerItem; Ret Continue).

End Sync.

(** [FilterConfigmap] *)
Definition FilterConfigmap (cm : ConfigMap) : bool :=
  String.eqb (Name (cmMeta cm)) ConfigmapName
  && String.eqb (Namespace (cmMeta cm)) ConfigmapNamespace.

(** [cache.MetaNamespaceKeyFunc], which
    [cache.DeletionHandlingMetaNamespaceKeyFunc] applies to an object that
    is not a tombstone. *)
Definition MetaNamespaceKeyFunc (m : ObjectMeta) : string :=
  if isEmpty (Namespace m) then Name m
  else Namespace m +:+ "/" +:+ Name m.

(** [enqueue]: the keys it adds to the work queue (the key function does
    not fail on a configmap). *)
Definition enqueue (cm : ConfigMap) : list string :=
  [MetaNamespaceKeyFunc (cmMeta cm)].

(** The handlers [NewConfigmapController] registers with the informer:
    the keys each adds to the work queue. *)
Definition AddFunc (cm : ConfigMap) : list string :=
  if FilterConfigmap cm then enqueue cm else [].

Definition UpdateFunc (oldCm cm : ConfigMap) : list string :=
  if negb (String.eqb (ResourceVersion (cmMeta cm))
                      (ResourceVersion (cmMeta oldCm)))
  then if FilterConfigmap cm then enqueue cm else []
  else [].

Definition DeleteFunc (cm : ConfigMap) : list string := [].

End controller.

(** ** pkg/server: the record controller *)

Module server.

Import controller.

(** The closure of [initConfigmap]'s callers: fetch, and create when the
    fetch says not found. *)
Definition initConfigmap : prog (option error) :=
  r ← call (GetConfigMap ConfigmapNamespace ConfigmapName);
  match r with
  | inr _ => Ret None
  | inl err =>
      if IsNotFound err then
        c ← call (CreateConfigMap ConfigmapNamespace
                    (mkCM (mkMeta ConfigmapName ConfigmapNamespace EmptyString)
                          (Some ∅)));
        Ret (errOf c)
      else Ret (Some err)
  end.

(** The closure [SetData] hands to [RetryOnConflict]. *)
Definition setDataOnce (domain ip : string) : prog (option error) :=
  r ← call (GetConfigMap ConfigmapNamespace ConfigmapName);
  match r with
  | inl getErr => Ret (Some (Errorf "failed to get latest version of Configmap: %v"))
  | inr cm =>
      let data := default ∅ (Data cm) in
      if bool_decide (data !! domain = Some ip) then Ret None
      else
        u ← call (UpdateConfigMap ConfigmapNamespace
                    (mkCM (cmMeta cm) (Some (<[domain := ip]> data))));
        match u with
        | inl updateErr => Ret (Some updateErr)
        | inr newCm =>
            match Data newCm with
            | None =>
                Ret (Some (Errorf "failed to setData and updateCm's Data is nil, domainInfo is %s(%s)"))
            | Some d =>
                if bool_decide (default EmptyString (d !! domain) = ip)
                then Ret None
                else Ret (Some (Errorf "failed to setData and updateCm's value is not right, domainInfo is %s(%s)"))
            end
        end
  end.

(** [SetData] (the process-local lock is held throughout). *)
Definition SetData (domain ip : string) : prog (option error) :=
  RetryOnConflict (setDataOnce domain ip).

(** The closure [DeleteData] hands to [RetryOnConflict]. *)
Definition deleteDataOnce (domain : string) : prog (option error) :=
  r ← call (GetConfigMap ConfigmapNamespace ConfigmapName);
  match r with
  | inl getErr => Ret (Some (Errorf "failed to get latest version of Configmap: %v"))
  | inr cm =>
      match Data cm with
      | None => Ret None
      | Some data =>
          match data !! domain with
          | None => Ret None
          | Some _ =>
              u ← call (UpdateConfigMap ConfigmapNamespace
                          (mkCM (cmMeta cm) (Some (delete domain data))));
              match u with
              | inl updateErr => Ret (Some updateErr)
              | inr newCm =>
                  match default ∅ (Data newCm) !! domain with
                  | Some val =>
                      Ret (Some (Errorf "failed to DeleteData and updateCm's val is exist, domainInfo is %s(%s)"))
                  | None => Ret None
                  end
              end
          end
      end
  end.

Definition DeleteData (domain : string) : prog (option error) :=
  RetryOnConflict (deleteDataOnce domain).

(** The check [SetData] makes on the object the write returned: its data
    is not nil and the value read at [domain] (the empty string when the
    key is missing) is [ip]. *)
Definition holdsAddress (newCm : ConfigMap) (domain ip : string) : bool :=
  match Data newCm with
  | None => false
  | Some d => bool_decide (default EmptyString (d !! domain) = ip)
  end.

(** The check [DeleteData] makes on the object the write returned: it has
    no entry for [domain]. *)
Definition lacksDomain (newCm : ConfigMap) (domain : string) : bool :=
  bool_decide (default ∅ (Data newCm) !! domain = None).

(** What [SetData] and [DeleteData] send to the server. *)
Definition setWrite (cm : ConfigMap) (domain ip : string) : event :=
  UpdateConfigMap ConfigmapNamespace
    (mkCM (cmMeta cm) (Some (<[domain := ip]> (default ∅ (Data cm))))).

Definition deleteWrite (cm : ConfigMap) (domain : string) : event :=
  UpdateConfigMap ConfigmapNamespace
    (mkCM (cmMeta cm) (Some (delete domain (default ∅ (Data cm))))).

Definition fetchRecords : event := GetConfigMap ConfigmapNamespace ConfigmapName.

(** [Record] *)
Record Record_ := mkRecord { IP : string; Domain : string }.

(** [GetData] *)
Definition GetData (domain : string) : prog (result Record_) :=
  r ← call (GetConfigMap ConfigmapNamespace ConfigmapName);
  match r with
  | inl err => Ret (inl err)
  | inr cm =>
      match default ∅ (Data cm) !! domain with
      | Some ip => Ret (inr (mkRecord ip domain))
      | None => Ret (inl (Errorf "can't find the ip according to the domain %s"))
      end
  end.

Section Records.

(** The order in which [for k, v := range cm.Data] visits the entries. *)
Variable mapRange : gmap string string -> list (string * string).

(** [GetDatas]: the records and the error, both returned. *)
Definition GetDatas : prog (list Record_ * option error) :=
  r ← call (GetConfigMap ConfigmapNamespace ConfigmapName);
  match r with
  | inl err => Ret ([], Some err)
  | inr cm =>
      Ret (map (fun kv => mkRecord kv.2 kv.1) (mapRange (default ∅ (Data cm))),
           None)
  end.

(** What [Response.Data] holds: nil, one record or a list of records. *)
Inductive payload :=
| NoData
| OneRecord (r : Record_)
| Records (l : list Record_).

(** [Response] *)
Record Response := mkResponse {
  Code : Z;
  Data_ : payload;
  Message : string
}.

(** [err.Error()] *)
Variable Error : error -> string.

(** [SuccessResponse] *)
Definition SuccessResponse (data : payload) (msg : string) : Response :=
  mkResponse 0 data (if isEmpty msg then "operate successfully" else msg).

(** [ErrorResponse] *)
Definition ErrorResponse (err : error) : Response :=
  mkResponse 1 NoData (Error err).

Definition StatusOK : Z := 200.
Definition StatusBadRequest : Z := 400.
Definition StatusInternalServerError : Z := 500.

(** The handlers.  [bound] is what [c.ShouldBindJSON] made of the body of
    the request; every path of a handler calls [c.JSON] once, and the
    status and the response it is called with are returned here. *)
Definition PostRecords (bound : result Record_) : prog (Z * Response) :=
  match bound with
  | inl err => Ret (StatusBadRequest, ErrorResponse err)
  | inr record =>
      err ← SetData (Domain record) (IP record);
      match err with
      | Some e => Ret (StatusInternalServerError, ErrorResponse e)
      | None =>
          Ret (StatusOK,
               SuccessResponse NoData
                 ("PostRecords is successful. Domain is " +:+ Domain record
                  +:+ ", and ip is " +:+ IP record))
      end
  end.

Definition DeleteRecords (bound : result Record_) : prog (Z * Response) :=
  match bound with
  | inl err => Ret (StatusBadRequest, ErrorResponse err)
  | inr record =>
      err ← DeleteData (Domain record);
      match err with
      | Some e => Ret (StatusInternalServerError, ErrorResponse e)
      | None =>
          Ret (StatusOK,
               SuccessResponse NoData
                 ("DeleteRecords is successful. Domain is " +:+ Domain record
                  +:+ ", and ip is " +:+ IP record))
      end
  end.

Definition ListRecords : prog (Z * Response) :=
  g ← GetDatas;
  match g.2 with
  | Some e => Ret (StatusInternalServerError, ErrorResponse e)
  | None =>
      Ret (StatusOK, SuccessResponse (Records g.1) "ListRecords is successful.")
  end.

Definition GetRecord (domain : string) : prog (Z * Response) :=
  g ← GetData domain;
  match g with
  | inl e => Ret (StatusInternalServerError, ErrorResponse e)
  | inr ret =>
      Ret (StatusOK,
           SuccessResponse (OneRecord ret)
             ("GetRecord is successful. Domain is " +:+ domain))
  end.

(** The routes [initWebService] registers under [/api/v1]: a request is
    one of the four, with what the router and the binding made of it. *)
Inductive request :=
| POST_records (bound : result Record_)
| DELETE_records (bound : result Record_)
| GET_records
| GET_record (domain : string).

Definition route (req : request) : prog (Z * Response) :=
  match req with
  | POST_records bound => PostRecords bound
  | DELETE_records bound => DeleteRecords bound
  | GET_records => ListRecords
  | GET_record domain => GetRecord domain
  end.

End Records.

End server.

(** ** A cluster in memory

    One client, used to run the programs on concrete inputs: the objects
    are kept in maps, nobody else writes, a fetch of a missing object says
    not found, an update of a missing object says not found, and the queue
    hands out its keys in order and, once it is empty, reports that it was
    shut down. *)

Module mem.

Record world := mkWorld {
  clusterRoleBindings : list ClusterRoleBinding;
  clusterRoles : gmap string ClusterRole;
  deployments : gmap (string * string) Deployment;
  services : gmap (string * string) Service;
  configMaps : gmap (string * string) ConfigMap;
  files : gmap string string;
  queue : list string
}.

Definition getIn {A : Type} (m : gmap (string * string) A) (ns name : string)
  : result A :=
  match m !! (ns, name) with
  | Some x => inr x
  | None => inl (StatusError NotFound)
  end.

Definition handle (e : event) (w : world) : resp e * world :=
  match e return resp e * world with
  | ListClusterRoleBindings => (inr (clusterRoleBindings w), w)
  | GetClusterRole name =>
      (match clusterRoles w !! name with
       | Some x => inr x | None => inl (StatusError NotFound) end, w)
  | UpdateClusterRole cr =>
      match clusterRoles w !! Name (crMeta cr) with
      | Some _ =>
          (inr cr, mkWorld (clusterRoleBindings w)
                     (<[Name (crMeta cr) := cr]> (clusterRoles w))
                     (deployments w) (services w) (configMaps w) (files w)
                     (queue w))
      | None => (inl (StatusError NotFound), w)
      end
  | GetDeployment ns name => (getIn (deployments w) ns name, w)
  | UpdateDeployment ns d =>
      match deployments w !! (ns, Name (dMeta d)) with
      | Some _ =>
          (inr d, mkWorld (clusterRoleBindings w) (clusterRoles w)
                    (<[(ns, Name (dMeta d)) := d]> (deployments w))
                    (services w) (configMaps w) (files w) (queue w))
      | None => (inl (StatusError NotFound), w)
      end
  | GetService ns name => (getIn (services w) ns name, w)
  | UpdateService ns s =>
      match services w !! (ns, Name (svcMeta s)) with
      | Some _ =>
          (inr s, mkWorld (clusterRoleBindings w) (clusterRoles w) (deployments w)
                    (<[(ns, Name (svcMeta s)) := s]> (services w))
                    (configMaps w) (files w) (queue w))
      | None => (inl (StatusError NotFound), w)
      end
  | GetConfigMap ns name => (getIn (configMaps w) ns name, w)
  | UpdateConfigMap ns cm =>
      match configMaps w !! (ns, Name (cmMeta cm)) with
      | Some _ =>
          (inr cm, mkWorld (clusterRoleBindings w) (clusterRoles w) (deployments w)
                     (services w) (<[(ns, Name (cmMeta cm)) := cm]> (configMaps w))
                     (files w) (queue w))
      | None => (inl (StatusError NotFound), w)
      end
  | CreateConfigMap ns cm =>
      match configMaps w !! (ns, Name (cmMeta cm)) with
      | Some _ => (inl (StatusError AlreadyExists), w)
      | None =>
          (inr cm, mkWorld (clusterRoleBindings w) (clusterRoles w) (deployments w)
                     (services w) (<[(ns, Name (cmMeta cm)) := cm]> (configMaps w))
                     (files w) (queue w))
      end
  | WriteFile path content =>
      (None, mkWorld (clusterRoleBindings w) (clusterRoles w) (deployments w)
               (services w) (configMaps w) (<[path := content]> (files w))
               (queue w))
  | QueueGet =>
      match queue w with
      | key :: rest =>
          ((key, false), mkWorld (clusterRoleBindings w) (clusterRoles w)
                           (deployments w) (services w) (configMaps w) (files w)
                           rest)
      | [] => ((EmptyString, true), w)
      end
  | QueueDone _ | QueueAddRateLimited _ | QueueForget _ => (tt, w)
  end.

Definition client : k8s.client world := mkClient world handle.

Definition empty : world :=
  mkWorld [] ∅ ∅ ∅ ∅ ∅ [].

(** A cluster in which other writers get in first: the next [n] updates are
    answered with a conflict and change nothing; everything else, and every
    update after those, is answered as by [handle]. *)
Definition conflictOf (e : event) : option (resp e) :=
  match e return option (resp e) with
  | UpdateClusterRole _ => Some (inl (StatusError Conflict))
  | UpdateDeployment _ _ => Some (inl (StatusError Conflict))
  | UpdateService _ _ => Some (inl (StatusError Conflict))
  | UpdateConfigMap _ _ => Some (inl (StatusError Conflict))
  | _ => None
  end.

Definition busyHandle (e : event) (s : nat * world) : resp e * (nat * world) :=
  match s.1, conflictOf e with
  | S n, Some r => (r, (n, s.2))
  | _, _ => ((handle e s.2).1, (s.1, (handle e s.2).2))
  end.

Definition busy : k8s.client (nat * world) := mkClient (nat * world) busyHandle.

End mem.

(** ** Documents: token layout, well-formedness, and the normalizer on
       documents *)

Module doc.

(** *** Where the lexer finds the tokens of a serialized document *)

(** The number of line breaks [FromJSON] writes inside an element: none in
    a string, and in a body one after the opening brace and one after each
    of its lines. *)
Fixpoint itemHeight (v : item) : nat :=
  match v with
  | Str _ => O
  | Block b =>
      S ((fix lh (b : list (list item)) : nat :=
            match b with
            | [] => O
            | l :: b' =>
                (fix ih (l : list item) : nat :=
                   match l with
                   | [] => O
                   | v :: r => itemHeight v + ih r
                   end) l + 1 + lh b'
            end) b)
  end.

Fixpoint lineHeight (l : list item) : nat :=
  match l with
  | [] => O
  | v :: r => itemHeight v + lineHeight r
  end.

Fixpoint linesHeight (b : list (list item)) : nat :=
  match b with
  | [] => O
  | l :: b' => lineHeight l + 1 + linesHeight b'
  end.

(** The tokens of an element that starts on line [ln]. *)
Fixpoint itemToks (ln : nat) (v : item) : list Token :=
  match v with
  | Str s => [mkToken ln s]
  | Block b =>
      mkToken ln "{" ::
      (fix lt (ln : nat) (b : list (list item)) : list Token :=
         match b with
         | [] => []
         | l :: b' =>
             (fix it (ln : nat) (l : list item) : list Token :=
                match l with
                | [] => []
                | v :: r => itemToks ln v ++ it (ln + itemHeight v) r
                end) ln l ++ lt (ln + lineHeight l + 1) b'
         end) (S ln) b ++
      [mkToken (ln + itemHeight (Block b)) "}"]
  end.

Fixpoint lineToks (ln : nat) (l : list item) : list Token :=
  match l with
  | [] => []
  | v :: r => itemToks ln v ++ lineToks (ln + itemHeight v) r
  end.

Fixpoint linesToks (ln : nat) (b : list (list item)) : list Token :=
  match b with
  | [] => []
  | l :: b' => lineToks ln l ++ linesToks (ln + lineHeight l + 1) b'
  end.

(** The tokens of the keys: all but the last carry the comma that
    separates them. *)
Fixpoint keysToks (ln : nat) (keys : list string) : list Token :=
  match keys with
  | [] => []
  | [k] => [mkToken ln k]
  | k :: r => mkToken ln (k +:+ ",") :: keysToks ln r
  end.

(** The tokens of a server block whose keys are on line [ln]. *)
Definition blockToks (ln : nat) (sb : EncodedServerBlock) : list Token :=
  keysToks ln (EKeys sb) ++ [mkToken ln "{"] ++
  linesToks (S ln) (Body sb) ++
  [mkToken (S ln + linesHeight (Body sb)) "}"].

(** Server blocks are two line breaks apart. *)
Fixpoint docToks (ln : nat) (j : EncodedCaddyfile) : list Token :=
  match j with
  | [] => []
  | sb :: r => blockToks ln sb ++ docToks (ln + linesHeight (Body sb) + 3) r
  end.

(** *** What the parser makes of those tokens *)

(** The head of a line: the directive name at top level. *)
Definition headOf (l : list item) : string :=
  match l with
  | Str h :: _ => h
  | _ => EmptyString
  end.

(** [Tokens] after the lines of a body: each line's tokens are appended
    under the line's head. *)
Fixpoint groupToks (ln : nat) (b : list (list item))
    (m : gmap string (list Token)) : gmap string (list Token) :=
  match b with
  | [] => m
  | l :: b' =>
      groupToks (ln + lineHeight l + 1) b'
        (<[headOf l := default [] (m !! headOf l) ++ lineToks ln l]> m)
  end.

Definition blockOf (ln : nat) (sb : EncodedServerBlock) : ServerBlock :=
  mkSB (EKeys sb) (groupToks (S ln) (Body sb) ∅).

Fixpoint blocksOf (ln : nat) (j : EncodedCaddyfile) : list ServerBlock :=
  match j with
  | [] => []
  | sb :: r => blockOf ln sb :: blocksOf (ln + linesHeight (Body sb) + 3) r
  end.

(** *** Well-formed documents *)

(** A character that is written and read back as it is: printable ASCII
    other than the double quote and the hash sign. *)
Definition plainChar (c : ascii) : bool :=
  (33 <=? nat_of_ascii c)%nat && (nat_of_ascii c <=? 126)%nat
  && negb (Ascii.eqb c chQuote) && negb (Ascii.eqb c chHash).

Fixpoint allPlain (s : string) : bool :=
  match s with
  | EmptyString => true
  | String c r => plainChar c && allPlain r
  end.

(** A string that is one token of its own: not empty, made of plain
    characters, not a brace, without an environment reference. *)
Definition plainText (s : string) : bool :=
  negb (isEmpty s) && allPlain s
  && negb (String.eqb s "{") && negb (String.eqb s "}")
  && negb (hasEnvRef s).

(** Elements and lines that their tokens tell: plain strings, and bodies
    that have lines, each line starting with a plain string.  This is
    what the reading back of tokens by [constructLine] needs; the
    well-formed elements below, which the serializer and the parser also
    keep, are among them. *)
Fixpoint tokItem (v : item) : bool :=
  match v with
  | Str s => plainText s
  | Block b =>
      negb (bool_decide (b = [])) &&
      (fix wl (b : list (list item)) : bool :=
         match b with
         | [] => true
         | l :: b' =>
             match l with
             | Str h :: r =>
                 plainText h &&
                 (fix wi (r : list item) : bool :=
                    match r with
                    | [] => true
                    | v :: r' => tokItem v && wi r'
                    end) r
             | _ => false
             end && wl b'
         end) b
  end.

Definition tokLine (l : list item) : bool :=
  match l with
  | Str h :: r => plainText h && forallb tokItem r
  | _ => false
  end.

(** The head of a line: a plain string other than [import], which at the
    start of a line the parser takes for the import of a file. *)
Definition wfHead (h : string) : bool :=
  plainText h && negb (String.eqb h "import").

(** A nested body is the last element of its line: after the closing
    brace of a body [FromJSON] writes no separator, so that an element
    after it would be read back as part of the brace's token. *)
Definition lastIfBody (v : item) (r : list item) : bool :=
  match v, r with
  | Block _, _ :: _ => false
  | _, _ => true
  end.

(** An element is well formed when it is a plain string or a body that
    has lines, each line a head followed by well-formed elements of
    which only the last may be a body. *)
Fixpoint wfItem (v : item) : bool :=
  match v with
  | Str s => plainText s
  | Block b =>
      negb (bool_decide (b = [])) &&
      (fix wl (b : list (list item)) : bool :=
         match b with
         | [] => true
         | l :: b' =>
             match l with
             | Str h :: r =>
                 wfHead h &&
                 (fix wi (r : list item) : bool :=
                    match r with
                    | [] => true
                    | v :: r' => wfItem v && lastIfBody v r' && wi r'
                    end) r
             | _ => false
             end && wl b'
         end) b
  end.

Fixpoint wfArgs (r : list item) : bool :=
  match r with
  | [] => true
  | v :: r' => wfItem v && lastIfBody v r' && wfArgs r'
  end.

Definition wfLine (l : list item) : bool :=
  match l with
  | Str h :: r => wfHead h && wfArgs r
  | _ => false
  end.

Definition wfKey (k : string) : bool :=
  plainText k && negb (bool_decide (lastChar k = Some ","%char))
  && negb (String.eqb k "import").

Definition wfBlock (sb : EncodedServerBlock) : bool :=
  negb (bool_decide (EKeys sb = [])) && forallb wfKey (EKeys sb)
  && negb (isSnippet (EKeys sb)) && forallb wfLine (Body sb).

(** A well-formed document: every block has keys, none of them a snippet
    name; keys, heads and the other strings are plain; every nested body
    has lines and is the last element of its line. *)
Definition wfDoc (j : EncodedCaddyfile) : bool := forallb wfBlock j.

(** *** The normalizer on documents (spec, section 4.2)

    Per block: the distinct directive names present, with the managed name
    if it is absent, sorted; each name's lines in their original order;
    the lines of the managed directive rewritten. *)

Definition linesFor (dir : string) (body : list (list item))
  : list (list item) :=
  filter (fun l => headOf l = dir) body.

Definition namesOf (body : list (list item)) : list string :=
  let names := remove_dups (map headOf body) in
  sortStrings (if bool_decide ("hosts" ∈ names) then names
               else names ++ ["hosts"]).

Definition normalizeLines (body : list (list item)) (dir : string)
  : list (list item) :=
  if String.eqb dir "hosts" then
    match linesFor dir body with
    | [] => [[Str "hosts"; Str hostsPath]]
    | ls => map (fun it => (fixHosts it).1) ls
    end
  else linesFor dir body.

Definition normalizeBody (body : list (list item)) : list (list item) :=
  concat (map (normalizeLines body) (namesOf body)).

Definition bodyNeedsHosts (body : list (list item)) : bool :=
  match linesFor "hosts" body with
  | [] => true
  | ls => existsb lacksPath ls
  end.

Definition normalizeBlock (sb : EncodedServerBlock) : EncodedServerBlock :=
  mkESB (EKeys sb) (normalizeBody (Body sb)).

(** [normalize(d)]: the new document and whether it reports a change. *)
Definition normalize (d : EncodedCaddyfile) : EncodedCaddyfile * bool :=
  (map normalizeBlock d, existsb (fun sb => bodyNeedsHosts (Body sb)) d).

(** The managed stanza in a block: one of its lines starts with the
    string hosts, and every line that does has the path among its own
    elements. *)
Definition stanza (sb : EncodedServerBlock) : Prop :=
  (exists l, l ∈ Body sb /\ head l = Some (Str "hosts"))
  /\ (forall l, l ∈ Body sb -> head l = Some (Str "hosts") ->
                Str "/etc/coredns-dir/hosts" ∈ l).

(** The test for it in every block (see [hasStanza_spec]). *)
Definition hasStanza (d : EncodedCaddyfile) : bool :=
  forallb (fun sb => negb (bodyNeedsHosts (Body sb))) d.

(** The lines of every block are in the order of their heads. *)
Definition inOrder (d : EncodedCaddyfile) : Prop :=
  Forall (fun sb => Sorted String.le (map headOf (Body sb))) d.

(** The document of a text (spec, section 4.1, [parse]): the server blocks
    of [caddyfile.Parse], and in each the lines [constructLine] makes of
    every directive's tokens, the directives taken in sorted order.  This
    is the loop of [BuildNewCoreFile] with every directive going through
    the branch for directives other than hosts. *)
Definition plainBlock (sb : ServerBlock) : EncodedServerBlock :=
  mkESB (Keys sb)
    (concat (map (fun dir => default [] (linesOf (tokensOf sb dir)))
               (sortStrings (map_to_list (Tokens sb)).*1))).

Definition parseDocument (text : string) : option EncodedCaddyfile :=
  map plainBlock <$> Parse text.

End doc.

Import doc.

(** ** Concrete inputs *)

Definition hostsLineOk : list item := [Str "hosts"; Str hostsPath].

Definition docA : EncodedCaddyfile :=
  [mkESB [".:53"; "example.org"]
     [[Str "errors"];
      [Str "cache"; Str "30"];
      [Str "kubernetes"; Str "cluster.local";
       Block [[Str "pods"; Str "insecure"; Block [[Str "x"]]];
              [Str "fallthrough"]]];
      [Str "hosts"; Block [[Str "fallthrough"]]];
      [Str "cache"; Str "60"]];
   mkESB ["other"] [[Str "b"]; [Str "a"]]].


(** A block whose hosts line has the path and comes before [errors]. *)
Definition docUnsorted : EncodedCaddyfile :=
  [mkESB [".:53"] [hostsLineOk; [Str "errors"]]].

(** The same lines in the order of their names. *)
Definition docSorted : EncodedCaddyfile :=
  [mkESB [".:53"] [[Str "errors"]; hostsLineOk]].

(** The text of [docUnsorted] as an operator would write it. *)
Definition corefileUnsorted : string :=
  ".:53 {" +:+ nl +:+
  "    hosts /etc/coredns-dir/hosts" +:+ nl +:+
  "    errors" +:+ nl +:+
  "}" +:+ nl.

(** A hosts directive with a nested body and no path. *)
Definition corefileNestedHosts : string :=
  ".:53 {" +:+ nl +:+
  "    hosts {" +:+ nl +:+
  "        fallthrough" +:+ nl +:+
  "    }" +:+ nl +:+
  "}" +:+ nl.

(** A directive with a nested body that has no lines. *)
Definition corefileEmptyBody : string :=
  ".:53 {" +:+ nl +:+
  "    cache 30 {" +:+ nl +:+
  "    }" +:+ nl +:+
  "}" +:+ nl.

Definition docEmptyBody : EncodedCaddyfile :=
  [mkESB [".:53"] [[Str "cache"; Str "30"; Block []]]].

Definition docNoBody : EncodedCaddyfile :=
  [mkESB [".:53"] [[Str "cache"; Str "30"]]].

(** The same directive next to a hosts line that has the path. *)
Definition corefileEmptyBodyHosts : string :=
  ".:53 {" +:+ nl +:+
  "    cache 30 {" +:+ nl +:+
  "    }" +:+ nl +:+
  "    hosts /etc/coredns-dir/hosts" +:+ nl +:+
  "}" +:+ nl.

Definition docEmptyBodyHosts : EncodedCaddyfile :=
  [mkESB [".:53"] [[Str "cache"; Str "30"; Block []]; hostsLineOk]].

Definition docNoBodyHosts : EncodedCaddyfile :=
  [mkESB [".:53"] [[Str "cache"; Str "30"]; hostsLineOk]].

(** * Definitions of the statements *)

(** ** Concrete clusters *)

Definition cm_two : ConfigMap :=
  mkCM (mkMeta "coredns-hosts-api" "kube-system" "7")
       (Some (<["a.example.com" := "1.2.3.4"]> (<["b.example.com" := "5.6.7.8"]> ∅))).

Definition world_two : mem.world :=
  mem.mkWorld [] ∅ ∅ ∅ (<[("kube-system", "coredns-hosts-api") := cm_two]> ∅)
    (<["/etc/coredns-dir/hosts" := "stale"]> ∅) [].

Definition cm_empty : ConfigMap :=
  mkCM (mkMeta "coredns-hosts-api" "kube-system" "1") (Some ∅).

(** The records' configmap with a nil data map. *)
Definition cm_nil : ConfigMap :=
  mkCM (mkMeta "coredns-hosts-api" "kube-system" "1") None.

Definition cm_one : ConfigMap :=
  mkCM (mkMeta "coredns-hosts-api" "kube-system" "1")
       (Some (<["a.example.com" := "1.2.3.4"]> ∅)).

Definition world_of (cm : ConfigMap) : mem.world :=
  mem.mkWorld [] ∅ ∅ ∅ (<[("kube-system", "coredns-hosts-api") := cm]> ∅) ∅ [].

Definition dep0 : Deployment :=
  mkD (mkMeta "coredns" "kube-system" "12") "coredns" EmptyString
      [mkC "coredns" "coredns/coredns:1.9.4" "IfNotPresent" [] [53%Z] []] [].

Definition server0 : Server :=
  mkServer (Some dep0)
    (mkArgs EmptyString "coredns" "kube-system" "v0.0.1"
       (mkServerArgs EmptyString 9080%Z)).

Definition svc_kubedns : Service :=
  mkSvc (mkMeta "kube-dns" "kube-system" "3") [mkSP "dns" 53%Z].

Definition world_kubedns : mem.world :=
  mem.mkWorld [] ∅ ∅ (<[("kube-system", "kube-dns") := svc_kubedns]> ∅) ∅ ∅ [].

Definition world_binding : mem.world :=
  mem.mkWorld
    [mkCRB [mkSubj "ServiceAccount" "coredns" "kube-system"]
           "ClusterRole" "system:coredns"] ∅ ∅ ∅ ∅ ∅ [].

(** ** The lexer between tokens *)

(** The lexer between two tokens. *)
Definition lexI (ln : nat) (s : string) : list Token :=
  lex s ln O EmptyString false false false.

(** The characters [FromJSON] puts after a token. *)
Definition isSep (c : ascii) : bool := Ascii.eqb c chSpace || Ascii.eqb c chNL.

Definition bump (c : ascii) : nat := if Ascii.eqb c chNL then 1 else 0.

(** Equal token lists up to the arithmetic of line numbers. *)
Ltac toks_arith :=
  rewrite <- ?app_assoc; simpl;
  repeat (f_equal; try (unfold bump; simpl; lia)).

(** The lexer reads the text of an element back as its tokens. *)
Definition LexOK (v : item) : Prop :=
  forall depth ln c rest, isSep c = true ->
    lexI ln (itemText depth v +:+ String c rest)
    = itemToks ln v ++ lexI (ln + itemHeight v + bump c) rest.

(** Only the last element of a line is a body. *)
Fixpoint bodyLast (l : list item) : bool :=
  match l with
  | [] => true
  | v :: r => lastIfBody v r && bodyLast r
  end.

(** ** Runs of the parser *)

(** The parser's machine run over a stretch of tokens: the state reached,
    the last token read and the blocks completed. *)
Fixpoint psteps (st : pstate) (prev : option Token) (toks : list Token)
  : option (pstate * option Token * list ServerBlock) :=
  match toks with
  | [] => Some (st, prev, [])
  | t :: rest =>
      match pstep st prev t with
      | None => None
      | Some (st', done) =>
          match psteps st' (Some t) rest with
          | None => None
          | Some (st'', prev', done') => Some (st'', prev', done ++ done')
          end
      end
  end.

(** The line on which a token ends. *)
Definition endLine (t : Token) : nat := Line t + countNL (Text t).

(** [Tokens[dir]] after appending a stretch of tokens. *)
Definition addToks (m : gmap string (list Token)) (dir : string)
    (toks : list Token) : gmap string (list Token) :=
  fold_left (fun m t => addTok m dir t) toks m.

(** Inside a directive, the tokens of an element that follows a token of
    its own line are all appended to the directive's tokens, and the
    nesting is as it was. *)
Definition DirOK (v : item) : Prop :=
  forall keys m o dir n prev ln,
    endLine prev = ln ->
    exists p,
      psteps (PDir keys m o dir n) (Some prev) (itemToks ln v)
      = Some (PDir keys (addToks m dir (itemToks ln v)) o dir n, Some p, [])
      /\ endLine p = ln + itemHeight v.

(** Where the parser stands at the start of a line of a server block's
    body: at the head of the loop of [directives], or in [directive] about
    to read a token of a later line. *)
Definition lineStart (keys : list string) (m : gmap string (list Token))
    (st : pstate) (prev : option Token) (ln : nat) : Prop :=
  st = PDirs keys m true
  \/ exists dir p, st = PDir keys m true dir O /\ prev = Some p /\ endLine p < ln.

(** ** Reading tokens back *)

(** The Dispenser that has read [pre] and has [suf] before it. *)
Definition dispAt (pre suf : list Token) : Dispenser :=
  mkDisp (pre ++ suf) (Z.of_nat (length pre) - 1).

(** The next token, if there is one, is not on line [k]. *)
Definition stops (k : nat) (suf : list Token) : Prop :=
  match suf with
  | [] => True
  | t' :: _ => Line t' <> k
  end.

(** [constructBlock] reads the tokens of a body back as the body. *)
Definition ConsOK (v : item) : Prop :=
  match v with
  | Str s => plainText s = true
  | Block b =>
      forall fuel pre suf ln blk d',
        blockLines fuel
          (dispAt (pre ++ [mkToken ln "{"])
             (linesToks (S ln) b ++ mkToken (ln + S (linesHeight b)) "}" :: suf))
        = Some (blk, d') ->
        blk = b /\
        d' = dispAt (pre ++ [mkToken ln "{"] ++ linesToks (S ln) b
                     ++ [mkToken (ln + S (linesHeight b)) "}"]) suf
  end.

(** A line that starts with a plain string and whose other elements are
    read back. *)
Definition LineOK (l : list item) : Prop :=
  exists h r, l = Str h :: r /\ plainText h = true /\ Forall ConsOK r.

(** The tokens the parser files under [dir] for the lines of a body whose
    first line is on line [ln]. *)
Fixpoint dirToks (ln : nat) (b : list (list item)) (dir : string) : list Token :=
  match b with
  | [] => []
  | l :: b' =>
      (if decide (headOf l = dir) then lineToks ln l else [])
      ++ dirToks (ln + lineHeight l + 1) b' dir
  end.

(** ** Sorted bodies *)

Abbreviation others a := (filter (fun l : list item => headOf l <> a)).

(** The body [parse] makes of the serialized body: its lines name by
    name, the names sorted. *)
Definition sortBody (body : list (list item)) : list (list item) :=
  concat (map (fun dir => linesFor dir body)
            (sortStrings (remove_dups (map headOf body)))).

Definition sortBlock (sb : EncodedServerBlock) : EncodedServerBlock :=
  mkESB (EKeys sb) (sortBody (Body sb)).

(** ** What the ensure steps establish *)

(** A deployment has the hosts server's container, every container mounts
    the shared volume, and the volume is there. *)
Definition deploymentReady (d : Deployment) : bool :=
  ExistContainerByName coreDNSHostsServerName (Containers d)
  && forallb (fun c => ExistVolumeMountsByName volumeName (VolumeMounts c))
             (Containers d)
  && ExistVolumeMsByName volumeName (Volumes d).

(** The port [ensureService] adds. *)
Definition apisPort (a : Args) : ServicePort := mkSP "apis" (Port (ServerArgs_ a)).

(** A subject that makes [ensureClusterrole] take a binding's role. *)
Definition bindsAccount (name namespace : string) (item : ClusterRoleBinding)
  : bool :=
  existsb (fun subject =>
             String.eqb (sName subject) name
             && String.eqb (sKind subject) "ServiceAccount"
             && String.eqb (sNamespace subject) namespace) (Subjects item)
  && String.eqb (rrKind item) "ClusterRole".

(** The writes among the calls. *)
Definition isUpdate (e : event) : bool :=
  match e with
  | UpdateClusterRole _ | UpdateDeployment _ _ | UpdateService _ _
  | UpdateConfigMap _ _ | CreateConfigMap _ _ | WriteFile _ _ => true
  | _ => false
  end.

(** The calls [ensureDeployment] may make for the deployment [dep]: the
    fetch of [dep] by its name, and the write, in its namespace, of a
    deployment that is ready. *)
Definition deploymentCall (dep : Deployment) (e : event) : bool :=
  match e with
  | GetDeployment ns name =>
      String.eqb ns (Namespace (dMeta dep)) && String.eqb name (Name (dMeta dep))
  | UpdateDeployment ns d =>
      String.eqb ns (Namespace (dMeta dep)) && deploymentReady d
  | _ => false
  end.

(** The calls [ensureService] may make: the fetch of the service under the
    configured name or under kube-dns, and the write of a service whose
    last port is the added one and which did not have that port number
    before. *)
Definition serviceCall (a : Args) (e : event) : bool :=
  match e with
  | GetService ns name =>
      String.eqb ns (CoreDNSNamespace a)
      && (String.eqb name (CoreDNSName a) || String.eqb name "kube-dns")
  | UpdateService ns s =>
      String.eqb ns (CoreDNSNamespace a)
      && match reverse (svcPorts s) with
         | p :: before =>
             bool_decide (p = apisPort a)
             && negb (ExistPortsByPort (Port (ServerArgs_ a)) (reverse before))
         | [] => false
         end
  | _ => false
  end.

(** The calls the retried part of [ensureClusterrole] may make for the
    role [name]: its fetch, and a write whose last rule is the added one
    and which did not have that rule before. *)
Definition clusterroleCall (name : string) (e : event) : bool :=
  match e with
  | GetClusterRole n => String.eqb n name
  | UpdateClusterRole cr =>
      match reverse (Rules cr) with
      | r :: before =>
          bool_decide (r = addRule) && negb (ExistPolicyRule addRule (reverse before))
      | [] => false
      end
  | _ => false
  end.

(** A container as [ensureDeployment] may leave it: the same but for
    mounts added after the ones it had. *)
Definition sameButMounts (x x' : Container) : Prop :=
  cName x' = cName x /\ Image x' = Image x
  /\ ImagePullPolicy x' = ImagePullPolicy x
  /\ cArgs x' = cArgs x /\ cPorts x' = cPorts x
  /\ VolumeMounts x `prefix_of` VolumeMounts x'.

(** ** A cluster with CoreDNS installed *)

Definition cr_coredns : ClusterRole :=
  mkCR (mkMeta "system:coredns" EmptyString "5")
       [mkPR ["list"; "watch"] [EmptyString] ["endpoints"; "services"; "pods"] [] []].

Definition svc_coredns : Service :=
  mkSvc (mkMeta "coredns" "kube-system" "8") [mkSP "dns" 53%Z; mkSP "metrics" 9153%Z].

Definition corefile0 : string :=
  ".:53 {" +:+ nl +:+
  "    errors" +:+ nl +:+
  "    cache 30" +:+ nl +:+
  "    forward . /etc/resolv.conf" +:+ nl +:+
  "}" +:+ nl.

Definition cm_coredns : ConfigMap :=
  mkCM (mkMeta "coredns" "kube-system" "21") (Some (<["Corefile" := corefile0]> ∅)).

Definition world_fresh : mem.world :=
  mem.mkWorld
    [mkCRB [mkSubj "ServiceAccount" "coredns" "kube-system"]
           "ClusterRole" "system:coredns"]
    (<["system:coredns" := cr_coredns]> ∅)
    (<[("kube-system", "coredns") := dep0]> ∅)
    (<[("kube-system", "coredns") := svc_coredns]> ∅)
    (<[("kube-system", "coredns") := cm_coredns]> ∅)
    ∅ [].

(** The cluster after the installer has run once. *)
Definition world_set_up : mem.world :=
  (exec mem.client (RunOnce server0) world_fresh).1.2.

(** The calls [ensureCoreDNSConfigmap] may make once it has found that
    [corefile] is to be written: fetches of the configmap, and writes of a
    configmap whose Corefile is [corefile]. *)
Definition corefileCall (a : Args) (corefile : string) (e : event) : bool :=
  match e with
  | GetConfigMap ns name =>
      String.eqb ns (CoreDNSNamespace a) && String.eqb name (CoreDNSName a)
  | UpdateConfigMap ns cm =>
      String.eqb ns (CoreDNSNamespace a)
      && bool_decide (default ∅ (Data cm) !! "Corefile" = Some corefile)
  | _ => false
  end.

(** ** The record store *)

(** The calls [SetData] may make: the fetch of the records, and writes, in
    their namespace, of a configmap in which [domain] reads [ip]. *)
Definition setCall (domain ip : string) (e : event) : bool :=
  match e with
  | GetConfigMap ns name =>
      String.eqb ns controller.ConfigmapNamespace
      && String.eqb name controller.ConfigmapName
  | UpdateConfigMap ns cm =>
      String.eqb ns controller.ConfigmapNamespace
      && bool_decide (default ∅ (Data cm) !! domain = Some ip)
  | _ => false
  end.

(** The calls [DeleteData] may make: the fetch of the records, and writes,
    in their namespace, of a configmap that has no entry for [domain]. *)
Definition deleteCall (domain : string) (e : event) : bool :=
  match e with
  | GetConfigMap ns name =>
      String.eqb ns controller.ConfigmapNamespace
      && String.eqb name controller.ConfigmapName
  | UpdateConfigMap ns cm =>
      String.eqb ns controller.ConfigmapNamespace
      && bool_decide (default ∅ (Data cm) !! domain = None)
  | _ => false
  end.

(** The key of the records' configmap in the cluster in memory, and a
    cluster that stores it under its own name. *)
Definition recordsKey : string * string :=
  (controller.ConfigmapNamespace, controller.ConfigmapName).

Definition hasRecords (w : mem.world) (cm : ConfigMap) : Prop :=
  mem.configMaps w !! recordsKey = Some cm
  /\ Name (cmMeta cm) = controller.ConfigmapName.

(** The cluster in memory with the records' configmap replaced. *)
Definition withRecords (w : mem.world) (cm : ConfigMap) : mem.world :=
  mem.mkWorld (mem.clusterRoleBindings w) (mem.clusterRoles w) (mem.deployments w)
    (mem.services w) (<[recordsKey := cm]> (mem.configMaps w)) (mem.files w)
    (mem.queue w).

(** [err.Error()] for the concrete runs. *)
Definition errorText (e : error) : string :=
  match e with
  | StatusError NotFound => "not found"
  | StatusError Conflict => "the object has been modified"
  | StatusError AlreadyExists => "already exists"
  | StatusError InternalError => "internal error"
  | Errorf format => format
  | OtherError msg => msg
  | Panic msg => msg
  end.

(** ** The sync worker *)

(** The key of the watched configmap. *)
Definition watchedKey : string := "kube-system/coredns-hosts-api".

(** A cluster in memory with the records [cm_two] and one key in the
    queue. *)
Definition world_queued : mem.world :=
  mem.mkWorld [] ∅ ∅ ∅ (<[("kube-system", "coredns-hosts-api") := cm_two]> ∅)
    ∅ [watchedKey].

(** ** What the normalizer keeps of a block *)

(** The lines of the directives other than hosts are the lines the block
    had for them, in the order they had. *)
Definition keepsOthers (sb sb' : EncodedServerBlock) : Prop :=
  EKeys sb' = EKeys sb
  /\ forall dir, dir <> "hosts" ->
       linesFor dir (Body sb') = linesFor dir (Body sb).

(** The hosts lines: one where there was none, as many as there were
    otherwise, and among them every line that had the path among its own
    elements. *)
Definition keepsHosts (sb sb' : EncodedServerBlock) : Prop :=
  length (linesFor "hosts" (Body sb'))
  = Nat.max 1 (length (linesFor "hosts" (Body sb)))
  /\ forall l, l ∈ linesFor "hosts" (Body sb) ->
       Str "/etc/coredns-dir/hosts" ∈ l ->
       l ∈ linesFor "hosts" (Body sb').

(** * Properties *)

(** ** Running programs *)

Section Exec.
Context {W : Type} (c : client W).

Lemma exec_bind {A B : Type} (p : prog A) (f : A -> prog B) (w : W) :
  exec c (bind p f) w =
  let '(a, w1, l1) := exec c p w in
  let '(b, w2, l2) := exec c (f a) w1 in
  (b, w2, l1 ++ l2).
Proof.
  revert w. induction p as [a | e k IH]; intros w; simpl.
  - by destruct (exec c (f a) w) as [[b w2] l2].
  - destruct (handle c e w) as [x w1].
    rewrite IH.
    destruct (exec c (k x) w1) as [[a w1'] l1].
    by destruct (exec c (f a) w1') as [[b w2] l2].
Qed.

Lemma exec_call (e : event) (w : W) :
  exec c (call e) w = ((handle c e w).1, (handle c e w).2, [e]).
Proof. simpl. by destruct (handle c e w). Qed.

Lemma exec_call_bind {B : Type} (e : event) (f : resp e -> prog B) (w : W) :
  exec c (bind (call e) f) w =
  let '(b, w2, l2) := exec c (f (handle c e w).1) (handle c e w).2 in
  (b, w2, e :: l2).
Proof.
  rewrite exec_bind, exec_call.
  by destruct (exec c (f (handle c e w).1) (handle c e w).2) as [[b w2] l2].
Qed.

(** A closure that ends without a conflict is run once by
    [RetryOnConflict]. *)
Lemma exec_retry_once (fn : prog (option error)) (w : W) :
  match (exec c fn w).1.1 with
  | Some e => IsConflict e = false
  | None => True
  end ->
  exec c (RetryOnConflict fn) w = exec c fn w.
Proof.
  intros H. unfold RetryOnConflict, DefaultRetrySteps. simpl.
  unfold mbind, prog_bind. rewrite exec_bind.
  destruct (exec c fn w) as [[r w1] l1]. simpl in H.
  destruct r as [e|]; simpl.
  - rewrite H. simpl. by rewrite app_nil_r.
  - by rewrite app_nil_r.
Qed.

End Exec.

(** ** The sync worker *)

Section Worker.
Import controller.
Context (mapRange : gmap string string -> list (string * string)).
Context (filePath : string).

(** A loop whose body is a call followed by nothing never leaves: no turn
    ends in [Break]. *)
Lemma goFor_call_only {W : Type} (c : client W) (body : prog unit)
    (fuel : nat) (w : W) :
  (exec c (goFor fuel (bind body (fun _ => Ret Continue))) w).1.1 = None.
Proof.
  revert w. induction fuel as [|f IH]; intros w; [done|].
  simpl. unfold mbind, prog_bind. rewrite !exec_bind.
  destruct (exec c body w) as [[[] w1] l1]. simpl.
  specialize (IH w1).
  destruct (exec c (goFor f (bind body (fun _ => Ret Continue))) w1)
    as [[r w2] l2].
  simpl in *. by subst.
Qed.

Lemma goFor_S (fuel : nat) (body : prog ctrl) :
  goFor (S fuel) body
  = bind body (fun c => match c with
                        | Break => Ret (Some tt)
                        | Continue => goFor fuel body
                        end).
Proof. reflexivity. Qed.

(** Whatever the queue, the API server and the file system answer, and
    however many turns it is given, [worker] does not return. *)
Lemma worker_never_returns {W : Type} (c : client W) (fuel : nat) (w : W) :
  (exec c (worker mapRange filePath fuel) w).1.1 = None.
Proof. apply goFor_call_only. Qed.

(** C9 (the code at the failing input): on a queue that is empty and
    reports shutdown, [worker] syncs nothing and takes no item, but its
    loop does not end: after any number of turns it is still running, and
    every turn has asked the queue again. *)
Theorem worker_spins_after_shutdown (fuel : nat) :
  exec mem.client (worker mapRange filePath fuel) mem.empty
  = (None, mem.empty, replicate fuel QueueGet).
Proof.
  induction fuel as [|f IH]; [done|].
  unfold worker, mbind, prog_bind in *. rewrite goFor_S, !exec_bind.
  change (exec mem.client (workerItem mapRange filePath) mem.empty)
    with (tt, mem.empty, [QueueGet]).
  cbn iota beta. change (exec mem.client (Ret Continue) mem.empty)
    with (Continue, mem.empty, @nil event).
  cbn iota beta. rewrite IH. done.
Qed.

(** The text [flatten] builds is the concatenation of the entries'
    lines. *)
Lemma flatten_concat (entries : list (string * string)) :
  flatten entries
  = String.concat EmptyString
      (map (fun kv : string * string => kv.2 +:+ " " +:+ kv.1 +:+ nl) entries).
Proof.
  induction entries as [|kv r IH]; [done|].
  cbn [flatten map]. rewrite IH. unfold hostsLine.
  destruct r as [|kv' r]; [|done].
  cbn [map String.concat].
  generalize (kv.2 +:+ " " +:+ kv.1 +:+ nl). clear.
  intros x. induction x as [|ch x IHx]; [done|].
  change (String ch (x +:+ EmptyString) = String ch x). by rewrite IHx.
Qed.

(** C6: a sync first fetches the object named by the key.  When the answer
    is not found it returns no error and has made no other call; on
    another error it returns that error; otherwise its one further call
    writes the whole sink file, and what it writes is the concatenation of
    lines that are, up to their order, one line per entry of the object's
    data: the entry's value, a space, the entry's key and a line feed. *)
Theorem syncConfigmap_spec {W : Type} (c : client W) (w : W)
    (key namespace name : string) :
  (forall m, mapRange m ≡ₚ map_to_list m) ->
  SplitMetaNamespaceKey key = inr (namespace, name) ->
  match handle c (GetConfigMap namespace name) w with
  | (inl err, w1) =>
      exec c (syncConfigmap mapRange filePath key) w
      = (if IsNotFound err then None else Some err, w1,
         [GetConfigMap namespace name])
  | (inr cm, w1) =>
      exists lines : list string,
        lines ≡ₚ map (fun kv : string * string =>
                        kv.2 +:+ " " +:+ kv.1 +:+ nl)
                     (map_to_list (default ∅ (Data cm))) /\
        let write := WriteFile filePath (String.concat EmptyString lines) in
        exec c (syncConfigmap mapRange filePath key) w
        = ((handle c write w1).1, (handle c write w1).2,
           [GetConfigMap namespace name; write])
  end.
Proof.
  intros Hperm Hkey. unfold syncConfigmap. rewrite Hkey.
  cbv iota beta. unfold mbind, prog_bind.
  rewrite (exec_call_bind c (GetConfigMap namespace name)).
  destruct (handle c (GetConfigMap namespace name) w) as [[err|cm] w1]; simpl.
  - by destruct (IsNotFound err).
  - eexists. split; [apply fmap_Permutation, Hperm|].
    rewrite flatten_concat.
    by destruct (handle c (WriteFile filePath _) w1).
Qed.

End Worker.

(** The sync on a cluster in memory holding two records: the sink, which
    held other text, holds exactly the two lines afterwards, in one order
    or the other. *)
Lemma syncConfigmap_spec_witness :
  let sink :=
    (exec mem.client
       (controller.syncConfigmap map_to_list "/etc/coredns-dir/hosts"
          "kube-system/coredns-hosts-api") world_two).1.2.(mem.files)
      !! "/etc/coredns-dir/hosts" in
  sink = Some ("1.2.3.4 a.example.com" +:+ nl +:+ "5.6.7.8 b.example.com" +:+ nl)
  \/ sink = Some ("5.6.7.8 b.example.com" +:+ nl +:+ "1.2.3.4 a.example.com" +:+ nl).
Proof.
  pose proof (syncConfigmap_spec map_to_list "/etc/coredns-dir/hosts"
                mem.client world_two "kube-system/coredns-hosts-api"
                "kube-system" "coredns-hosts-api"
                (fun m => reflexivity _) eq_refl) as H.
  change (handle mem.client (GetConfigMap "kube-system" "coredns-hosts-api") world_two)
    with (inr cm_two : result ConfigMap, world_two) in H.
  cbv iota beta in H.
  destruct H as (lines & Hperm & Hexec).
  cbv zeta in Hexec |- *. rewrite Hexec. cbn [fst snd].
  change (<["/etc/coredns-dir/hosts" := String.concat EmptyString lines]>
            (mem.files world_two) !! "/etc/coredns-dir/hosts"
          = Some ("1.2.3.4 a.example.com" +:+ nl +:+ "5.6.7.8 b.example.com" +:+ nl)
          \/ <["/etc/coredns-dir/hosts" := String.concat EmptyString lines]>
               (mem.files world_two) !! "/etc/coredns-dir/hosts"
             = Some ("5.6.7.8 b.example.com" +:+ nl +:+ "1.2.3.4 a.example.com" +:+ nl)).
  rewrite lookup_insert_eq.
  assert (Hl : [("1.2.3.4 a.example.com" +:+ nl); ("5.6.7.8 b.example.com" +:+ nl)]
               ≡ₚ lines).
  { rewrite Hperm. unfold cm_two. cbn [Data default from_option id].
    rewrite map_to_list_insert, map_to_list_insert, map_to_list_empty; done. }
  apply Permutation_length_2_inv in Hl as [-> | ->]; [by left|by right].
Defined.

(** ** The record store *)

Section RecordStore.
Import controller server.
Context {W : Type} (c : client W).

Lemma exec_setDataOnce (w : W) (domain ip : string) :
  exec c (setDataOnce domain ip) w =
  match handle c fetchRecords w with
  | (inl _, w1) =>
      (Some (Errorf "failed to get latest version of Configmap: %v"), w1,
       [fetchRecords])
  | (inr cm, w1) =>
      if bool_decide (default ∅ (Data cm) !! domain = Some ip)
      then (None, w1, [fetchRecords])
      else
        match handle c (setWrite cm domain ip) w1 with
        | (inl updateErr, w2) =>
            (Some updateErr, w2, [fetchRecords; setWrite cm domain ip])
        | (inr newCm, w2) =>
            (match Data newCm with
             | None => Some (Errorf "failed to setData and updateCm's Data is nil, domainInfo is %s(%s)")
             | Some d =>
                 if bool_decide (default EmptyString (d !! domain) = ip)
                 then None
                 else Some (Errorf "failed to setData and updateCm's value is not right, domainInfo is %s(%s)")
             end, w2, [fetchRecords; setWrite cm domain ip])
        end
  end.
Proof.
  unfold setDataOnce, mbind, prog_bind.
  rewrite (exec_call_bind c (GetConfigMap ConfigmapNamespace ConfigmapName)).
  unfold fetchRecords.
  destruct (handle c (GetConfigMap ConfigmapNamespace ConfigmapName) w)
    as [[err|cm] w1]; simpl fst; simpl snd; cbv iota beta; [done|].
  case_bool_decide; [done|].
  rewrite (exec_call_bind c (UpdateConfigMap _ _)). unfold setWrite.
  destruct (handle c (UpdateConfigMap _ _) w1) as [[err|newCm] w2];
    simpl fst; simpl snd; cbv iota beta; [done|].
  destruct (Data newCm) as [d|]; [|done].
  by case_bool_decide.
Qed.

Lemma exec_deleteDataOnce (w : W) (domain : string) :
  exec c (deleteDataOnce domain) w =
  match handle c fetchRecords w with
  | (inl _, w1) =>
      (Some (Errorf "failed to get latest version of Configmap: %v"), w1,
       [fetchRecords])
  | (inr cm, w1) =>
      match default ∅ (Data cm) !! domain with
      | None => (None, w1, [fetchRecords])
      | Some _ =>
          match handle c (deleteWrite cm domain) w1 with
          | (inl updateErr, w2) =>
              (Some updateErr, w2, [fetchRecords; deleteWrite cm domain])
          | (inr newCm, w2) =>
              (match default ∅ (Data newCm) !! domain with
               | Some _ => Some (Errorf "failed to DeleteData and updateCm's val is exist, domainInfo is %s(%s)")
               | None => None
               end, w2, [fetchRecords; deleteWrite cm domain])
          end
      end
  end.
Proof.
  unfold deleteDataOnce, mbind, prog_bind.
  rewrite (exec_call_bind c (GetConfigMap ConfigmapNamespace ConfigmapName)).
  unfold fetchRecords.
  destruct (handle c (GetConfigMap ConfigmapNamespace ConfigmapName) w)
    as [[err|cm] w1]; simpl fst; simpl snd; cbv iota beta; [done|].
  destruct (Data cm) as [data|] eqn:Hd; cbn [from_option id]; [|done].
  destruct (data !! domain) eqn:Hl; [|done].
  rewrite (exec_call_bind c (UpdateConfigMap _ _)). unfold deleteWrite.
  rewrite Hd. cbn [from_option id].
  destruct (handle c (UpdateConfigMap _ _) w1) as [[err|newCm] w2];
    simpl fst; simpl snd; cbv iota beta; [done|].
  by destruct (default ∅ (Data newCm) !! domain).
Qed.

(** C5 (amended): when the write of [SetData] or [DeleteData] succeeds, the
    check is made on the object that write returned and no further call
    follows: the run is the fetch and the write.  [SetData] returns no
    error exactly when that object has data and reads [ip] at [domain];
    [DeleteData] exactly when it has no entry for [domain]; otherwise each
    returns a plain [Errorf] error, which is not a conflict and is not
    tried again. *)
Theorem post_write_check_uses_write_answer
    (domain ip : string)
    (w w1 w2 : W) (cm newCm : ConfigMap)
    (v v1 v2 : W) (cmD newCmD : ConfigMap) :
  handle c fetchRecords w = (inr cm, w1) ->
  default ∅ (Data cm) !! domain <> Some ip ->
  handle c (setWrite cm domain ip) w1 = (inr newCm, w2) ->
  handle c fetchRecords v = (inr cmD, v1) ->
  is_Some (default ∅ (Data cmD) !! domain) ->
  handle c (deleteWrite cmD domain) v1 = (inr newCmD, v2) ->
  (exists r,
     exec c (SetData domain ip) w = (r, w2, [fetchRecords; setWrite cm domain ip])
     /\ if holdsAddress newCm domain ip then r = None
        else exists msg, r = Some (Errorf msg))
  /\
  (exists r,
     exec c (DeleteData domain) v = (r, v2, [fetchRecords; deleteWrite cmD domain])
     /\ if lacksDomain newCmD domain then r = None
        else exists msg, r = Some (Errorf msg)).
Proof.
  intros Hg Hne Hu HgD [x Hx] HuD. split.
  - assert (Hrun : exists r,
      exec c (setDataOnce domain ip) w = (r, w2, [fetchRecords; setWrite cm domain ip])
      /\ if holdsAddress newCm domain ip then r = None
         else exists msg, r = Some (Errorf msg)).
    { rewrite exec_setDataOnce, Hg. rewrite bool_decide_eq_false_2 by done.
      rewrite Hu. unfold holdsAddress.
      destruct (Data newCm) as [d|]; [|eauto].
      case_bool_decide; eauto. }
    destruct Hrun as (r & Hrun & Hr). exists r. split; [|done].
    unfold SetData. rewrite exec_retry_once; [done|].
    rewrite Hrun. simpl.
    destruct (holdsAddress newCm domain ip); [by subst|].
    by destruct Hr as [msg ->].
  - assert (Hrun : exists r,
      exec c (deleteDataOnce domain) v = (r, v2, [fetchRecords; deleteWrite cmD domain])
      /\ if lacksDomain newCmD domain then r = None
         else exists msg, r = Some (Errorf msg)).
    { rewrite exec_deleteDataOnce, HgD, Hx, HuD. unfold lacksDomain.
      destruct (default ∅ (Data newCmD) !! domain) eqn:Hl.
      - rewrite bool_decide_eq_false_2 by done. eauto.
      - rewrite bool_decide_eq_true_2 by done. eauto. }
    destruct Hrun as (r & Hrun & Hr). exists r. split; [|done].
    unfold DeleteData. rewrite exec_retry_once; [done|].
    rewrite Hrun. simpl.
    destruct (lacksDomain newCmD domain); [by subst|].
    by destruct Hr as [msg ->].
Qed.

End RecordStore.

(** C5 (counterexample): storing a record in a cluster in memory succeeds
    with a write, and the calls made are the fetch and the write: nothing
    is fetched after the write. *)
Lemma SetData_does_not_refetch :
  exec mem.client (server.SetData "a.example.com" "1.2.3.4") (world_of cm_empty)
  = (None, world_of cm_one,
     [server.fetchRecords; server.setWrite cm_empty "a.example.com" "1.2.3.4"]).
Proof.
  unfold server.SetData. rewrite exec_retry_once.
  - rewrite exec_setDataOnce. vm_compute. reflexivity.
  - rewrite exec_setDataOnce. vm_compute. done.
Qed.

Lemma post_write_check_uses_write_answer_witness :
  (exists r,
     exec mem.client (server.SetData "a.example.com" "1.2.3.4") (world_of cm_empty)
     = (r, world_of cm_one,
        [server.fetchRecords; server.setWrite cm_empty "a.example.com" "1.2.3.4"])
     /\ if server.holdsAddress cm_one "a.example.com" "1.2.3.4" then r = None
        else exists msg, r = Some (Errorf msg))
  /\
  (exists r,
     exec mem.client (server.DeleteData "a.example.com") (world_of cm_one)
     = (r, world_of cm_empty,
        [server.fetchRecords; server.deleteWrite cm_one "a.example.com"])
     /\ if server.lacksDomain cm_empty "a.example.com" then r = None
        else exists msg, r = Some (Errorf msg)).
Proof.
  apply (post_write_check_uses_write_answer mem.client
           "a.example.com" "1.2.3.4"
           (world_of cm_empty) (world_of cm_empty) (world_of cm_one)
           cm_empty cm_one
           (world_of cm_one) (world_of cm_one) (world_of cm_empty)
           cm_one cm_empty).
  - vm_compute. reflexivity.
  - vm_compute. discriminate.
  - vm_compute. reflexivity.
  - vm_compute. reflexivity.
  - exists "1.2.3.4". vm_compute. reflexivity.
  - vm_compute. reflexivity.
Defined.

(** ** The initial fetch of every step *)

Section InitialFetch.
Import controller server.
Context {W : Type} (c : client W).

Lemma exec_ensureServiceOnce (a : Args) (w : W) :
  exec c (ensureServiceOnce a) w =
  match handle c (GetService (CoreDNSNamespace a) (CoreDNSName a)) w with
  | (inr result, w1) =>
      let '(r, w2, l) := exec c (ensurePort a result) w1 in
      (r, w2, GetService (CoreDNSNamespace a) (CoreDNSName a) :: l)
  | (inl _, w1) =>
      match handle c (GetService (CoreDNSNamespace a) "kube-dns") w1 with
      | (inl _, w2) =>
          (Some (Errorf "failed to get latest version of Service: %v"), w2,
           [GetService (CoreDNSNamespace a) (CoreDNSName a);
            GetService (CoreDNSNamespace a) "kube-dns"])
      | (inr result, w2) =>
          let '(r, w3, l) := exec c (ensurePort a result) w2 in
          (r, w3, GetService (CoreDNSNamespace a) (CoreDNSName a)
                  :: GetService (CoreDNSNamespace a) "kube-dns" :: l)
      end
  end.
Proof.
  unfold ensureServiceOnce, mbind, prog_bind.
  rewrite (exec_call_bind c (GetService _ _)).
  destruct (handle c (GetService (CoreDNSNamespace a) (CoreDNSName a)) w)
    as [[err|result] w1]; simpl fst; simpl snd; cbv iota beta; [|done].
  rewrite (exec_call_bind c (GetService _ _)).
  destruct (handle c (GetService (CoreDNSNamespace a) "kube-dns") w1)
    as [[err2|result] w2]; simpl fst; simpl snd; cbv iota beta; [done|].
  by destruct (exec c (ensurePort a result) w2) as [[r w3] l].
Qed.

(** C4 (amended): when the first fetch of a step is answered not found,
    [ensureClusterrole], [ensureDeployment], [SetData] and [DeleteData]
    return an [Errorf] error and [ensureCoreDNSConfigmap] returns the
    not-found error, each without another call; [initConfigmap] then
    creates, in the namespace kube-system, the configmap named
    coredns-hosts-api with a data map that has no entries, and returns
    what the creation returns; [ensureService], when its first fetch
    fails with whatever error, fetches the service named kube-dns and
    fails only when that fetch fails too, and otherwise goes on with the
    service it got. *)
Theorem notfound_on_initial_fetch (s : Server) (dep : Deployment)
    (domain ip : string) :
  corednsDeployment s = Some dep ->
  let a := args s in
  let sa := if isEmpty (ServiceAccountName dep)
            then DeprecatedServiceAccount dep else ServiceAccountName dep in
  let getDep := GetDeployment (Namespace (dMeta dep)) (Name (dMeta dep)) in
  let getCm := GetConfigMap (CoreDNSNamespace a) (CoreDNSName a) in
  let getSvc := GetService (CoreDNSNamespace a) (CoreDNSName a) in
  let getDns := GetService (CoreDNSNamespace a) "kube-dns" in
  (forall w w1 w2 items,
     isEmpty sa = false ->
     handle c ListClusterRoleBindings w = (inr items, w1) ->
     let name := findClusterRoleName items sa (Namespace (dMeta dep)) in
     isEmpty name = false ->
     handle c (GetClusterRole name) w1 = (notFound, w2) ->
     exists msg, exec c (ensureClusterrole s) w
       = (Some (Errorf msg), w2, [ListClusterRoleBindings; GetClusterRole name]))
  /\ (forall w w1,
     handle c getDep w = (notFound, w1) ->
     exists msg, exec c (ensureDeployment s) w = (Some (Errorf msg), w1, [getDep]))
  /\ (forall w w1,
     handle c getCm w = (notFound, w1) ->
     exec c (ensureCoreDNSConfigmap s) w
     = (Some (StatusError NotFound), w1, [getCm]))
  /\ (forall w w1,
     handle c fetchRecords w = (notFound, w1) ->
     (exists msg, exec c (SetData domain ip) w
        = (Some (Errorf msg), w1, [fetchRecords]))
     /\ (exists msg, exec c (DeleteData domain) w
        = (Some (Errorf msg), w1, [fetchRecords])))
  /\ (forall w w1,
     handle c (GetConfigMap "kube-system" "coredns-hosts-api") w
     = (notFound, w1) ->
     let create :=
       CreateConfigMap "kube-system"
         (mkCM (mkMeta "coredns-hosts-api" "kube-system" EmptyString)
               (Some ∅)) in
     exec c initConfigmap w
     = (errOf (handle c create w1).1, (handle c create w1).2,
        [GetConfigMap "kube-system" "coredns-hosts-api"; create]))
  /\ (forall w w1 err,
     handle c getSvc w = (inl err, w1) ->
     match handle c getDns w1 with
     | (inl _, w2) =>
         exists msg, exec c (ensureService s) w
           = (Some (Errorf msg), w2, [getSvc; getDns])
     | (inr svc, w2) =>
         exec c (ensureServiceOnce a) w
         = (let '(r, w3, l) := exec c (ensurePort a svc) w2 in
            (r, w3, getSvc :: getDns :: l))
     end).
Proof.
  intros Hdep a sa getDep getCm getSvc getDns.
  repeat split.
  - intros w w1 w2 items Hsa Hl name Hname Hg.
    unfold ensureClusterrole. rewrite Hdep. fold sa. rewrite Hsa.
    unfold mbind, prog_bind. rewrite (exec_call_bind c ListClusterRoleBindings).
    rewrite Hl. simpl fst; simpl snd; cbv iota beta. fold name. rewrite Hname.
    eexists. rewrite exec_retry_once.
    + unfold ensureClusterroleOnce, mbind, prog_bind.
      rewrite (exec_call_bind c (GetClusterRole name)), Hg. reflexivity.
    + unfold ensureClusterroleOnce, mbind, prog_bind.
      rewrite (exec_call_bind c (GetClusterRole name)), Hg. done.
  - intros w w1 Hg. unfold ensureDeployment. rewrite Hdep.
    eexists. rewrite exec_retry_once.
    + unfold ensureDeploymentOnce, mbind, prog_bind.
      rewrite (exec_call_bind c (GetDeployment _ _)). fold getDep.
      rewrite Hg. reflexivity.
    + unfold ensureDeploymentOnce, mbind, prog_bind.
      rewrite (exec_call_bind c (GetDeployment _ _)). fold getDep.
      rewrite Hg. done.
  - intros w w1 Hg. unfold ensureCoreDNSConfigmap, mbind, prog_bind.
    rewrite (exec_call_bind c (GetConfigMap _ _)). fold a getCm.
    rewrite Hg. reflexivity.
  - eexists. unfold SetData. rewrite exec_retry_once.
    + rewrite exec_setDataOnce, H. reflexivity.
    + rewrite exec_setDataOnce, H. done.
  - eexists. unfold DeleteData. rewrite exec_retry_once.
    + rewrite exec_deleteDataOnce, H. reflexivity.
    + rewrite exec_deleteDataOnce, H. done.
  - intros w w1 Hg create. unfold initConfigmap, mbind, prog_bind.
    rewrite (exec_call_bind c (GetConfigMap _ _)).
    change ConfigmapNamespace with "kube-system".
    change ConfigmapName with "coredns-hosts-api".
    unfold notFound in Hg. rewrite Hg.
    simpl fst; simpl snd; cbv iota beta. simpl IsNotFound. cbv iota.
    rewrite (exec_call_bind c (CreateConfigMap _ _)). reflexivity.
  - intros w w1 err Hg.
    destruct (handle c getDns w1) as [[err2|svc] w2] eqn:Hd.
    + eexists. unfold ensureService. rewrite exec_retry_once.
      * rewrite exec_ensureServiceOnce. fold a getSvc getDns.
        rewrite Hg, Hd. reflexivity.
      * rewrite exec_ensureServiceOnce. fold a getSvc getDns.
        rewrite Hg, Hd. done.
    + rewrite exec_ensureServiceOnce. fold a getSvc getDns.
      rewrite Hg, Hd. reflexivity.
Qed.

End InitialFetch.

(** C4 (counterexample): in a cluster whose DNS service is named kube-dns
    the fetch of the service under the configured name is answered not
    found, and [ensureService] still ends without an error, having written
    the port to the service kube-dns. *)
Lemma ensureService_masks_failed_fetch :
  (handle mem.client (GetService "kube-system" "coredns") world_kubedns).1
  = notFound
  /\ exists cluster' svc',
       exec mem.client (ensureService server0) world_kubedns
       = (None, cluster',
          [GetService "kube-system" "coredns";
           GetService "kube-system" "kube-dns";
           UpdateService "kube-system" svc']).
Proof.
  split; [reflexivity|].
  do 2 eexists. unfold ensureService. rewrite exec_retry_once.
  - rewrite exec_ensureServiceOnce. vm_compute. reflexivity.
  - rewrite exec_ensureServiceOnce. vm_compute. done.
Qed.

Lemma notfound_on_initial_fetch_witness :
  corednsDeployment server0 = Some dep0
  /\ (exists msg,
        exec mem.client (ensureClusterrole server0) world_binding
        = (Some (Errorf msg), world_binding,
           [ListClusterRoleBindings; GetClusterRole "system:coredns"]))
  /\ (exists msg,
        exec mem.client (ensureDeployment server0) mem.empty
        = (Some (Errorf msg), mem.empty, [GetDeployment "kube-system" "coredns"]))
  /\ exec mem.client (ensureCoreDNSConfigmap server0) mem.empty
     = (Some (StatusError NotFound), mem.empty,
        [GetConfigMap "kube-system" "coredns"])
  /\ (exists msg,
        exec mem.client (server.SetData "a.example.com" "1.2.3.4") mem.empty
        = (Some (Errorf msg), mem.empty, [server.fetchRecords]))
  /\ (exists w',
        exec mem.client server.initConfigmap mem.empty
        = (None, w',
           [GetConfigMap "kube-system" "coredns-hosts-api";
            CreateConfigMap "kube-system"
              (mkCM (mkMeta "coredns-hosts-api" "kube-system" EmptyString)
                    (Some ∅))])
        /\ mem.configMaps w' !! ("kube-system", "coredns-hosts-api")
           = Some (mkCM (mkMeta "coredns-hosts-api" "kube-system" EmptyString)
                        (Some ∅)))
  /\ (exists msg,
        exec mem.client (ensureService server0) mem.empty
        = (Some (Errorf msg), mem.empty,
           [GetService "kube-system" "coredns";
            GetService "kube-system" "kube-dns"])).
Proof.
  destruct (notfound_on_initial_fetch mem.client server0 dep0
              "a.example.com" "1.2.3.4" eq_refl)
    as (Hrole & Hdep & Hcm & Hrec & Hinit & Hsvc).
  split; [reflexivity|].
  split.
  { apply (Hrole world_binding world_binding world_binding
             (mem.clusterRoleBindings world_binding));
      vm_compute; reflexivity. }
  split.
  { apply (Hdep mem.empty mem.empty). vm_compute. reflexivity. }
  split.
  { apply (Hcm mem.empty mem.empty). vm_compute. reflexivity. }
  split.
  { apply (Hrec mem.empty mem.empty). vm_compute. reflexivity. }
  split.
  { eexists. rewrite (Hinit mem.empty mem.empty) by reflexivity.
    split; [reflexivity|]. vm_compute. reflexivity. }
  { apply (Hsvc mem.empty mem.empty (StatusError NotFound)).
    vm_compute. reflexivity. }
Defined.
(** ** The rewriting of a hosts line *)

Section HostsLine.

Lemma ExistInterfaceSlice_isString (val : string) (it : list item) :
  ExistInterfaceSlice val it = existsb (isString val) it.
Proof.
  induction it as [|[s|b] r IH]; [done| |done].
  simpl. rewrite (String.eqb_sym s val), IH. by destruct (String.eqb val s).
Qed.

(** The rewriting sets [needUpdate] on the lines whose first element is
    hosts and that do not hold the path among their own elements, and on
    no others. *)
Lemma fixHosts_flag (it : list item) : (fixHosts it).2 = lacksPath it.
Proof.
  destruct it as [|[h|b] r]; [done| |done].
  unfold fixHosts, lacksPath. rewrite ExistInterfaceSlice_isString.
  cbn [isString]. destruct (String.eqb h "hosts"); [|done].
  destruct (existsb _ _); [done|]. by destruct (length _ =? 1)%nat.
Qed.

Lemma isString_spec (s : string) (v : item) :
  isString s v = true <-> v = Str s.
Proof.
  destruct v as [s'|b]; cbn [isString]; [|done].
  rewrite String.eqb_eq. split; [by intros ->|by intros [= ->]].
Qed.

Lemma existsb_isString (s : string) (l : list item) :
  existsb (isString s) l = true <-> Str s ∈ l.
Proof.
  rewrite existsb_exists. split.
  - intros (v & Hin & ->%isString_spec). by apply list_elem_of_In.
  - intros Hin. exists (Str s). split; [by apply list_elem_of_In|].
    by apply isString_spec.
Qed.

(** A line lacks the path exactly when it starts with the string hosts
    and the path is none of its own elements. *)
Lemma lacksPath_spec (l : list item) :
  lacksPath l = true <-> head l = Some (Str "hosts") /\ Str hostsPath ∉ l.
Proof.
  destruct l as [|v r]; cbn [lacksPath head].
  - split; [done|]. by intros [? _].
  - rewrite andb_true_iff, negb_true_iff, isString_spec.
    rewrite <- not_true_iff_false, existsb_isString.
    split; [by intros [-> ?]|by intros [[= ->] ?]].
Qed.

End HostsLine.


(** ** The Dispenser and the line constructors *)

Section Dispenser.

Lemma Next_true (d d' : Dispenser) :
  Next d = (true, d') ->
  tokens d' = tokens d /\ cursor d' = (cursor d + 1)%Z
  /\ (cursor d' < ntokens d)%Z.
Proof.
  unfold Next. case_match eqn:H; [|done].
  intros [= <-]. simpl. apply Z.ltb_lt in H. split; [done|lia].
Qed.

Lemma Next_false (d d' : Dispenser) : Next d = (false, d') -> d' = d.
Proof. unfold Next. case_match; [done|]. by intros [= <-]. Qed.

Lemma NextArg_true (d d' : Dispenser) :
  (0 <= cursor d)%Z ->
  NextArg d = (true, d') ->
  tokens d' = tokens d /\ cursor d' = (cursor d + 1)%Z
  /\ (cursor d' < ntokens d)%Z.
Proof.
  intros Hc. unfold NextArg.
  destruct (cursor d <? 0)%Z eqn:H0; [apply Z.ltb_lt in H0; lia|].
  destruct (ntokens d <=? cursor d)%Z eqn:H1; [done|].
  destruct (tokenAt d (cursor d)) as [t|]; [|done].
  destruct (tokenAt d (cursor d + 1)) as [t'|] eqn:Ht'; [|done].
  case_match; [|done]. intros [= <-]. simpl. split; [done|]. split; [done|].
  unfold tokenAt in Ht'.
  destruct (cursor d + 1 <? 0)%Z; [done|].
  apply lookup_lt_Some in Ht'. unfold ntokens. lia.
Qed.

Lemma NextArg_false (d d' : Dispenser) : NextArg d = (false, d') -> d' = d.
Proof.
  unfold NextArg. repeat case_match; try done; by intros [= <-].
Qed.

(** With more fuel than tokens after the cursor, the two loops end; they
    leave the token slice alone and never move the cursor back or past the
    last token. *)
Lemma lineArgs_blockLines_total (fuel : nat) :
  (forall d, (0 <= cursor d < ntokens d)%Z ->
     (ntokens d - 1 - cursor d < Z.of_nat fuel)%Z ->
     exists args d', lineArgs fuel d = Some (args, d')
       /\ tokens d' = tokens d /\ (cursor d <= cursor d' < ntokens d)%Z)
  /\
  (forall d, (-1 <= cursor d <= ntokens d - 1)%Z ->
     (ntokens d - 1 - cursor d < Z.of_nat fuel)%Z ->
     exists blk d', blockLines fuel d = Some (blk, d')
       /\ tokens d' = tokens d /\ (cursor d <= cursor d' <= ntokens d - 1)%Z).
Proof.
  induction fuel as [|f [IHl IHb]].
  { split; intros d Hc Hf; exfalso; lia. }
  split; intros d Hc Hf.
  - simpl. destruct (NextArg d) as [[] d1] eqn:Hn.
    + apply NextArg_true in Hn as (Ht1 & Hc1 & Hlt1); [|lia].
      assert (Hn1 : ntokens d1 = ntokens d) by (unfold ntokens; by rewrite Ht1).
      destruct (String.eqb (Val d1) "{").
      * destruct (IHb d1) as (blk & d2 & -> & Ht2 & Hc2); [lia|lia|].
        assert (Hn2 : ntokens d2 = ntokens d) by (unfold ntokens; by rewrite Ht2, Ht1).
        destruct (IHl d2) as (args & d3 & -> & Ht3 & Hc3); [lia|lia|].
        exists (Block blk :: args), d3. split; [done|]. split; [congruence|lia].
      * destruct (IHl d1) as (args & d3 & -> & Ht3 & Hc3); [lia|lia|].
        exists (Str (Val d1) :: args), d3. split; [done|]. split; [congruence|lia].
    + apply NextArg_false in Hn as ->. exists [], d. split; [done|]. split; [done|lia].
  - simpl. destruct (Next d) as [[] d1] eqn:Hn.
    + apply Next_true in Hn as (Ht1 & Hc1 & Hlt1).
      assert (Hn1 : ntokens d1 = ntokens d) by (unfold ntokens; by rewrite Ht1).
      destruct (String.eqb (Val d1) "}").
      * exists [], d1. split; [done|]. split; [done|lia].
      * destruct (IHl d1) as (args & d2 & -> & Ht2 & Hc2); [lia|lia|].
        assert (Hn2 : ntokens d2 = ntokens d) by (unfold ntokens; by rewrite Ht2, Ht1).
        destruct (IHb d2) as (blk & d3 & -> & Ht3 & Hc3); [lia|lia|].
        exists ((Str (Val d1) :: args) :: blk), d3.
        split; [done|]. split; [congruence|lia].
    + apply Next_false in Hn as ->. exists [], d. split; [done|]. split; [done|lia].
Qed.

(** The loop over a directive's lines ends as well. *)
Lemma dispLoop_total (fuel : nat) (d : Dispenser) :
  (-1 <= cursor d <= ntokens d - 1)%Z ->
  (ntokens d - 1 - cursor d < Z.of_nat fuel)%Z ->
  exists ls, dispLoop fuel false d [] false = Some (ls, false).
Proof.
  assert (G : forall body, (-1 <= cursor d <= ntokens d - 1)%Z ->
            (ntokens d - 1 - cursor d < Z.of_nat fuel)%Z ->
            exists ls, dispLoop fuel false d body false = Some (ls, false));
    [|apply G].
  revert d. induction fuel as [|f IH]; intros d body Hc Hf.
  { exfalso. lia. }
  simpl. destruct (Next d) as [[] d1] eqn:Hn.
  - apply Next_true in Hn as (Ht1 & Hc1 & Hlt1).
    assert (Hn1 : ntokens d1 = ntokens d) by (unfold ntokens; by rewrite Ht1).
    unfold constructLine.
    destruct (proj1 (lineArgs_blockLines_total f) d1)
      as (args & d2 & -> & Ht2 & Hc2); [lia|lia|].
    assert (Hn2 : ntokens d2 = ntokens d) by (unfold ntokens; by rewrite Ht2, Ht1).
    apply IH; lia.
  - eauto.
Qed.

Lemma linesOf_total (toks : list Token) : is_Some (linesOf toks).
Proof.
  unfold linesOf.
  destruct (dispLoop_total (S (length toks)) (NewDispenserTokens toks))
    as [ls Hls].
  - unfold ntokens. simpl. lia.
  - unfold ntokens. simpl. lia.
  - rewrite Hls. by eexists.
Qed.

(** The branch that rewrites the hosts lines makes the same lines as the
    other branch, passes each through [fixHosts], and sets [needUpdate]
    when one of them lacked the path. *)
Lemma dispLoop_hosts (fuel : nat) (hosts : bool) (d : Dispenser)
    (body : list (list item)) (needUpdate : bool) :
  dispLoop fuel hosts d body needUpdate =
  match dispLoop fuel false d [] false with
  | None => None
  | Some (ls, _) =>
      Some (body ++ (if hosts then map (fun it => (fixHosts it).1) ls else ls),
            needUpdate || (hosts && existsb lacksPath ls))
  end.
Proof.
  revert hosts d body needUpdate.
  induction fuel as [|f IH]; intros hosts d body nu; [done|].
  simpl. destruct (Next d) as [[] d1].
  - destruct (constructLine f d1) as [[it d2]|]; [|done].
    rewrite (IH false d2 [it] false).
    destruct hosts.
    + destruct (fixHosts it) as [it' upd] eqn:Hfix.
      rewrite IH.
      destruct (dispLoop f false d2 [] false) as [[ls b]|]; [|done].
      simpl. rewrite <- (fixHosts_flag it), Hfix. simpl.
      rewrite <- app_assoc. simpl. by rewrite orb_assoc.
    + rewrite IH.
      destruct (dispLoop f false d2 [] false) as [[ls b]|]; [|done].
      simpl. rewrite <- app_assoc. simpl. by rewrite !orb_false_r.
  - destruct hosts; simpl; by rewrite app_nil_r, orb_false_r.
Qed.

End Dispenser.

(** ** What BuildNewCoreFile computes *)

Section Encode.

Lemma linesOf_dispLoop (toks : list Token) :
  dispLoop (S (length toks)) false (NewDispenserTokens toks) [] false
  = Some (default [] (linesOf toks), false).
Proof.
  destruct (dispLoop_total (S (length toks)) (NewDispenserTokens toks))
    as [ls Hls].
  - unfold ntokens. simpl. lia.
  - unfold ntokens. simpl. lia.
  - unfold linesOf. by rewrite Hls.
Qed.

Lemma emitDirective_spec (sb : ServerBlock) (dir : string)
    (body : list (list item)) (needUpdate : bool) :
  emitDirective sb dir body needUpdate
  = Some (body ++ dirLines sb dir,
          needUpdate || (String.eqb dir "hosts" && needsHosts sb)).
Proof.
  unfold emitDirective, dirLines.
  destruct (String.eqb dir "hosts") eqn:Hd.
  - apply String.eqb_eq in Hd as ->. unfold needsHosts.
    destruct (tokensOf sb "hosts") as [|t toks] eqn:Ht.
    + by rewrite orb_true_r.
    + by rewrite dispLoop_hosts, linesOf_dispLoop.
  - rewrite dispLoop_hosts, linesOf_dispLoop. simpl. by rewrite orb_false_r.
Qed.

Lemma emitDirectives_spec (sb : ServerBlock) (dirs : list string)
    (body : list (list item)) (needUpdate : bool) :
  emitDirectives sb dirs body needUpdate
  = Some (body ++ concat (map (dirLines sb) dirs),
          needUpdate || (existsb (fun dir => String.eqb dir "hosts") dirs
                         && needsHosts sb)).
Proof.
  revert body needUpdate. induction dirs as [|dir dirs IH]; intros body nu; simpl.
  - by rewrite app_nil_r, orb_false_r.
  - rewrite emitDirective_spec, IH, <- app_assoc. f_equal. f_equal.
    destruct (String.eqb dir "hosts"), (needsHosts sb), nu; simpl;
      try done; by rewrite ?andb_false_r, ?andb_true_r, ?orb_true_r.
Qed.

Lemma ExistStringSlice_elem (val : string) (l : list string) :
  ExistStringSlice val l = true <-> val ∈ l.
Proof.
  induction l as [|v l IH]; simpl.
  - split; [done|]. by intros ?%elem_of_nil.
  - destruct (String.eqb val v) eqn:He.
    + apply String.eqb_eq in He as ->. split; [|done]. intros _. left.
    + apply String.eqb_neq in He. rewrite IH, elem_of_cons.
      split; [by right|]. by intros [?|?].
Qed.

Lemma existsb_eqb_elem (val : string) (l : list string) :
  val ∈ l -> existsb (fun dir => String.eqb dir val) l = true.
Proof.
  intros H. apply existsb_exists. exists val. split.
  - by apply list_elem_of_In.
  - apply String.eqb_refl.
Qed.

(** ["hosts"] is always among the names a block is emitted for. *)
Lemma hosts_in_directivesOf (sb : ServerBlock) : "hosts" ∈ directivesOf sb.
Proof.
  unfold directivesOf, sortStrings. rewrite merge_sort_Permutation.
  destruct (ExistStringSlice "hosts" _) eqn:He.
  - by apply ExistStringSlice_elem.
  - apply elem_of_app. right. apply list_elem_of_singleton. done.
Qed.

Lemma encodeBlocks_spec (sbs : list ServerBlock) (j : EncodedCaddyfile)
    (needUpdate : bool) :
  encodeBlocks sbs j needUpdate
  = Some (j ++ map encodeBlock sbs, needUpdate || existsb needsHosts sbs).
Proof.
  revert j needUpdate. induction sbs as [|sb sbs IH]; intros j nu; simpl.
  - by rewrite app_nil_r, orb_false_r.
  - rewrite emitDirectives_spec. rewrite IH, <- app_assoc. simpl.
    rewrite (existsb_eqb_elem "hosts") by apply hosts_in_directivesOf.
    simpl. unfold encodeBlock. by rewrite orb_assoc.
Qed.

(** [BuildNewCoreFile] fails only when the parser does. *)
Lemma BuildNewCoreFile_spec (corefile : string) :
  BuildNewCoreFile corefile =
  match Parse corefile with
  | None => None
  | Some sbs => Some (FromJSON (map encodeBlock sbs), existsb needsHosts sbs)
  end.
Proof.
  unfold BuildNewCoreFile, encodeCoreFile.
  destruct (Parse corefile) as [sbs|]; [|done].
  by rewrite encodeBlocks_spec.
Qed.

(** X1: on a corefile that parses, [BuildNewCoreFile] returns, and
    [needUpdate] is true exactly when some server block has no tokens
    under hosts, or has, among the lines [constructLine] makes of its
    hosts tokens, a line that starts with the string hosts and none of
    whose own elements is the path.  Nothing else sets it; in particular
    the order in which the directives are written out does not. *)
Theorem needUpdate_iff_hosts_missing (corefile : string)
    (sbs : list ServerBlock) :
  Parse corefile = Some sbs ->
  exists out changed,
    BuildNewCoreFile corefile = Some (out, changed)
    /\ (changed = true <->
        exists sb, sb ∈ sbs /\
          (tokensOf sb "hosts" = []
           \/ exists ls l,
                linesOf (tokensOf sb "hosts") = Some ls /\ l ∈ ls
                /\ head l = Some (Str "hosts") /\ Str "/etc/coredns-dir/hosts" ∉ l)).
Proof.
  intros H. rewrite BuildNewCoreFile_spec, H. do 2 eexists. split; [done|].
  rewrite existsb_exists. split.
  - intros (sb & Hin%list_elem_of_In & Hn). exists sb. split; [done|].
    unfold needsHosts in Hn.
    destruct (tokensOf sb "hosts") as [|t toks] eqn:Ht; [by left|]. right.
    destruct (linesOf_total (t :: toks)) as [ls Hls]. rewrite Hls in Hn.
    apply existsb_exists in Hn as (l & Hl%list_elem_of_In & Hlp%lacksPath_spec).
    by exists ls, l.
  - intros (sb & Hin & Hsb). exists sb. split; [by apply list_elem_of_In|].
    unfold needsHosts.
    destruct Hsb as [->|(ls & l & Hls & Hl & Hlp)]; [done|].
    destruct (tokensOf sb "hosts") as [|t toks]; [done|].
    rewrite Hls. apply existsb_exists. exists l.
    split; [by apply list_elem_of_In|]. by apply lacksPath_spec.
Qed.

End Encode.

(** ** Strings *)

Section Strings.

Lemma app_nil_l_s (s : string) : EmptyString +:+ s = s.
Proof. reflexivity. Qed.

Lemma app_cons_s (c : ascii) (s r : string) :
  String c s +:+ r = String c (s +:+ r).
Proof. reflexivity. Qed.

Lemma app_nil_r_s (s : string) : s +:+ EmptyString = s.
Proof. induction s as [|c s IH]; [done|]. by rewrite app_cons_s, IH. Qed.

Lemma app_assoc_s (a b c : string) : (a +:+ b) +:+ c = a +:+ (b +:+ c).
Proof. induction a as [|x a IH]; [done|]. by rewrite !app_cons_s, IH. Qed.

Lemma isEmpty_app (a b : string) :
  isEmpty a = false -> isEmpty (a +:+ b) = false.
Proof. by destruct a. Qed.

End Strings.

(** ** The lexer on a serialized document *)

Section Lexer.

Lemma plainChar_lex (c : ascii) :
  plainChar c = true ->
  isSpace c = false /\ Ascii.eqb c chHash = false /\ Ascii.eqb c chQuote = false.
Proof.
  destruct c as [[] [] [] [] [] [] [] []]; vm_compute; intros; try done.
Qed.

Lemma lex_plain_run (w rest : string) (ln tl : nat) (val : string) :
  allPlain w = true -> isEmpty val = false ->
  lex (w +:+ rest) ln tl val false false false
  = lex rest ln tl (val +:+ w) false false false.
Proof.
  revert val. induction w as [|c w IH]; intros val Hw Hv.
  - by rewrite app_nil_r_s.
  - simpl in Hw. apply andb_true_iff in Hw as [Hc Hw].
    apply plainChar_lex in Hc as (Hs & Hh & Hq).
    rewrite app_cons_s. simpl. rewrite Hs, Hh, Hv. simpl.
    rewrite IH by (by apply isEmpty_app || done).
    by rewrite app_assoc_s.
Qed.

Lemma lex_word (w rest : string) (ln : nat) :
  allPlain w = true -> isEmpty w = false ->
  lexI ln (w +:+ rest) = lex rest ln ln w false false false.
Proof.
  destruct w as [|c w]; [done|]. intros Hw _.
  simpl in Hw. apply andb_true_iff in Hw as [Hc Hw].
  apply plainChar_lex in Hc as (Hs & Hh & Hq).
  unfold lexI. rewrite app_cons_s. simpl. rewrite Hs, Hh, Hq. simpl.
  by rewrite lex_plain_run.
Qed.

Lemma isSep_cases (c : ascii) :
  isSep c = true -> c = chSpace \/ c = chNL.
Proof.
  unfold isSep. intros [H|H]%orb_true_iff; apply Ascii.eqb_eq in H; auto.
Qed.

(** A plain word followed by a separator is one token on the line where
    it starts. *)
Lemma lex_token (w : string) (c : ascii) (rest : string) (ln : nat) :
  allPlain w = true -> isEmpty w = false -> isSep c = true ->
  lexI ln (w +:+ String c rest) = mkToken ln w :: lexI (ln + bump c) rest.
Proof.
  intros Hw He Hc. rewrite lex_word by done.
  destruct w as [|c0 w]; [done|].
  apply isSep_cases in Hc as [-> | ->]; simpl; unfold lexI.
  - by rewrite Nat.add_0_r.
  - by rewrite Nat.add_1_r.
Qed.

(** At the end of the text the word is a token too. *)
Lemma lex_token_eof (w : string) (ln : nat) :
  allPlain w = true -> isEmpty w = false ->
  lexI ln w = [mkToken ln w].
Proof.
  intros Hw He. rewrite <- (app_nil_r_s w) at 1. rewrite lex_word by done.
  by destruct w.
Qed.

Lemma lexI_space (rest : string) (ln : nat) :
  lexI ln (String chSpace rest) = lexI ln rest.
Proof. reflexivity. Qed.

Lemma lexI_nl (rest : string) (ln : nat) :
  lexI ln (String chNL rest) = lexI (S ln) rest.
Proof. reflexivity. Qed.

Lemma lexI_tabs (n : nat) (rest : string) (ln : nat) :
  lexI ln (Repeat tab n +:+ rest) = lexI ln rest.
Proof.
  induction n as [|n IH]; [done|].
  simpl Repeat. rewrite app_assoc_s. unfold tab at 1, str1.
  rewrite app_cons_s, app_nil_l_s. exact IH.
Qed.

End Lexer.

(** ** Elements, lines and bodies *)

Section Items.

(** Induction on elements: a body's lines and their elements are
    smaller. *)
Lemma item_nested_ind (P : item -> Prop) :
  (forall s, P (Str s)) ->
  (forall b, Forall (Forall P) b -> P (Block b)) ->
  forall v, P v.
Proof.
  intros HS HB. fix IH 1. intros [s|b]; [apply HS|]. apply HB.
  induction b as [|l b IHb]; constructor; [|exact IHb].
  induction l as [|v l IHl]; constructor; [apply IH|exact IHl].
Qed.

Lemma itemHeight_Block (b : list (list item)) :
  itemHeight (Block b) = S (linesHeight b).
Proof. reflexivity. Qed.

Lemma itemToks_Block (ln : nat) (b : list (list item)) :
  itemToks ln (Block b)
  = mkToken ln "{" :: linesToks (S ln) b
    ++ [mkToken (ln + S (linesHeight b)) "}"].
Proof. reflexivity. Qed.

Lemma lineText_fix (depth : nat) (l : list item) :
  (fix ln (l : list item) : string :=
     match l with
     | [] => EmptyString
     | v :: r => itemText depth v +:+ sepAfter v r +:+ ln r
     end) l = lineText depth l.
Proof. induction l as [|v l IH]; [done|]. simpl. by rewrite IH. Qed.

Lemma linesText_fix (depth : nat) (b : list (list item)) :
  (fix blk (b : list (list item)) : string :=
     match b with
     | [] => EmptyString
     | arg :: b' =>
         Repeat tab depth +:+
         (fix ln (l : list item) : string :=
            match l with
            | [] => EmptyString
            | v :: r => itemText (S depth) v +:+ sepAfter v r +:+ ln r
            end) arg +:+ nl +:+ blk b'
     end) b = linesText depth b.
Proof.
  induction b as [|l b IHb]; [done|].
  rewrite IHb. simpl linesText. by rewrite lineText_fix.
Qed.

Lemma itemText_Block (depth : nat) (l : list item) (b : list (list item)) :
  itemText depth (Block (l :: b))
  = "{" +:+ nl +:+ linesText depth (l :: b) +:+ Repeat tab (depth - 1) +:+ "}".
Proof. rewrite <- linesText_fix. reflexivity. Qed.

Lemma wfItem_Block (b : list (list item)) :
  wfItem (Block b) = negb (bool_decide (b = [])) && forallb wfLine b.
Proof. reflexivity. Qed.

Lemma wfHead_plain (h : string) : wfHead h = true -> plainText h = true.
Proof. unfold wfHead. by intros [? _]%andb_true_iff. Qed.

Lemma wfArgs_items (r : list item) :
  wfArgs r = true ->
  Forall (fun v => wfItem v = true) r /\ bodyLast r = true.
Proof.
  induction r as [|v r IH]; [done|].
  cbn [wfArgs bodyLast]. rewrite !andb_true_iff. intros [[Hv Hl] Hr].
  destruct (IH Hr) as [Hall Hb]. split; [by constructor|done].
Qed.

Lemma wfLine_items (l : list item) :
  wfLine l = true ->
  l <> [] /\ Forall (fun v => wfItem v = true) l /\ bodyLast l = true.
Proof.
  destruct l as [|[h|b] r]; [done| |done]. cbn [wfLine].
  intros [Hh [Hall Hb]%wfArgs_items]%andb_true_iff. split; [done|].
  split; [constructor; [by apply wfHead_plain|done]|].
  cbn [bodyLast lastIfBody]. done.
Qed.

(** Before the end of its line an element is followed by a space. *)
Lemma sepAfter_last (v : item) (r : list item) :
  lastIfBody v r = true ->
  sepAfter v r = match r with [] => EmptyString | _ => " " end.
Proof. by destruct v as [s|[|l b]], r. Qed.

Lemma plainText_allPlain (s : string) :
  plainText s = true -> allPlain s = true /\ isEmpty s = false.
Proof.
  unfold plainText. rewrite !andb_true_iff, !negb_true_iff. tauto.
Qed.

Lemma textOfString_plain (s : string) :
  allPlain s = true -> textOfString s = s.
Proof.
  intros H. unfold textOfString.
  assert (ContainsAny s [chQuote; chSpace; chNL; chTab; chCR] = false) as ->; [|done].
  induction s as [|c s IH]; [done|].
  simpl in H. apply andb_true_iff in H as [Hc Hs].
  simpl ContainsAny. rewrite (IH Hs), orb_false_r.
  clear -Hc. destruct c as [[] [] [] [] [] [] [] []]; vm_compute in Hc |- *; done.
Qed.

End Items.

Lemma nl_app (x : string) : nl +:+ x = String chNL x.
Proof. reflexivity. Qed.

Section LexStructure.

Lemma lex_line_of_items (l : list item) :
  l <> [] -> bodyLast l = true -> Forall LexOK l ->
  forall depth ln c rest, isSep c = true ->
    lexI ln (lineText depth l +:+ String c rest)
    = lineToks ln l ++ lexI (ln + lineHeight l + bump c) rest.
Proof.
  intros Hne Hbl Hl. induction Hl as [|v l Hv Hl IH]; [done|].
  cbn [bodyLast] in Hbl. apply andb_true_iff in Hbl as [Hsep Hbl].
  intros depth ln c rest Hc. simpl lineText. simpl lineToks. simpl lineHeight.
  rewrite (sepAfter_last _ _ Hsep).
  destruct l as [|v' r].
  - simpl. rewrite app_nil_r_s, app_nil_r. rewrite Hv by done.
    by rewrite Nat.add_0_r.
  - rewrite !app_assoc_s. change (" " +:+ ?x) with (String chSpace x).
    rewrite Hv by done. rewrite IH by done.
    toks_arith.
Qed.

Lemma lex_lines_of_items (b : list (list item)) :
  Forall (fun l => l <> [] /\ bodyLast l = true /\ Forall LexOK l) b ->
  forall depth ln rest,
    lexI ln (linesText depth b +:+ rest)
    = linesToks ln b ++ lexI (ln + linesHeight b) rest.
Proof.
  induction 1 as [|l b (Hne & Hbl & Hl) _ IH]; intros depth ln rest.
  - simpl. by rewrite Nat.add_0_r.
  - simpl linesText. simpl linesToks. simpl linesHeight.
    rewrite !app_assoc_s, lexI_tabs.
    rewrite !nl_app.
    rewrite lex_line_of_items by done. rewrite IH.
    toks_arith.
Qed.

Lemma forallb_Forall {A : Type} (f : A -> bool) (l : list A) :
  forallb f l = true <-> Forall (fun x => f x = true) l.
Proof.
  induction l as [|x l IH]; simpl.
  - split; [constructor|done].
  - rewrite andb_true_iff, IH. split.
    + intros [??]. by constructor.
    + by inversion 1.
Qed.

Lemma lex_item (v : item) : wfItem v = true -> LexOK v.
Proof.
  induction v as [s|b IH] using item_nested_ind; intros Hwf.
  - intros depth ln c rest Hc. simpl in Hwf.
    apply plainText_allPlain in Hwf as [Hp He].
    simpl itemText. rewrite textOfString_plain by done.
    rewrite lex_token by done. simpl. by rewrite Nat.add_0_r.
  - rewrite wfItem_Block in Hwf.
    apply andb_true_iff in Hwf as [Hne Hb].
    destruct b as [|l b]; [done|]. clear Hne.
    assert (Hlines : Forall (fun l => l <> [] /\ bodyLast l = true
                                      /\ Forall LexOK l) (l :: b)).
    { apply forallb_Forall in Hb.
      apply Forall_forall. intros l0 Hin.
      rewrite Forall_forall in Hb, IH.
      specialize (Hb _ Hin). specialize (IH _ Hin).
      apply wfLine_items in Hb as (Hne & Hall & Hbl). do 2 (split; [done|]).
      apply Forall_forall. intros v Hv.
      rewrite Forall_forall in IH, Hall. by apply IH, Hall. }
    intros depth ln c rest Hc.
    rewrite itemText_Block, itemToks_Block, itemHeight_Block.
    rewrite !app_assoc_s.
    rewrite !nl_app.
    rewrite (lex_token "{") by done.
    rewrite lex_lines_of_items by done.
    rewrite lexI_tabs.
    rewrite (lex_token "}") by done.
    simpl. toks_arith.
Qed.

Lemma lex_wfLine (l : list item) :
  wfLine l = true ->
  forall depth ln c rest, isSep c = true ->
    lexI ln (lineText depth l +:+ String c rest)
    = lineToks ln l ++ lexI (ln + lineHeight l + bump c) rest.
Proof.
  intros (Hne & Hall & Hbl)%wfLine_items. apply lex_line_of_items; [done..|].
  eapply Forall_impl; [exact Hall|]. apply lex_item.
Qed.

Lemma lex_wfLines (b : list (list item)) :
  forallb wfLine b = true ->
  forall depth ln rest,
    lexI ln (linesText depth b +:+ rest)
    = linesToks ln b ++ lexI (ln + linesHeight b) rest.
Proof.
  intros Hb. apply lex_lines_of_items.
  apply forallb_Forall in Hb. eapply Forall_impl; [exact Hb|].
  intros l (Hne & Hall & Hbl)%wfLine_items. do 2 (split; [done|]).
  eapply Forall_impl; [exact Hall|]. apply lex_item.
Qed.

End LexStructure.

Section LexDocument.

Lemma allPlain_app (a b : string) :
  allPlain (a +:+ b) = allPlain a && allPlain b.
Proof.
  induction a as [|c a IH]; [done|].
  rewrite app_cons_s. simpl. by rewrite IH, andb_assoc.
Qed.

Lemma wfKey_plain (k : string) :
  wfKey k = true -> allPlain k = true /\ isEmpty k = false.
Proof.
  unfold wfKey. rewrite !andb_true_iff. intros [[H _] _].
  by apply plainText_allPlain.
Qed.

Lemma lex_keys (keys : list string) (ln : nat) (rest : string) :
  keys <> [] -> forallb wfKey keys = true ->
  lexI ln (keysText keys +:+ String chSpace rest)
  = keysToks ln keys ++ lexI ln rest.
Proof.
  intros Hne Hk. induction keys as [|k keys IH]; [done|].
  simpl in Hk. apply andb_true_iff in Hk as [Hk Hks].
  apply wfKey_plain in Hk as [Hp He].
  destruct keys as [|k' keys].
  - simpl. rewrite app_nil_r_s. rewrite lex_token by done.
    simpl. by rewrite Nat.add_0_r.
  - change (keysText (k :: k' :: keys))
      with (k +:+ ", " +:+ keysText (k' :: keys)).
    change (keysToks ln (k :: k' :: keys))
      with (mkToken ln (k +:+ ",") :: keysToks ln (k' :: keys)).
    rewrite !app_assoc_s.
    change (", " +:+ ?x) with ("," +:+ String chSpace x).
    rewrite <- (app_assoc_s k ","), lex_token.
    + simpl bump. rewrite Nat.add_0_r, IH by done. done.
    + by rewrite allPlain_app, Hp.
    + by apply isEmpty_app.
    + done.
Qed.

Lemma lex_block_prefix (sb : EncodedServerBlock) (ln : nat) (rest : string) :
  wfBlock sb = true ->
  lexI ln (keysText (EKeys sb) +:+ " {" +:+ nl +:+ linesText 1 (Body sb) +:+ rest)
  = keysToks ln (EKeys sb) ++ [mkToken ln "{"] ++ linesToks (S ln) (Body sb)
    ++ lexI (S ln + linesHeight (Body sb)) rest.
Proof.
  unfold wfBlock. rewrite !andb_true_iff, !negb_true_iff.
  intros [[[Hne Hk] _] Hb].
  apply bool_decide_eq_false in Hne.
  change (" {" +:+ ?x) with (String chSpace ("{" +:+ x)).
  rewrite lex_keys by done.
  rewrite !nl_app.
  rewrite (lex_token "{") by done.
  rewrite lex_wfLines.
  - toks_arith.
  - done.
Qed.

(** The lexer reads a serialized well-formed document back as the tokens
    of its layout. *)
Lemma lex_document (d : EncodedCaddyfile) (ln : nat) :
  wfDoc d = true -> lexI ln (FromJSON d) = docToks ln d.
Proof.
  revert ln. induction d as [|sb d IH]; intros ln Hd; [done|].
  simpl in Hd. apply andb_true_iff in Hd as [Hsb Hd].
  simpl FromJSON. unfold bodyText. simpl Repeat.
  rewrite !app_assoc_s, app_nil_l_s.
  rewrite lex_block_prefix by done.
  simpl docToks. unfold blockToks. rewrite <- !app_assoc. simpl.
  do 3 f_equal.
  destruct d as [|sb' d].
  - simpl. rewrite lex_token_eof by done. done.
  - rewrite !app_assoc_s.
    rewrite !nl_app.
    rewrite (lex_token "}") by done. rewrite lexI_nl.
    rewrite IH by done. toks_arith.
Qed.

Lemma allTokens_FromJSON (d : EncodedCaddyfile) :
  wfDoc d = true -> allTokens (FromJSON d) = docToks 1 d.
Proof. apply (lex_document d 1). Qed.

End LexDocument.

(** ** The parser on the tokens of a serialized document *)

Section ParserRun.

Lemma psteps_cons (st : pstate) (prev : option Token) (t : Token)
    (rest : list Token) :
  psteps st prev (t :: rest) =
  match pstep st prev t with
  | None => None
  | Some (st', fin) =>
      match psteps st' (Some t) rest with
      | None => None
      | Some (st'', prev', fin') => Some (st'', prev', fin ++ fin')
      end
  end.
Proof. reflexivity. Qed.

Lemma parseRun_app (st : pstate) (prev : option Token) (a b : list Token) :
  parseRun st prev (a ++ b) =
  match psteps st prev a with
  | None => None
  | Some (st', prev', done) =>
      match parseRun st' prev' b with
      | None => None
      | Some blocks => Some (done ++ blocks)
      end
  end.
Proof.
  revert st prev. induction a as [|t a IH]; intros st prev; simpl.
  - by destruct (parseRun st prev b).
  - destruct (pstep st prev t) as [[st' fin]|]; [|done].
    rewrite IH. destruct (psteps st' (Some t) a) as [[[st'' prev'] fin']|]; [|done].
    destruct (parseRun st'' prev' b) as [blocks|]; [|done].
    by rewrite app_assoc.
Qed.

Lemma psteps_app (st : pstate) (prev : option Token) (a b : list Token) :
  psteps st prev (a ++ b) =
  match psteps st prev a with
  | None => None
  | Some (st', prev', done) =>
      match psteps st' prev' b with
      | None => None
      | Some (st'', prev'', done') => Some (st'', prev'', done ++ done')
      end
  end.
Proof.
  revert st prev. induction a as [|t a IH]; intros st prev; simpl.
  - by destruct (psteps st prev b) as [[[??]?]|].
  - destruct (pstep st prev t) as [[st' fin]|]; [|done].
    rewrite IH. destruct (psteps st' (Some t) a) as [[[st'' prev'] fin']|]; [|done].
    destruct (psteps st'' prev' b) as [[[st3 prev3] fin3]|]; [|done].
    by rewrite app_assoc.
Qed.

End ParserRun.

Section ParserKeys.

Lemma hasEnvRef_cons (c : ascii) (s : string) :
  hasEnvRef (String c s) =
  if Ascii.eqb c "{" then
    match s with
    | String c' _ => Ascii.eqb c' "$" || Ascii.eqb c' "%" || hasEnvRef s
    | EmptyString => false
    end
  else hasEnvRef s.
Proof.
  destruct (Ascii.eqb c "{") eqn:Hc.
  - apply Ascii.eqb_eq in Hc as ->. by destruct s.
  - destruct c as [[] [] [] [] [] [] [] []]; try done.
Qed.

Lemma hasEnvRef_comma (k : string) : hasEnvRef (k +:+ ",") = hasEnvRef k.
Proof.
  induction k as [|c k IH]; [done|].
  rewrite app_cons_s, !hasEnvRef_cons. destruct (Ascii.eqb c "{"); [|done].
  destruct k as [|c' k]; [done|].
  rewrite app_cons_s in *. by rewrite IH.
Qed.

Lemma lastChar_comma (k : string) : lastChar (k +:+ ",") = Some ","%char.
Proof.
  induction k as [|c k IH]; [done|].
  rewrite app_cons_s. simpl. rewrite IH. by destruct (k +:+ ",") eqn:E; [destruct k|].
Qed.

Lemma dropLast_comma (k : string) : dropLast (k +:+ ",") = k.
Proof.
  induction k as [|c k IH]; [done|].
  rewrite app_cons_s. simpl. rewrite IH. by destruct (k +:+ ",") eqn:E; [destruct k|].
Qed.

Lemma eqb_comma_ne (k s : string) :
  lastChar s <> Some ","%char -> String.eqb (k +:+ ",") s = false.
Proof.
  intros H. apply String.eqb_neq. intros <-. by rewrite lastChar_comma in H.
Qed.

Lemma plainText_facts (s : string) :
  plainText s = true ->
  isEmpty s = false /\ allPlain s = true /\ String.eqb s "{" = false
  /\ String.eqb s "}" = false /\ hasEnvRef s = false.
Proof.
  unfold plainText. rewrite !andb_true_iff, !negb_true_iff. tauto.
Qed.

Lemma addrTop_comma (acc : list string) (e : bool) (prev : option Token)
    (ln : nat) (k : string) :
  plainText k = true ->
  addrTop acc e prev (mkToken ln (k +:+ ","))
  = Some (PAddr (acc ++ [k]) true, []).
Proof.
  intros (He & Hp & Hb1 & Hb2 & Henv)%plainText_facts.
  unfold addrTop. simpl Text.
  rewrite hasEnvRef_comma, Henv.
  rewrite (eqb_comma_ne k "import") by done. simpl.
  rewrite (eqb_comma_ne k "{") by done.
  rewrite (isEmpty_app k ",") by done.
  rewrite bool_decide_eq_true_2 by apply lastChar_comma.
  by rewrite dropLast_comma.
Qed.

Lemma addrTop_last (acc : list string) (e : bool) (prev : option Token)
    (ln : nat) (k : string) :
  wfKey k = true ->
  addrTop acc e prev (mkToken ln k) = Some (PAddr (acc ++ [k]) false, []).
Proof.
  unfold wfKey. rewrite !andb_true_iff, !negb_true_iff.
  intros [[(He & Hp & Hb1 & Hb2 & Henv)%plainText_facts Hc] Hi].
  unfold addrTop. simpl Text. by rewrite Henv, Hi, Hb1, He, Hc.
Qed.

Lemma allPlain_countNL (s : string) : allPlain s = true -> countNL s = O.
Proof.
  induction s as [|c s IH]; [done|]. simpl.
  intros [Hc Hs]%andb_true_iff. rewrite (IH Hs).
  destruct c as [[] [] [] [] [] [] [] []]; vm_compute in Hc |- *; done.
Qed.

(** The keys of a block take the parser from the start of a block, or
    from a key with a comma, to the last key. *)
Lemma keys_run (ln : nat) (keys : list string) :
  keys <> [] -> forallb wfKey keys = true ->
  forall (acc : list string) (st : pstate) (prev : option Token),
    (st = PStart /\ acc = []) \/ st = PAddr acc true ->
    exists p,
      psteps st prev (keysToks ln keys)
      = Some (PAddr (acc ++ keys) false, Some p, []) /\ endLine p = ln.
Proof.
  intros Hne Hk. induction keys as [|k keys IH]; [done|].
  intros acc st prev Hst.
  simpl in Hk. apply andb_true_iff in Hk as [Hk Hks].
  assert (Hstep : forall t, pstep st prev t = addrTop acc (match st with PStart => false | _ => true end) prev t).
  { intros t. destruct Hst as [[-> ->]| ->]; done. }
  destruct keys as [|k' keys].
  - simpl. rewrite Hstep, addrTop_last by done.
    eexists. split; [done|]. unfold endLine. simpl.
    unfold wfKey in Hk. rewrite !andb_true_iff in Hk.
    destruct Hk as [[Hk _] _]. apply plainText_facts in Hk as (_ & Hp & _).
    rewrite allPlain_countNL by done. lia.
  - change (keysToks ln (k :: k' :: keys))
      with (mkToken ln (k +:+ ",") :: keysToks ln (k' :: keys)).
    rewrite psteps_cons, Hstep, addrTop_comma.
    + destruct (IH ltac:(done) Hks (acc ++ [k]) (PAddr (acc ++ [k]) true)
                  (Some (mkToken ln (k +:+ ","))) ltac:(by right))
        as (p & -> & Hp).
      exists p. by rewrite <- app_assoc.
    + unfold wfKey in Hk. rewrite !andb_true_iff in Hk. tauto.
Qed.

Lemma open_brace_step (keys : list string) (p : Token) (ln : nat) :
  endLine p = ln -> isSnippet keys = false ->
  pstep (PAddr keys false) (Some p) (mkToken ln "{")
  = Some (PDirs keys ∅ true, []).
Proof.
  intros Hp Hs. simpl. unfold endLine in Hp.
  assert ((Line p + countNL (Text p) <? ln)%nat = false) as ->
    by (apply Nat.ltb_ge; lia).
  unfold addrTop. simpl. by rewrite Hs.
Qed.

End ParserKeys.

Section ParserLines.

Lemma addToks_app (m : gmap string (list Token)) (dir : string)
    (a b : list Token) :
  addToks m dir (a ++ b) = addToks (addToks m dir a) dir b.
Proof. apply fold_left_app. Qed.

Lemma addToks_insert (m : gmap string (list Token)) (dir : string)
    (old toks : list Token) :
  addToks (<[dir := old]> m) dir toks = <[dir := old ++ toks]> m.
Proof.
  revert old. induction toks as [|t toks IH]; intros old.
  - simpl. by rewrite app_nil_r.
  - change (addToks (<[dir:=old]> m) dir (t :: toks))
      with (addToks (addTok (<[dir:=old]> m) dir t) dir toks).
    unfold addTok. rewrite lookup_insert_eq. simpl.
    rewrite insert_insert_eq, IH. by rewrite <- app_assoc.
Qed.

Lemma addToks_line (m : gmap string (list Token)) (dir : string)
    (t : Token) (toks : list Token) :
  addToks (addTok m dir t) dir toks
  = <[dir := default [] (m !! dir) ++ t :: toks]> m.
Proof.
  unfold addTok. rewrite addToks_insert. by rewrite <- app_assoc.
Qed.

Lemma dir_line_of_items (l : list item) :
  Forall DirOK l ->
  forall keys m o dir n prev ln,
    endLine prev = ln ->
    exists p,
      psteps (PDir keys m o dir n) (Some prev) (lineToks ln l)
      = Some (PDir keys (addToks m dir (lineToks ln l)) o dir n, Some p, [])
      /\ endLine p = ln + lineHeight l.
Proof.
  induction 1 as [|v l Hv _ IH]; intros keys m o dir n prev ln Hprev.
  - exists prev. split; [done|]. simpl. lia.
  - simpl lineToks. rewrite psteps_app.
    destruct (Hv keys m o dir n prev ln Hprev) as (p & -> & Hp).
    destruct (IH keys (addToks m dir (itemToks ln v)) o dir n p
                (ln + itemHeight v) ltac:(done)) as (p' & -> & Hp').
    exists p'. split.
    + by rewrite addToks_app.
    + rewrite Hp'. simpl. lia.
Qed.

Lemma wfHead_facts (h : string) :
  wfHead h = true ->
  isEmpty h = false /\ allPlain h = true /\ String.eqb h "{" = false
  /\ String.eqb h "}" = false /\ hasEnvRef h = false
  /\ String.eqb h "import" = false.
Proof.
  unfold wfHead. rewrite andb_true_iff, negb_true_iff.
  intros [(? & ? & ? & ? & ?)%plainText_facts ?]. done.
Qed.

(** The head of a line inside a nested body: it starts a line, and is
    appended because it is not [import]. *)
Lemma dir_nested_head (h : string) keys m o dir n prev ln :
  wfHead h = true ->
  pstep (PDir keys m o dir (S n)) prev (mkToken ln h)
  = Some (PDir keys (addTok m dir (mkToken ln h)) o dir (S n), []).
Proof.
  intros (He & Hp & Hb1 & Hb2 & Henv & Himp)%wfHead_facts.
  simpl. by rewrite Hb1, Hb2, Himp, Henv, andb_false_r.
Qed.

Lemma dir_nested_lines (b : list (list item)) :
  Forall (fun l => exists h r,
            l = Str h :: r /\ wfHead h = true /\ Forall DirOK r) b ->
  forall keys m o dir n prev ln,
    exists p,
      psteps (PDir keys m o dir (S n)) (Some prev) (linesToks ln b)
      = Some (PDir keys (addToks m dir (linesToks ln b)) o dir (S n), Some p, []).
Proof.
  induction 1 as [|l b (h & r & -> & Hh & Hr) _ IH]; intros keys m o dir n prev ln.
  - by exists prev.
  - simpl linesToks. rewrite Nat.add_0_r.
    rewrite psteps_cons, dir_nested_head by done.
    rewrite psteps_app.
    destruct (dir_line_of_items r Hr keys (addTok m dir (mkToken ln h)) o dir
                (S n) (mkToken ln h) ln) as (p & -> & _).
    { apply wfHead_facts in Hh as (_ & Hp & _).
      unfold endLine. simpl. rewrite allPlain_countNL by done. lia. }
    destruct (IH keys (addToks (addTok m dir (mkToken ln h)) dir (lineToks ln r))
                o dir n p (ln + lineHeight r + 1)) as (p' & ->).
    exists p'. simpl. do 2 f_equal. f_equal.
    change (mkToken ln h :: lineToks ln r ++ ?x)
      with ([mkToken ln h] ++ (lineToks ln r ++ x)).
    by rewrite !addToks_app.
Qed.

Lemma dir_item (v : item) : wfItem v = true -> DirOK v.
Proof.
  induction v as [s|b IH] using item_nested_ind; intros Hwf.
  - intros keys m o dir n prev ln Hprev. simpl in Hwf.
    apply plainText_facts in Hwf as (He & Hp & Hb1 & Hb2 & Henv).
    assert (Hnl : (Line prev + countNL (Text prev) <? ln)%nat = false).
    { unfold endLine in Hprev. rewrite Hprev. apply Nat.ltb_irrefl. }
    eexists. split.
    + simpl. rewrite Hb1, Hb2, Henv, Hnl. by rewrite andb_false_r.
    + unfold endLine. simpl. rewrite allPlain_countNL by done. lia.
  - rewrite wfItem_Block in Hwf.
    apply andb_true_iff in Hwf as [_ Hb].
    assert (Hlines : Forall (fun l => exists h r,
                       l = Str h :: r /\ wfHead h = true /\ Forall DirOK r) b).
    { apply forallb_Forall in Hb.
      apply Forall_forall. intros l Hin.
      rewrite Forall_forall in Hb, IH.
      specialize (Hb _ Hin). specialize (IH _ Hin).
      destruct l as [|[h|b'] r]; [done| |done]. cbn [wfLine] in Hb.
      apply andb_true_iff in Hb as [Hh [Hall _]%wfArgs_items].
      exists h, r. do 2 (split; [done|]).
      apply Forall_cons in IH as [_ IH].
      apply Forall_forall. intros v Hv.
      rewrite Forall_forall in IH, Hall. by apply IH, Hall. }
    intros keys m o dir n prev ln Hprev.
    rewrite itemToks_Block, itemHeight_Block.
    rewrite psteps_cons.
    assert (pstep (PDir keys m o dir n) (Some prev) (mkToken ln "{")
            = Some (PDir keys (addTok m dir (mkToken ln "{")) o dir (S n), []))
      as -> by reflexivity.
    rewrite psteps_app.
    destruct (dir_nested_lines b Hlines keys (addTok m dir (mkToken ln "{"))
                o dir n (mkToken ln "{") (S ln)) as (p & ->).
    eexists. split.
    + simpl. rewrite andb_false_r. simpl.
      do 2 f_equal. f_equal.
      change (addTok m dir (mkToken ln "{"))
        with (addToks m dir [mkToken ln "{"]).
      rewrite <- !addToks_app.
      rewrite (app_assoc [_]), (addToks_app _ _ _ [_]). done.
    + unfold endLine. simpl. lia.
Qed.

Lemma top_line (keys : list string) (m : gmap string (list Token))
    (st : pstate) (prev : option Token) (ln : nat) (l : list item) :
  lineStart keys m st prev ln -> wfLine l = true ->
  exists p,
    psteps st prev (lineToks ln l)
    = Some (PDir keys (<[headOf l := default [] (m !! headOf l) ++ lineToks ln l]> m)
              true (headOf l) O, Some p, [])
    /\ endLine p = ln + lineHeight l.
Proof.
  intros Hst Hwf.
  destruct l as [|[h|b] r]; [done| |done]. cbn [wfLine] in Hwf.
  apply andb_true_iff in Hwf as [Hh [Hr _]%wfArgs_items].
  pose proof Hh as (He & Hp & Hb1 & Hb2 & Henv & Himp)%wfHead_facts.
  simpl headOf. simpl lineToks. rewrite Nat.add_0_r. rewrite psteps_cons.
  assert (pstep st prev (mkToken ln h)
          = Some (PDir keys (addTok m h (mkToken ln h)) true h O, [])) as ->.
  { destruct Hst as [-> | (dir & p & -> & -> & Hlt)]; simpl.
    - unfold dirsStep. simpl. by rewrite Hb2, Himp, Henv.
    - rewrite Hb1. unfold endLine in Hlt.
      assert ((Line p + countNL (Text p) <? ln)%nat = true) as ->
        by (apply Nat.ltb_lt; lia).
      simpl. unfold dirsStep. simpl. by rewrite Hb2, Himp, Henv. }
  assert (Hitems : Forall DirOK r).
  { eapply Forall_impl; [exact Hr|]. apply dir_item. }
  destruct (dir_line_of_items r Hitems keys (addTok m h (mkToken ln h)) true h O
              (mkToken ln h) ln) as (p & -> & Hend).
  { unfold endLine. simpl. rewrite allPlain_countNL by done. lia. }
  exists p. split.
  - simpl. by rewrite addToks_line.
  - rewrite Hend. simpl. done.
Qed.

Lemma top_lines (keys : list string) (b : list (list item)) :
  forallb wfLine b = true ->
  forall m st prev ln,
    lineStart keys m st prev ln ->
    exists st' prev',
      psteps st prev (linesToks ln b) = Some (st', prev', [])
      /\ lineStart keys (groupToks ln b m) st' prev' (ln + linesHeight b).
Proof.
  induction b as [|l b IH]; intros Hb m st prev ln Hst.
  - exists st, prev. split; [done|]. simpl. rewrite Nat.add_0_r. done.
  - simpl in Hb. apply andb_true_iff in Hb as [Hl Hb].
    simpl linesToks. rewrite psteps_app.
    destruct (top_line keys m st prev ln l Hst Hl) as (p & -> & Hp).
    destruct (IH Hb (<[headOf l := default [] (m !! headOf l) ++ lineToks ln l]> m)
                (PDir keys (<[headOf l := default [] (m !! headOf l) ++ lineToks ln l]> m)
                   true (headOf l) O) (Some p) (ln + lineHeight l + 1))
      as (st' & prev' & -> & Hst').
    { right. exists (headOf l), p. split; [done|]. split; [done|]. lia. }
    exists st', prev'. split; [done|].
    simpl. replace (ln + (lineHeight l + 1 + linesHeight b))
      with (ln + lineHeight l + 1 + linesHeight b) by lia. done.
Qed.

Lemma close_brace_step (keys : list string) (m : gmap string (list Token))
    (st : pstate) (prev : option Token) (ln : nat) :
  lineStart keys m st prev ln ->
  pstep st prev (mkToken ln "}") = Some (PStart, finishBlock keys m).
Proof.
  intros [-> | (dir & p & -> & -> & Hlt)]; [done|].
  simpl. unfold endLine in Hlt.
  assert ((Line p + countNL (Text p) <? ln)%nat = true) as ->
    by (apply Nat.ltb_lt; lia).
  done.
Qed.

(** The parser reads the tokens of a well-formed block as that block. *)
Lemma block_run (sb : EncodedServerBlock) (prev : option Token) (ln : nat) :
  wfBlock sb = true ->
  exists p,
    psteps PStart prev (blockToks ln sb) = Some (PStart, Some p, [blockOf ln sb]).
Proof.
  intros Hwf. pose proof Hwf as Hwf'. unfold wfBlock in Hwf.
  rewrite !andb_true_iff, !negb_true_iff in Hwf.
  destruct Hwf as [[[Hne Hk] Hsn] Hb]. apply bool_decide_eq_false in Hne.
  unfold blockToks. rewrite psteps_app.
  destruct (keys_run ln (EKeys sb) Hne Hk [] PStart prev ltac:(by left))
    as (p & -> & Hp).
  change ([] ++ EKeys sb) with (EKeys sb).
  change ([mkToken ln "{"] ++ ?r) with (mkToken ln "{" :: r).
  rewrite psteps_cons, open_brace_step by done.
  rewrite psteps_app.
  destruct (top_lines (EKeys sb) (Body sb) Hb ∅ (PDirs (EKeys sb) ∅ true)
              (Some (mkToken ln "{")) (S ln) ltac:(by left))
    as (st' & prev' & -> & Hst').
  rewrite psteps_cons, (close_brace_step _ _ _ _ _ Hst').
  eexists. simpl. unfold finishBlock, blockOf.
  destruct (EKeys sb); [done|]. done.
Qed.

Lemma document_run (d : EncodedCaddyfile) (prev : option Token) (ln : nat) :
  wfDoc d = true ->
  parseRun PStart prev (docToks ln d) = Some (blocksOf ln d).
Proof.
  revert prev ln. induction d as [|sb d IH]; intros prev ln Hd; [done|].
  simpl in Hd. apply andb_true_iff in Hd as [Hsb Hd].
  simpl docToks. rewrite parseRun_app.
  destruct (block_run sb prev ln Hsb) as (p & ->).
  by rewrite IH.
Qed.

(** A serialized well-formed document parses, into the blocks of its
    layout. *)
Lemma Parse_FromJSON (d : EncodedCaddyfile) :
  wfDoc d = true -> Parse (FromJSON d) = Some (blocksOf 1 d).
Proof.
  intros Hd. unfold Parse. rewrite allTokens_FromJSON by done.
  by apply document_run.
Qed.

End ParserLines.

(** ** constructLine on the tokens of a serialized line *)

Section Construct.

Lemma tokenAt_last (pre suf : list Token) (t : Token) :
  tokenAt (dispAt (pre ++ [t]) suf) (cursor (dispAt (pre ++ [t]) suf)) = Some t.
Proof.
  unfold tokenAt, dispAt. simpl. rewrite length_app. simpl.
  case_match eqn:H; [apply Z.ltb_lt in H; lia|].
  replace (Z.to_nat (Z.of_nat (length pre + 1) - 1)) with (length pre) by lia.
  rewrite <- app_assoc. simpl. by rewrite list_lookup_middle.
Qed.

Lemma Val_dispAt (pre suf : list Token) (t : Token) :
  Val (dispAt (pre ++ [t]) suf) = Text t.
Proof. unfold Val. by rewrite tokenAt_last. Qed.

Lemma dispAt_shift (pre suf : list Token) (t : Token) :
  mkDisp (tokens (dispAt pre (t :: suf))) (cursor (dispAt pre (t :: suf)) + 1)
  = dispAt (pre ++ [t]) suf.
Proof.
  unfold dispAt. simpl. rewrite length_app. simpl.
  rewrite <- app_assoc. simpl. f_equal. lia.
Qed.

Lemma Next_dispAt_cons (pre suf : list Token) (t : Token) :
  Next (dispAt pre (t :: suf)) = (true, dispAt (pre ++ [t]) suf).
Proof.
  unfold Next. rewrite dispAt_shift.
  case_match eqn:H; [done|].
  apply Z.ltb_ge in H. unfold ntokens, dispAt in H. simpl in H.
  rewrite length_app in H. simpl in H. lia.
Qed.

Lemma Next_dispAt_nil (pre : list Token) :
  Next (dispAt pre []) = (false, dispAt pre []).
Proof.
  unfold Next. case_match eqn:H; [|done].
  apply Z.ltb_lt in H. unfold ntokens, dispAt in H. simpl in H.
  rewrite length_app in H. simpl in H. lia.
Qed.

Lemma NextArg_dispAt_cons (pre suf : list Token) (t t' : Token) :
  NextArg (dispAt (pre ++ [t]) (t' :: suf))
  = if (endLine t =? Line t')%nat
    then (true, dispAt (pre ++ [t] ++ [t']) suf)
    else (false, dispAt (pre ++ [t]) (t' :: suf)).
Proof.
  unfold NextArg. rewrite dispAt_shift. unfold numLineBreaks.
  rewrite tokenAt_last.
  assert (tokenAt (dispAt (pre ++ [t]) (t' :: suf))
            (cursor (dispAt (pre ++ [t]) (t' :: suf)) + 1) = Some t') as ->.
  { unfold tokenAt, dispAt. simpl. rewrite length_app. simpl.
    case_match eqn:H; [apply Z.ltb_lt in H; lia|].
    apply list_lookup_middle. rewrite length_app. simpl. lia. }
  assert ((cursor (dispAt (pre ++ [t]) (t' :: suf)) <? 0)%Z = false) as ->.
  { apply Z.ltb_ge. unfold dispAt. simpl. rewrite length_app. simpl. lia. }
  assert ((ntokens (dispAt (pre ++ [t]) (t' :: suf))
           <=? cursor (dispAt (pre ++ [t]) (t' :: suf)))%Z = false) as ->.
  { apply Z.leb_gt. unfold ntokens, dispAt. simpl. rewrite !length_app. simpl. lia. }
  unfold endLine. rewrite <- app_assoc. done.
Qed.

Lemma NextArg_dispAt_nil (pre : list Token) (t : Token) :
  NextArg (dispAt (pre ++ [t]) []) = (false, dispAt (pre ++ [t]) []).
Proof.
  unfold NextArg. rewrite tokenAt_last.
  assert ((cursor (dispAt (pre ++ [t]) []) <? 0)%Z = false) as ->.
  { apply Z.ltb_ge. unfold dispAt. simpl. rewrite length_app. simpl. lia. }
  case_match; [done|].
  assert (tokenAt (dispAt (pre ++ [t]) []) (cursor (dispAt (pre ++ [t]) []) + 1)
          = None) as ->; [|done].
  unfold tokenAt, dispAt. simpl. rewrite length_app. simpl.
  case_match; [done|]. apply lookup_ge_None_2.
  rewrite app_nil_r, length_app. simpl. lia.
Qed.

End Construct.

Section ConstructLines.

Lemma dispAt_eq (pre pre' suf suf' : list Token) :
  pre = pre' -> suf = suf' -> dispAt pre suf = dispAt pre' suf'.
Proof. by intros -> ->. Qed.

Lemma lineArgs_items (items : list item) :
  Forall ConsOK items ->
  forall fuel pre t suf ln args d',
    endLine t = ln -> stops (ln + lineHeight items) suf ->
    lineArgs fuel (dispAt (pre ++ [t]) (lineToks ln items ++ suf)) = Some (args, d') ->
    args = items /\ d' = dispAt (pre ++ [t] ++ lineToks ln items) suf.
Proof.
  induction 1 as [|v r Hv _ IH]; intros fuel pre t suf ln args d' Ht Hstop Hrun.
  - destruct fuel as [|f]; [done|]. simpl in Hrun.
    simpl in Hstop. rewrite Nat.add_0_r in Hstop.
    destruct suf as [|t' suf].
    + rewrite NextArg_dispAt_nil in Hrun. injection Hrun as <- <-.
      split; done.
    + rewrite NextArg_dispAt_cons in Hrun.
      assert ((endLine t =? Line t')%nat = false) as Hne
        by (apply Nat.eqb_neq; simpl in Hstop; congruence).
      rewrite Hne in Hrun. injection Hrun as <- <-.
      split; done.
  - destruct fuel as [|f]; [done|].
    destruct v as [s|b].
    + simpl in Hv. apply plainText_facts in Hv as (He & Hp & Hb1 & Hb2 & Henv).
      simpl lineToks in Hrun. simpl in Hrun.
      rewrite NextArg_dispAt_cons in Hrun.
      assert ((endLine t =? ln)%nat = true) as Heq by (apply Nat.eqb_eq; done).
      simpl Line in Hrun. rewrite Heq in Hrun.
      rewrite (app_assoc pre [t]), Val_dispAt in Hrun. simpl Text in Hrun.
      rewrite Hb1 in Hrun.
      destruct (lineArgs f _) as [[args0 d3]|] eqn:Hl; [|done].
      injection Hrun as <- <-.
      apply IH in Hl as [-> ->].
      * split; [done|]. apply dispAt_eq; [|done].
        simpl. rewrite <- !app_assoc. done.
      * unfold endLine. simpl. rewrite allPlain_countNL by done. lia.
      * simpl in Hstop. simpl. by rewrite Nat.add_0_r in *.
    + change (lineToks ln (Block b :: r))
        with (itemToks ln (Block b) ++ lineToks (ln + itemHeight (Block b)) r)
        in Hrun.
      rewrite itemToks_Block, itemHeight_Block in Hrun.
      rewrite <- !app_assoc in Hrun. simpl app in Hrun.
      simpl lineArgs in Hrun. rewrite NextArg_dispAt_cons in Hrun.
      assert ((endLine t =? ln)%nat = true) as Heq by (apply Nat.eqb_eq; done).
      simpl Line in Hrun. rewrite Heq in Hrun.
      rewrite (app_assoc pre [t]), Val_dispAt in Hrun. simpl Text in Hrun.
      simpl String.eqb in Hrun. cbv iota in Hrun.
      rewrite <- !app_assoc in Hrun. simpl app in Hrun.
      destruct (blockLines f _) as [[blk d2]|] eqn:Hb; [|done].
      replace (pre ++ [t; mkToken ln "{"])
        with ((pre ++ [t]) ++ [mkToken ln "{"]) in Hb
        by (by rewrite <- app_assoc).
      apply Hv in Hb as [-> ->].
      destruct (lineArgs f _) as [[args0 d3]|] eqn:Hl; [|done].
      injection Hrun as <- <-.
      rewrite !app_assoc in Hl.
      apply IH in Hl as [-> ->].
      * split; [done|]. apply dispAt_eq; [|done].
        change (lineToks ln (Block b :: r))
          with (itemToks ln (Block b) ++ lineToks (ln + itemHeight (Block b)) r).
        rewrite itemToks_Block, itemHeight_Block. rewrite <- !app_assoc. simpl.
        rewrite <- !app_assoc. done.
      * unfold endLine. simpl. lia.
      * change (lineHeight (Block b :: r))
          with (S (linesHeight b) + lineHeight r) in Hstop.
        replace (ln + S (linesHeight b) + lineHeight r)
          with (ln + (S (linesHeight b) + lineHeight r)) by lia. done.
Qed.

End ConstructLines.

Section ConstructBlocks.

Lemma stops_lines (ln k : nat) (b : list (list item)) (suf : list Token) (j : nat) :
  Forall LineOK b -> j < ln ->
  stops j (linesToks ln b ++ mkToken (ln + k) "}" :: suf).
Proof.
  intros Hb Hj. destruct Hb as [|l b (h & r & -> & _ & _) _]; simpl; lia.
Qed.

Lemma blockLines_lines (b : list (list item)) :
  Forall LineOK b ->
  forall fuel pre t0 suf ln blk d',
    blockLines fuel
      (dispAt (pre ++ [t0])
         (linesToks ln b ++ mkToken (ln + linesHeight b) "}" :: suf))
    = Some (blk, d') ->
    blk = b /\
    d' = dispAt (pre ++ [t0] ++ linesToks ln b
                 ++ [mkToken (ln + linesHeight b) "}"]) suf.
Proof.
  induction 1 as [|l b (h & r & -> & Hh & Hr) Hb IH];
    intros fuel pre t0 suf ln blk d' Hrun.
  - destruct fuel as [|f]; [done|]. simpl in Hrun.
    rewrite Next_dispAt_cons, Val_dispAt in Hrun. simpl in Hrun.
    injection Hrun as <- <-. split; [done|].
    apply dispAt_eq; [|done]. by rewrite <- app_assoc.
  - destruct fuel as [|f]; [done|].
    apply plainText_facts in Hh as (He & Hp & Hb1 & Hb2 & Henv).
    change (linesToks ln ((Str h :: r) :: b))
      with ((mkToken ln h :: lineToks (ln + 0) r)
            ++ linesToks (ln + lineHeight (Str h :: r) + 1) b) in Hrun.
    change (lineHeight (Str h :: r)) with (lineHeight r) in Hrun.
    change (linesHeight ((Str h :: r) :: b))
      with (lineHeight r + 1 + linesHeight b) in Hrun.
    rewrite Nat.add_0_r in Hrun.
    rewrite <- app_assoc in Hrun. simpl app in Hrun at 2.
    simpl blockLines in Hrun.
    rewrite Next_dispAt_cons, Val_dispAt in Hrun. simpl Text in Hrun.
    rewrite Hb2 in Hrun.
    replace (ln + (lineHeight r + 1 + linesHeight b))
      with ((ln + lineHeight r + 1) + linesHeight b) in Hrun by lia.
    destruct (lineArgs f _) as [[args d2]|] eqn:Hl; [|done].
    apply (lineArgs_items r Hr) in Hl as [-> ->].
    + destruct (blockLines f _) as [[blk0 d3]|] eqn:Hbl; [|done].
      injection Hrun as <- <-.
      rewrite app_assoc in Hbl.
      destruct r as [|v r'].
      * simpl in Hbl. rewrite app_nil_r in Hbl.
        apply IH in Hbl as [-> ->]. split; [done|].
        apply dispAt_eq; [|done]. simpl. toks_arith.
      * assert (exists pre' tl, ((pre ++ [t0]) ++ [mkToken ln h])
                  ++ lineToks ln (v :: r') = pre' ++ [tl]) as (pre' & tl & Heq).
        { destruct (lineToks ln (v :: r')) as [|x xs] eqn:E using rev_ind.
          - eexists _, _. by rewrite app_nil_r.
          - eexists _, _. by rewrite app_assoc. }
        rewrite Heq in Hbl. apply IH in Hbl as [-> ->]. split; [done|].
        apply dispAt_eq; [|done].
        rewrite (app_assoc pre' [tl]), <- Heq.
        change (linesToks ln ((Str h :: v :: r') :: b))
          with ((mkToken ln h :: lineToks (ln + 0) (v :: r'))
                ++ linesToks (ln + lineHeight (v :: r') + 1) b).
        change (linesHeight ((Str h :: v :: r') :: b))
          with (lineHeight (v :: r') + 1 + linesHeight b).
        rewrite Nat.add_0_r. toks_arith.
    + unfold endLine. simpl. rewrite allPlain_countNL by done. lia.
    + apply stops_lines; [done|lia].
Qed.

Lemma tokItem_Block (b : list (list item)) :
  tokItem (Block b) = negb (bool_decide (b = [])) && forallb tokLine b.
Proof. reflexivity. Qed.

Lemma tokItem_ConsOK (v : item) : tokItem v = true -> ConsOK v.
Proof.
  induction v as [s|b IH] using item_nested_ind; intros Hwf; [done|].
  rewrite tokItem_Block in Hwf. apply andb_true_iff in Hwf as [_ Hb].
  assert (Hlines : Forall LineOK b).
  { apply forallb_Forall in Hb.
    apply Forall_forall. intros l Hin.
    rewrite Forall_forall in Hb, IH.
    specialize (Hb _ Hin). specialize (IH _ Hin).
    destruct l as [|[h|b0] r]; [done| |done]. simpl in Hb.
    apply andb_true_iff in Hb as [Hh Hr].
    exists h, r. split; [done|]. split; [done|].
    apply forallb_Forall in Hr.
    apply Forall_forall. intros v Hv.
    rewrite Forall_forall in IH, Hr.
    apply IH; [by right|by apply Hr]. }
  intros fuel pre suf ln blk d' Hrun.
  replace (ln + S (linesHeight b)) with (S ln + linesHeight b) in * by lia.
  by apply (blockLines_lines b Hlines) in Hrun.
Qed.

Lemma tokLine_LineOK (l : list item) : tokLine l = true -> LineOK l.
Proof.
  intros Hl.
  destruct l as [|[h|b0] r]; [done| |done]. simpl in Hl.
  apply andb_true_iff in Hl as [Hh Hr].
  exists h, r. split; [done|]. split; [done|].
  apply forallb_Forall in Hr. eapply Forall_impl; [exact Hr|].
  apply tokItem_ConsOK.
Qed.

(** Well-formed elements and lines are among them. *)
Lemma wfItem_tokItem (v : item) : wfItem v = true -> tokItem v = true.
Proof.
  induction v as [s|b IH] using item_nested_ind; intros Hwf; [done|].
  rewrite wfItem_Block in Hwf. rewrite tokItem_Block.
  apply andb_true_iff in Hwf as [Hne Hb]. rewrite Hne. cbn [andb].
  apply forallb_Forall. apply forallb_Forall in Hb.
  apply Forall_forall. intros l Hin.
  rewrite Forall_forall in Hb, IH.
  specialize (Hb _ Hin). specialize (IH _ Hin).
  destruct l as [|[h|b0] r]; [done| |done]. cbn [wfLine] in Hb.
  apply andb_true_iff in Hb as [Hh%wfHead_plain [Hr _]%wfArgs_items].
  cbn [tokLine]. rewrite Hh. cbn [andb].
  apply forallb_Forall, Forall_forall. intros v Hv.
  rewrite Forall_forall in IH, Hr.
  apply IH; [by right|by apply Hr].
Qed.

Lemma wfLine_tokLine (l : list item) : wfLine l = true -> tokLine l = true.
Proof.
  destruct l as [|[h|b0] r]; [done| |done]. cbn [wfLine tokLine].
  intros [Hh%wfHead_plain [Hr _]%wfArgs_items]%andb_true_iff.
  rewrite Hh. cbn [andb]. apply forallb_Forall.
  eapply Forall_impl; [exact Hr|]. apply wfItem_tokItem.
Qed.

Lemma wfLine_LineOK (l : list item) : wfLine l = true -> LineOK l.
Proof. intros Hl. by apply tokLine_LineOK, wfLine_tokLine. Qed.

End ConstructBlocks.

Section ConstructDirective.

Lemma dirToks_first (b : list (list item)) (dir : string) (ln j : nat) :
  Forall LineOK b -> j < ln -> stops j (dirToks ln b dir).
Proof.
  intros Hb. revert ln. induction Hb as [|l b (h & r & -> & _ & _) _ IH];
    intros ln Hj; [done|].
  simpl. destruct (decide (h = dir)).
  - simpl. lia.
  - simpl. apply IH. lia.
Qed.

Lemma groupToks_lookup (b : list (list item)) (dir : string) (ln : nat)
    (m : gmap string (list Token)) :
  default [] (groupToks ln b m !! dir) = default [] (m !! dir) ++ dirToks ln b dir.
Proof.
  revert ln m. induction b as [|l b IH]; intros ln m; simpl.
  - by rewrite app_nil_r.
  - rewrite IH. destruct (decide (headOf l = dir)) as [<-|Hne].
    + rewrite lookup_insert_eq. simpl. by rewrite app_assoc.
    + rewrite lookup_insert_ne by done. done.
Qed.

Lemma tokensOf_blockOf (sb : EncodedServerBlock) (ln : nat) (dir : string) :
  tokensOf (blockOf ln sb) dir = dirToks (S ln) (Body sb) dir.
Proof.
  unfold tokensOf, blockOf. simpl. rewrite groupToks_lookup.
  by rewrite lookup_empty.
Qed.

Lemma linesFor_cons (dir : string) (l : list item) (b : list (list item)) :
  linesFor dir (l :: b)
  = if decide (headOf l = dir) then l :: linesFor dir b else linesFor dir b.
Proof. unfold linesFor. by rewrite filter_cons. Qed.

(** The loop over the tokens filed under [dir] makes the lines of the
    body whose head is [dir], in their order. *)
Lemma dispLoop_dirToks (b : list (list item)) (dir : string) :
  Forall LineOK b ->
  forall fuel pre ln body ls x,
    dispLoop fuel false (dispAt pre (dirToks ln b dir)) body false = Some (ls, x) ->
    ls = body ++ linesFor dir b.
Proof.
  induction 1 as [|l b Hl Hb IH]; intros fuel pre ln body ls x Hrun.
  - destruct fuel as [|f]; [done|]. simpl in Hrun.
    rewrite Next_dispAt_nil in Hrun. injection Hrun as <- <-.
    by rewrite app_nil_r.
  - rewrite linesFor_cons. simpl dirToks in Hrun.
    destruct (decide (headOf l = dir)) as [Hd|Hd].
    + destruct Hl as (h & r & -> & Hh & Hr).
      destruct fuel as [|f]; [done|].
      change (lineToks ln (Str h :: r))
        with (mkToken ln h :: lineToks (ln + 0) r) in Hrun.
      rewrite Nat.add_0_r in Hrun.
      rewrite <- app_comm_cons in Hrun. simpl dispLoop in Hrun.
      rewrite Next_dispAt_cons in Hrun. unfold constructLine in Hrun.
      rewrite Val_dispAt in Hrun. simpl Text in Hrun.
      destruct (lineArgs f _) as [[args d2]|] eqn:Hargs; [|done].
      apply (lineArgs_items r Hr) in Hargs as [-> ->].
      * destruct r as [|v r'].
        -- simpl in Hrun.
           apply IH in Hrun. rewrite Hrun, <- app_assoc. done.
        -- assert (exists pre' tl, (pre ++ [mkToken ln h])
                     ++ lineToks ln (v :: r') = pre' ++ [tl]) as (pre' & tl & Heq).
           { destruct (lineToks ln (v :: r')) as [|y ys] eqn:E using rev_ind.
             - eexists _, _. by rewrite app_nil_r.
             - eexists _, _. by rewrite app_assoc. }
           rewrite app_assoc, Heq in Hrun.
           apply IH in Hrun. rewrite Hrun, <- app_assoc. done.
      * apply plainText_facts in Hh as (_ & Hp & _).
        unfold endLine. simpl. rewrite allPlain_countNL by done. lia.
      * apply dirToks_first; [done|]. simpl. lia.
    + simpl in Hrun. by apply IH in Hrun.
Qed.

Lemma linesOf_dirToks (b : list (list item)) (dir : string) (ln : nat) :
  Forall LineOK b ->
  default [] (linesOf (dirToks ln b dir)) = linesFor dir b.
Proof.
  intros Hb. pose proof (linesOf_dispLoop (dirToks ln b dir)) as H.
  change (NewDispenserTokens (dirToks ln b dir))
    with (dispAt [] (dirToks ln b dir)) in H.
  by apply (dispLoop_dirToks b dir Hb) in H.
Qed.

End ConstructDirective.

(** ** Sorting directive names *)

Section Sorting.

Lemma sortStrings_perm (l1 l2 : list string) :
  l1 ≡ₚ l2 -> sortStrings l1 = sortStrings l2.
Proof.
  intros H. unfold sortStrings.
  apply (StronglySorted_unique String.le).
  - apply StronglySorted_merge_sort; apply _.
  - apply StronglySorted_merge_sort; apply _.
  - by rewrite !merge_sort_Permutation.
Qed.

Lemma sortStrings_sorted (l : list string) :
  StronglySorted String.le l -> sortStrings l = l.
Proof.
  intros H. unfold sortStrings.
  apply (StronglySorted_unique String.le); [|done|].
  - apply StronglySorted_merge_sort; apply _.
  - apply merge_sort_Permutation.
Qed.

Lemma empty_le (s : string) : String.le EmptyString s.
Proof. by destruct s. Qed.

Lemma sortStrings_empties (n : nat) (l : list string) :
  sortStrings (replicate n EmptyString ++ l)
  = replicate n EmptyString ++ sortStrings l.
Proof.
  unfold sortStrings.
  apply (StronglySorted_unique String.le).
  - apply StronglySorted_merge_sort; apply _.
  - induction n as [|n IH]; simpl.
    + apply StronglySorted_merge_sort; apply _.
    + constructor; [done|]. apply Forall_forall. intros ? _. apply empty_le.
  - by rewrite !merge_sort_Permutation.
Qed.

End Sorting.

(** ** The blocks of a layout, encoded *)

Section Regroup.

Lemma groupToks_is_Some (b : list (list item)) (k : string) (ln : nat)
    (m : gmap string (list Token)) :
  is_Some (groupToks ln b m !! k) <-> is_Some (m !! k) \/ k ∈ map headOf b.
Proof.
  revert ln m. induction b as [|l b IH]; intros ln m; simpl.
  - rewrite elem_of_nil. tauto.
  - rewrite IH, elem_of_cons.
    destruct (decide (headOf l = k)) as [<-|Hne].
    + rewrite lookup_insert_eq. split; [|intros _; left; by eexists]. auto.
    + rewrite lookup_insert_ne by done. split; [tauto|].
      intros [?|[?|?]]; [tauto|congruence|tauto].
Qed.

Lemma groupToks_is_Some_empty (b : list (list item)) (k : string) (ln : nat) :
  is_Some (groupToks ln b ∅ !! k) <-> k ∈ map headOf b.
Proof.
  rewrite groupToks_is_Some, lookup_empty. split; [|auto].
  intros [[? ?]|?]; done.
Qed.

Lemma keys_blockOf (sb : EncodedServerBlock) (ln : nat) :
  (map_to_list (Tokens (blockOf ln sb))).*1 ≡ₚ remove_dups (map headOf (Body sb)).
Proof.
  apply NoDup_Permutation.
  - apply NoDup_fst_map_to_list.
  - apply NoDup_remove_dups.
  - intros k. rewrite elem_of_remove_dups.
    rewrite <- (groupToks_is_Some_empty (Body sb) k (S ln)).
    unfold blockOf. simpl. rewrite list_elem_of_fmap. split.
    + intros ([k' v] & -> & Hin). apply elem_of_map_to_list in Hin.
      by eexists.
    + intros [v Hv]. exists (k, v). split; [done|].
      by apply elem_of_map_to_list.
Qed.

End Regroup.

Section EncodeLayout.

Lemma dirToks_nil_iff (b : list (list item)) (dir : string) (ln : nat) :
  Forall LineOK b -> dirToks ln b dir = [] <-> linesFor dir b = [].
Proof.
  intros Hb. revert ln. induction Hb as [|l b (h & r & -> & _ & _) _ IH]; intros ln.
  - done.
  - rewrite linesFor_cons. simpl. destruct (decide (h = dir)); [done|].
    simpl. apply IH.
Qed.

Lemma dirLines_blockOf (sb : EncodedServerBlock) (ln : nat) (dir : string) :
  Forall LineOK (Body sb) ->
  dirLines (blockOf ln sb) dir = normalizeLines (Body sb) dir.
Proof.
  intros Hb. unfold dirLines, normalizeLines.
  rewrite tokensOf_blockOf, linesOf_dirToks by done.
  destruct (String.eqb dir "hosts"); [|done].
  pose proof (dirToks_nil_iff (Body sb) dir (S ln) Hb) as Hiff.
  destruct Hiff as [H1 H2].
  destruct (dirToks (S ln) (Body sb) dir) as [|t toks];
    destruct (linesFor dir (Body sb)) as [|l ls]; try done;
    try (by specialize (H1 eq_refl)); try (by specialize (H2 eq_refl)).
Qed.

Lemma needsHosts_blockOf (sb : EncodedServerBlock) (ln : nat) :
  Forall LineOK (Body sb) ->
  needsHosts (blockOf ln sb) = bodyNeedsHosts (Body sb).
Proof.
  intros Hb. unfold needsHosts, bodyNeedsHosts.
  rewrite tokensOf_blockOf.
  pose proof (dirToks_nil_iff (Body sb) "hosts" (S ln) Hb) as Hiff.
  pose proof (linesOf_dirToks (Body sb) "hosts" (S ln) Hb) as Hl.
  destruct Hiff as [H1 H2].
  destruct (dirToks (S ln) (Body sb) "hosts") as [|t toks];
    destruct (linesFor "hosts" (Body sb)) as [|l ls]; try done;
    try (by specialize (H1 eq_refl)); try (by specialize (H2 eq_refl)).
  by rewrite Hl.
Qed.

Lemma directivesOf_blockOf (sb : EncodedServerBlock) (ln : nat) :
  directivesOf (blockOf ln sb)
  = replicate (size (Tokens (blockOf ln sb))) EmptyString ++ namesOf (Body sb).
Proof.
  unfold directivesOf, namesOf.
  set (n := size (Tokens (blockOf ln sb))).
  set (keys := (map_to_list (Tokens (blockOf ln sb))).*1).
  set (names := remove_dups (map headOf (Body sb))).
  assert (Hperm : keys ≡ₚ names) by apply keys_blockOf.
  assert (Hin : "hosts" ∈ replicate n EmptyString ++ keys <-> "hosts" ∈ names).
  { rewrite elem_of_app, Hperm. split; [|auto].
    intros [H|H]; [|done]. by apply elem_of_replicate in H as [? _]. }
  destruct (ExistStringSlice "hosts" (replicate n EmptyString ++ keys)) eqn:He.
  - apply ExistStringSlice_elem in He. apply Hin in He.
    rewrite bool_decide_eq_true_2 by done.
    rewrite sortStrings_empties. f_equal. by apply sortStrings_perm.
  - assert ("hosts" ∉ names) as Hnot.
    { intros H. apply Hin, ExistStringSlice_elem in H. congruence. }
    rewrite bool_decide_eq_false_2 by done.
    rewrite <- app_assoc, sortStrings_empties. f_equal.
    apply sortStrings_perm. by rewrite Hperm.
Qed.

Lemma LineOK_head (l : list item) : LineOK l -> headOf l <> EmptyString.
Proof.
  intros (h & r & -> & Hh & _). simpl.
  apply plainText_facts in Hh as (He & _). by destruct h.
Qed.

Lemma linesFor_absent (dir : string) (b : list (list item)) :
  dir ∉ map headOf b -> linesFor dir b = [].
Proof.
  induction b as [|l b IH]; [done|]. intros Hnot.
  rewrite linesFor_cons. simpl in Hnot. rewrite not_elem_of_cons in Hnot.
  destruct Hnot as [Hne Hnot].
  destruct (decide (headOf l = dir)) as [Heq|_]; [by destruct Hne|].
  by apply IH.
Qed.

Lemma normalizeLines_empty (b : list (list item)) :
  Forall LineOK b -> normalizeLines b EmptyString = [].
Proof.
  intros Hb. unfold normalizeLines. simpl.
  apply linesFor_absent. intros Hin.
  apply list_elem_of_fmap in Hin as (l & Heq & Hl).
  rewrite Forall_forall in Hb. by apply (LineOK_head l (Hb _ Hl)).
Qed.

Lemma encodeBlock_blockOf (sb : EncodedServerBlock) (ln : nat) :
  Forall LineOK (Body sb) ->
  encodeBlock (blockOf ln sb) = normalizeBlock sb.
Proof.
  intros Hb. unfold encodeBlock, normalizeBlock, normalizeBody.
  f_equal. rewrite directivesOf_blockOf, map_app, concat_app.
  rewrite (map_ext (dirLines (blockOf ln sb)) (normalizeLines (Body sb)))
    by (intros; by apply dirLines_blockOf).
  rewrite (map_ext (dirLines (blockOf ln sb)) (normalizeLines (Body sb)))
    by (intros; by apply dirLines_blockOf).
  assert (concat (map (normalizeLines (Body sb))
            (replicate (size (Tokens (blockOf ln sb))) EmptyString)) = []) as ->; [|done].
  induction (size (Tokens (blockOf ln sb))) as [|n IH]; [done|].
  simpl. by rewrite normalizeLines_empty, IH.
Qed.

Lemma wfBlock_lines (sb : EncodedServerBlock) :
  wfBlock sb = true -> Forall LineOK (Body sb).
Proof.
  unfold wfBlock. rewrite !andb_true_iff. intros [_ Hb].
  apply forallb_Forall in Hb. eapply Forall_impl; [exact Hb|].
  apply wfLine_LineOK.
Qed.

Lemma encode_blocksOf (d : EncodedCaddyfile) (ln : nat) :
  wfDoc d = true ->
  map encodeBlock (blocksOf ln d) = map normalizeBlock d
  /\ existsb needsHosts (blocksOf ln d)
     = existsb (fun sb => bodyNeedsHosts (Body sb)) d.
Proof.
  revert ln. induction d as [|sb d IH]; intros ln Hd; [done|].
  simpl in Hd. apply andb_true_iff in Hd as [Hsb Hd].
  apply wfBlock_lines in Hsb.
  destruct (IH (ln + linesHeight (Body sb) + 3) Hd) as [IH1 IH2].
  simpl. by rewrite encodeBlock_blockOf, needsHosts_blockOf, IH1, IH2.
Qed.

(** On the text of a well-formed document [BuildNewCoreFile] is the
    normalizer on documents: it returns the text of the normalized
    document, and [needUpdate] is what the normalizer reports. *)
Lemma BuildNewCoreFile_FromJSON (d : EncodedCaddyfile) :
  wfDoc d = true ->
  BuildNewCoreFile (FromJSON d)
  = Some (FromJSON (normalize d).1, (normalize d).2).
Proof.
  intros Hd. rewrite BuildNewCoreFile_spec, Parse_FromJSON by done.
  destruct (encode_blocksOf d 1 Hd) as [-> ->]. done.
Qed.

End EncodeLayout.

(** ** Bodies whose lines are in the order of their heads *)

Section Gather.

Lemma split_min (a : string) (body : list (list item)) :
  StronglySorted String.le (map headOf body) ->
  Forall (fun l => String.le a (headOf l)) body ->
  body = linesFor a body ++ others a body.
Proof.
  induction body as [|l body IH]; [done|]. simpl.
  intros [Hall Hss]%StronglySorted_cons [Hl Hb]%Forall_cons.
  rewrite linesFor_cons, filter_cons.
  destruct (decide (headOf l = a)) as [Heq|Hne].
  - rewrite decide_False by naive_solver. simpl. f_equal. by apply IH.
  - rewrite decide_True by done.
    assert (linesFor a body = []) as ->.
    { apply linesFor_absent. intros Hin.
      rewrite Forall_forall in Hall. specialize (Hall _ Hin).
      apply Hne. by apply (anti_symm String.le). }
    simpl. f_equal.
    assert (others a body = body) as ->; [|done].
    clear IH Hss Hb. induction body as [|l' body IH]; [done|].
    simpl in Hall. apply Forall_cons in Hall as [Hl' Hall].
    rewrite filter_cons, decide_True.
    + f_equal. by apply IH.
    + intros Heq. apply Hne. apply (anti_symm String.le); [|done].
      by rewrite <- Heq.
Qed.

Lemma linesFor_others (a dir : string) (body : list (list item)) :
  dir <> a -> linesFor dir (others a body) = linesFor dir body.
Proof.
  intros Hne. induction body as [|l body IH]; [done|].
  rewrite linesFor_cons, filter_cons.
  destruct (decide (headOf l = dir)) as [Heq|Hd].
  - rewrite decide_True by congruence. rewrite linesFor_cons, decide_True by done.
    by rewrite IH.
  - destruct (decide (headOf l <> a)); [|done].
    by rewrite linesFor_cons, decide_False.
Qed.

Lemma StronglySorted_others (a : string) (body : list (list item)) :
  StronglySorted String.le (map headOf body) ->
  StronglySorted String.le (map headOf (others a body)).
Proof.
  induction body as [|l body IH]; [done|]. simpl.
  intros [Hall Hss]%StronglySorted_cons. rewrite filter_cons.
  destruct (decide (headOf l <> a)); [|by apply IH].
  simpl. apply StronglySorted_cons. split; [|by apply IH].
  apply Forall_forall. intros x Hx. rewrite Forall_forall in Hall. apply Hall.
  apply list_elem_of_fmap in Hx as (l' & -> & Hl').
  apply list_elem_of_fmap. exists l'. split; [done|].
  by apply list_elem_of_filter in Hl' as [_ ?].
Qed.

(** Taking the lines name by name, the names in order, gives back a body
    that is in the order of its heads. *)
Lemma gather_sorted (names : list string) (body : list (list item)) :
  StronglySorted String.le names -> NoDup names ->
  Forall (fun l => headOf l ∈ names) body ->
  StronglySorted String.le (map headOf body) ->
  concat (map (fun dir => linesFor dir body) names) = body.
Proof.
  revert body. induction names as [|a names IH]; intros body Hss Hnd Hin Hb.
  - destruct body as [|l body]; [done|].
    apply Forall_cons in Hin as [Hl _]. by apply elem_of_nil in Hl.
  - apply StronglySorted_cons in Hss as [Hmin Hss].
    apply NoDup_cons in Hnd as [Hna Hnd].
    assert (Hle : Forall (fun l => String.le a (headOf l)) body).
    { apply Forall_forall. intros l Hl.
      rewrite Forall_forall in Hin. specialize (Hin _ Hl).
      apply elem_of_cons in Hin as [->|Hin]; [done|].
      rewrite Forall_forall in Hmin. by apply Hmin. }
    simpl.
    transitivity (linesFor a body ++ others a body);
      [|symmetry; by apply split_min].
    f_equal.
    transitivity (concat (map (fun dir => linesFor dir (others a body)) names));
      [|apply IH; try done].
    + f_equal. apply map_ext_in. intros dir Hdir.
      rewrite linesFor_others; [done|].
      intros ->. by apply Hna, list_elem_of_In.
    + apply Forall_forall. intros l Hl.
      apply list_elem_of_filter in Hl as [Hne Hl].
      rewrite Forall_forall in Hin. specialize (Hin _ Hl).
      apply elem_of_cons in Hin as [?|?]; done.
    + by apply StronglySorted_others.
Qed.

Lemma remove_dups_sorted (l : list string) :
  StronglySorted String.le l -> StronglySorted String.le (remove_dups l).
Proof.
  induction l as [|x l IH]; [done|].
  intros [Hall Hss]%StronglySorted_cons. simpl.
  destruct (decide_rel _ x l); [by apply IH|].
  apply StronglySorted_cons. split; [|by apply IH].
  apply Forall_forall. intros y Hy. rewrite Forall_forall in Hall.
  apply Hall. by apply elem_of_remove_dups.
Qed.

Lemma sortBody_sorted (body : list (list item)) :
  Sorted String.le (map headOf body) -> sortBody body = body.
Proof.
  intros Hs%(Sorted_StronglySorted String.le). unfold sortBody.
  rewrite sortStrings_sorted by (by apply remove_dups_sorted).
  apply gather_sorted.
  - by apply remove_dups_sorted.
  - apply NoDup_remove_dups.
  - apply Forall_forall. intros l Hl. apply elem_of_remove_dups.
    apply list_elem_of_fmap. by exists l.
  - done.
Qed.

End Gather.

(** ** The normalizer on documents *)

Section Normalize.

Lemma fixHosts_noop (l : list item) :
  (fixHosts l).2 = false -> (fixHosts l).1 = l.
Proof.
  unfold fixHosts. destruct l as [|[h|b] r]; try done.
  destruct (String.eqb h "hosts"); [|done].
  destruct (ExistInterfaceSlice hostsPath (Str h :: r)); [done|].
  by destruct (length (Str h :: r) =? 1)%nat.
Qed.

Lemma fixHosts_head (l : list item) : headOf (fixHosts l).1 = headOf l.
Proof.
  unfold fixHosts. destruct l as [|[h|b] r]; try done.
  destruct (String.eqb h "hosts"); [|done].
  destruct (ExistInterfaceSlice hostsPath (Str h :: r)); [done|].
  destruct r as [|v r]; done.
Qed.

Lemma ExistInterfaceSlice_app (val : string) (a b : list item) :
  ExistInterfaceSlice val (a ++ b)
  = ExistInterfaceSlice val a || ExistInterfaceSlice val b.
Proof.
  induction a as [|[s|bl] a IH]; simpl; [done| |done].
  by destruct (String.eqb val s).
Qed.

(** A line that went through the rewriting is not rewritten again. *)
Lemma fixHosts_fixed (l : list item) : lacksPath (fixHosts l).1 = false.
Proof.
  rewrite <- fixHosts_flag.
  destruct (fixHosts l) as [l' upd] eqn:Hfix. simpl.
  destruct upd.
  2:{ pose proof (fixHosts_noop l) as Hn. rewrite Hfix in Hn. simpl in Hn.
      by rewrite (Hn eq_refl), Hfix. }
  unfold fixHosts in Hfix. destruct l as [|[h|b] r]; try done.
  destruct (String.eqb h "hosts") eqn:Hh; [|done].
  destruct (ExistInterfaceSlice hostsPath (Str h :: r)); [done|].
  destruct r as [|v r]; simpl in Hfix; injection Hfix as <-.
  - unfold fixHosts. rewrite Hh.
    cbn [ExistInterfaceSlice]. rewrite String.eqb_refl.
    by destruct (String.eqb hostsPath h).
  - unfold fixHosts. rewrite Hh.
    cbn [ExistInterfaceSlice list_insert insert]. rewrite String.eqb_refl.
    by destruct (String.eqb hostsPath h).
Qed.

Lemma hostsPath_plain : plainText hostsPath = true.
Proof. reflexivity. Qed.

Lemma fixHosts_wf (l : list item) :
  wfLine l = true -> wfLine (fixHosts l).1 = true.
Proof.
  intros Hwf.
  unfold fixHosts. destruct l as [|[h|b] r]; try done.
  destruct (String.eqb h "hosts"); [|done].
  destruct (ExistInterfaceSlice hostsPath (Str h :: r)); [done|].
  cbn [wfLine] in Hwf. apply andb_true_iff in Hwf as [Hh Hr].
  destruct r as [|v r]; cbn [length Nat.eqb fst app list_insert insert wfLine].
  - by rewrite Hh.
  - cbn [wfArgs] in Hr. apply andb_true_iff in Hr as [_ Hr].
    cbn [wfArgs]. by rewrite Hh, Hr.
Qed.

Lemma linesFor_heads (dir : string) (body : list (list item)) :
  Forall (fun l => headOf l = dir) (linesFor dir body).
Proof.
  apply Forall_forall. intros l Hl. by apply list_elem_of_filter in Hl as [? _].
Qed.

Lemma linesFor_sub (dir : string) (body : list (list item)) (P : list item -> Prop) :
  Forall P body -> Forall P (linesFor dir body).
Proof.
  intros H. apply Forall_forall. intros l Hl.
  apply list_elem_of_filter in Hl as [_ Hl].
  rewrite Forall_forall in H. by apply H.
Qed.

Lemma normalizeLines_heads (body : list (list item)) (dir : string) :
  Forall (fun l => headOf l = dir) (normalizeLines body dir).
Proof.
  unfold normalizeLines. destruct (String.eqb dir "hosts") eqn:Hd.
  - apply String.eqb_eq in Hd as ->.
    pose proof (linesFor_heads "hosts" body) as H.
    destruct (linesFor "hosts" body) as [|l ls].
    + by repeat constructor.
    + apply Forall_fmap. eapply Forall_impl; [exact H|].
      intros l' Hl'. simpl. by rewrite fixHosts_head.
  - apply linesFor_heads.
Qed.

Lemma normalizeLines_wf (body : list (list item)) (dir : string) :
  Forall (fun l => wfLine l = true) body ->
  Forall (fun l => wfLine l = true) (normalizeLines body dir).
Proof.
  intros Hb. unfold normalizeLines.
  pose proof (linesFor_sub dir body _ Hb) as H.
  destruct (String.eqb dir "hosts"); [|done].
  destruct (linesFor dir body) as [|l ls].
  - by repeat constructor.
  - apply Forall_fmap. eapply Forall_impl; [exact H|].
    intros l' Hl'. simpl. by apply fixHosts_wf.
Qed.

Lemma namesOf_sorted (body : list (list item)) :
  StronglySorted String.le (namesOf body).
Proof. unfold namesOf, sortStrings. apply StronglySorted_merge_sort; apply _. Qed.

Lemma namesOf_NoDup (body : list (list item)) : NoDup (namesOf body).
Proof.
  unfold namesOf, sortStrings. rewrite merge_sort_Permutation.
  case_bool_decide as Hin.
  - apply NoDup_remove_dups.
  - apply NoDup_app. split; [apply NoDup_remove_dups|]. split.
    + intros x Hx ->%list_elem_of_singleton. done.
    + apply NoDup_singleton.
Qed.

Lemma namesOf_hosts (body : list (list item)) : "hosts" ∈ namesOf body.
Proof.
  unfold namesOf, sortStrings. rewrite merge_sort_Permutation.
  case_bool_decide as Hin; [done|].
  apply elem_of_app. right. by apply list_elem_of_singleton.
Qed.

Lemma elem_of_concat {A : Type} (x : A) (ls : list (list A)) :
  x ∈ concat ls <-> exists l, x ∈ l /\ l ∈ ls.
Proof.
  induction ls as [|l ls IH]; simpl.
  - split; [by intros ?%elem_of_nil|]. by intros (l & _ & ?%elem_of_nil).
  - rewrite elem_of_app, IH. split.
    + intros [H|(l' & H1 & H2)]; [exists l|exists l']; split; try done.
      * left.
      * by right.
    + intros (l' & H1 & [->|H2]%elem_of_cons); [by left|right; eauto].
Qed.

Lemma same_head_sorted (a : string) (ls : list (list item)) :
  Forall (fun l => headOf l = a) ls ->
  StronglySorted String.le (map headOf ls).
Proof.
  induction 1 as [|l ls Hl Hls IH]; [constructor|].
  simpl. apply StronglySorted_cons. split; [|done].
  apply Forall_fmap. eapply Forall_impl; [exact Hls|].
  intros l' Hl'. simpl. by rewrite Hl, Hl'.
Qed.

(** The lines taken name by name, whatever is taken under each name as
    long as it has that name as head. *)
Lemma heads_of_gathered (F : string -> list (list item)) (names : list string) :
  StronglySorted String.le names ->
  (forall dir, Forall (fun l => headOf l = dir) (F dir)) ->
  StronglySorted String.le (map headOf (concat (map F names))).
Proof.
  intros Hss HF. induction Hss as [|a names Hss IH Hmin]; [constructor|].
  simpl. rewrite map_app. apply StronglySorted_app_2.
  - intros x1 x2 Hx1 Hx2.
    apply list_elem_of_fmap in Hx1 as (l1 & -> & Hl1).
    apply list_elem_of_fmap in Hx2 as (l2 & -> & Hl2).
    specialize (HF a) as Ha. rewrite Forall_forall in Ha. rewrite (Ha _ Hl1).
    apply elem_of_concat in Hl2 as (ls & Hl2 & Hls).
    apply list_elem_of_fmap in Hls as (dir & -> & Hdir).
    specialize (HF dir) as Hd. rewrite Forall_forall in Hd. rewrite (Hd _ Hl2).
    rewrite Forall_forall in Hmin. by apply Hmin.
  - apply same_head_sorted with a. apply HF.
  - done.
Qed.

End Normalize.

Section NormalForm.

Lemma linesFor_same (a x : string) (ls : list (list item)) :
  Forall (fun l => headOf l = a) ls ->
  linesFor x ls = if decide (x = a) then ls else [].
Proof.
  induction 1 as [|l ls Hl _ IH]; [by destruct (decide (x = a))|].
  rewrite linesFor_cons, IH, Hl.
  destruct (decide (a = x)) as [->|Hne].
  - by rewrite !decide_True by done.
  - by rewrite !decide_False by congruence.
Qed.

Lemma linesFor_app (x : string) (a b : list (list item)) :
  linesFor x (a ++ b) = linesFor x a ++ linesFor x b.
Proof. unfold linesFor. apply filter_app. Qed.

Lemma linesFor_gathered (F : string -> list (list item)) (names : list string)
    (x : string) :
  NoDup names ->
  (forall dir, Forall (fun l => headOf l = dir) (F dir)) ->
  linesFor x (concat (map F names)) = if decide (x ∈ names) then F x else [].
Proof.
  intros Hnd HF. induction Hnd as [|a names Hna Hnd IH].
  - simpl. by destruct (decide (x ∈ [])) as [?%elem_of_nil|].
  - simpl. rewrite linesFor_app, IH, (linesFor_same a x) by apply HF.
    destruct (decide (x = a)) as [->|Hne].
    + rewrite decide_False by done. rewrite decide_True by left.
      by rewrite app_nil_r.
    + destruct (decide (x ∈ names)) as [Hin|Hin].
      * rewrite decide_True by (by right). done.
      * rewrite decide_False; [done|]. rewrite not_elem_of_cons. done.
Qed.

Lemma Forall_concat_map {A B : Type} (P : B -> Prop) (F : A -> list B)
    (l : list A) :
  (forall a, Forall P (F a)) -> Forall P (concat (map F l)).
Proof.
  intros H. induction l as [|a l IH]; simpl; [constructor|].
  apply Forall_app. split; [apply H|done].
Qed.

Lemma normalizeBody_wf (body : list (list item)) :
  Forall (fun l => wfLine l = true) body ->
  Forall (fun l => wfLine l = true) (normalizeBody body).
Proof.
  intros Hb. apply Forall_concat_map. intros dir. by apply normalizeLines_wf.
Qed.

Lemma normalizeBody_inOrder (body : list (list item)) :
  Sorted String.le (map headOf (normalizeBody body)).
Proof.
  apply StronglySorted_Sorted, heads_of_gathered.
  - apply namesOf_sorted.
  - apply normalizeLines_heads.
Qed.

Lemma existsb_false_Forall {A : Type} (f : A -> bool) (l : list A) :
  existsb f l = false <-> Forall (fun x => f x = false) l.
Proof.
  induction l as [|x l IH]; simpl.
  - split; [constructor|done].
  - rewrite orb_false_iff, IH. split.
    + intros [??]. by constructor.
    + by inversion 1.
Qed.

(** What the normalizer writes out has the stanza. *)
Lemma normalizeBody_stanza (body : list (list item)) :
  bodyNeedsHosts (normalizeBody body) = false.
Proof.
  unfold bodyNeedsHosts, normalizeBody.
  rewrite linesFor_gathered
    by (apply namesOf_NoDup || apply normalizeLines_heads).
  rewrite decide_True by apply namesOf_hosts.
  unfold normalizeLines. simpl String.eqb. cbv iota.
  destruct (linesFor "hosts" body) as [|l ls].
  - reflexivity.
  - change (map (fun it => (fixHosts it).1) (l :: ls))
      with ((fixHosts l).1 :: map (fun it => (fixHosts it).1) ls).
    apply existsb_false_Forall. constructor; [apply fixHosts_fixed|].
    apply Forall_fmap. apply Forall_forall. intros l' _. apply fixHosts_fixed.
Qed.

Lemma lacksPath_changes (l : list item) :
  lacksPath l = true -> (fixHosts l).1 <> l.
Proof.
  rewrite <- fixHosts_flag. unfold fixHosts.
  destruct l as [|[h|b] r]; [done| |done].
  destruct (String.eqb h "hosts"); [|done].
  destruct (ExistInterfaceSlice hostsPath (Str h :: r)) eqn:Hex; [done|].
  destruct r as [|x r]; simpl; [done|].
  intros _ Heq. injection Heq as <-.
  cbn [ExistInterfaceSlice] in Hex. rewrite String.eqb_refl in Hex.
  by destruct (String.eqb hostsPath h).
Qed.

Lemma sortStrings_elem (x : string) (l : list string) :
  x ∈ sortStrings l <-> x ∈ l.
Proof. unfold sortStrings. by rewrite merge_sort_Permutation. Qed.

Lemma sortStrings_NoDup (l : list string) : NoDup l -> NoDup (sortStrings l).
Proof. unfold sortStrings. by rewrite merge_sort_Permutation. Qed.

Lemma linesFor_sortBody (dir : string) (body : list (list item)) :
  linesFor dir (sortBody body) = linesFor dir body.
Proof.
  unfold sortBody.
  rewrite (linesFor_gathered (fun dir => linesFor dir body)).
  - destruct (decide _) as [|Hn]; [done|].
    symmetry. apply linesFor_absent. intros Hin. apply Hn.
    by apply sortStrings_elem, elem_of_remove_dups.
  - apply sortStrings_NoDup, NoDup_remove_dups.
  - intros d. apply linesFor_heads.
Qed.

Lemma linesFor_normalizeBody (body : list (list item)) :
  linesFor "hosts" (normalizeBody body) = normalizeLines body "hosts".
Proof.
  unfold normalizeBody.
  rewrite (linesFor_gathered (normalizeLines body)).
  - by rewrite decide_True by apply namesOf_hosts.
  - apply namesOf_NoDup.
  - apply normalizeLines_heads.
Qed.

(** A body's lines are only put in order exactly when it has the
    stanza. *)
Lemma normalizeBody_sortBody (body : list (list item)) :
  bodyNeedsHosts body = false <-> normalizeBody body = sortBody body.
Proof.
  split.
  - intros Hst. unfold normalizeBody, sortBody, namesOf.
    unfold bodyNeedsHosts in Hst.
    pose proof (linesFor_heads "hosts" body) as Hh.
    destruct (linesFor "hosts" body) as [|l0 ls] eqn:Hl; [done|].
    assert (Hin : "hosts" ∈ remove_dups (map headOf body)).
    { apply elem_of_remove_dups, list_elem_of_fmap. exists l0.
      apply Forall_cons in Hh as [Hh _]. split; [done|].
      assert (l0 ∈ linesFor "hosts" body) as Hl0 by (rewrite Hl; left).
      by apply list_elem_of_filter in Hl0 as [_ ?]. }
    rewrite bool_decide_eq_true_2 by done.
    f_equal. apply map_ext. intros dir. unfold normalizeLines.
    destruct (String.eqb dir "hosts") eqn:Hd; [|done].
    apply String.eqb_eq in Hd as ->. rewrite Hl.
    apply existsb_false_Forall in Hst.
    clear -Hst. induction Hst as [|l1 ls1 Hl1 _ IH]; [done|].
    simpl. rewrite IH. f_equal. apply fixHosts_noop. by rewrite fixHosts_flag.
  - intros Heq. apply (f_equal (linesFor "hosts")) in Heq.
    rewrite linesFor_normalizeBody, linesFor_sortBody in Heq.
    assert (Hfix : forall hs : list (list item),
               map (fun it => (fixHosts it).1) hs = hs ->
               existsb lacksPath hs = false).
    { clear. induction hs as [|l hs IH]; intros Heq; [done|].
      rewrite map_cons in Heq. injection Heq as Hl Hls.
      simpl. rewrite (IH Hls), orb_false_r.
      destruct (lacksPath l) eqn:Hlp; [|done].
      by apply lacksPath_changes in Hlp. }
    unfold normalizeLines, bodyNeedsHosts in *.
    rewrite String.eqb_refl in Heq.
    destruct (linesFor "hosts" body) as [|l0 ls]; [done|].
    by apply Hfix.
Qed.

(** A body that has the stanza and is in order is left as it is. *)
Lemma normalizeBody_id (body : list (list item)) :
  bodyNeedsHosts body = false -> Sorted String.le (map headOf body) ->
  normalizeBody body = body.
Proof.
  intros Hst Hs. rewrite (proj1 (normalizeBody_sortBody body) Hst).
  by apply sortBody_sorted.
Qed.

Lemma normalize_id (d : EncodedCaddyfile) :
  hasStanza d = true -> inOrder d -> normalize d = (d, false).
Proof.
  intros Hst Hord. unfold normalize. f_equal.
  - unfold hasStanza in Hst. apply forallb_Forall in Hst.
    induction d as [|sb d IH]; [done|].
    apply Forall_cons in Hst as [Hsb Hst]. apply Forall_cons in Hord as [Ho Hord].
    simpl. rewrite IH by done. f_equal.
    unfold normalizeBlock. rewrite normalizeBody_id; [by destruct sb|..|done].
    by apply negb_true_iff in Hsb.
  - apply existsb_false_Forall. unfold hasStanza in Hst.
    apply forallb_Forall in Hst. eapply Forall_impl; [exact Hst|].
    intros sb Hsb. by apply negb_true_iff in Hsb.
Qed.

Lemma normalize_wf (d : EncodedCaddyfile) :
  wfDoc d = true -> wfDoc (normalize d).1 = true.
Proof.
  unfold wfDoc. rewrite !forallb_Forall. simpl. intros Hd.
  apply Forall_fmap. eapply Forall_impl; [exact Hd|].
  intros sb Hsb. simpl. unfold wfBlock in *. simpl.
  rewrite !andb_true_iff in *. destruct Hsb as [Hk Hb]. split; [done|].
  apply forallb_Forall, normalizeBody_wf. by apply forallb_Forall.
Qed.

Lemma normalize_normal (d : EncodedCaddyfile) :
  hasStanza (normalize d).1 = true /\ inOrder (normalize d).1.
Proof.
  split.
  - unfold hasStanza. apply forallb_Forall. simpl. apply Forall_fmap.
    apply Forall_forall. intros sb _. simpl.
    by rewrite normalizeBody_stanza.
  - unfold inOrder. simpl. apply Forall_fmap.
    apply Forall_forall. intros sb _. simpl. apply normalizeBody_inOrder.
Qed.

Lemma headOf_hosts (l : list item) :
  headOf l = "hosts" <-> head l = Some (Str "hosts").
Proof.
  destruct l as [|[h|b] r]; cbn [headOf head]; try done.
  split; [by intros ->|by intros [= ->]].
Qed.

Lemma hasPath_or_lacks (l : list item) :
  head l = Some (Str "hosts") ->
  lacksPath l = false <-> Str hostsPath ∈ l.
Proof.
  intros Hh. rewrite <- not_true_iff_false, lacksPath_spec.
  rewrite <- existsb_isString.
  destruct (existsb (isString hostsPath) l).
  - split; [done|]. intros _ [_ Hn]. by apply Hn.
  - split; [|done]. intros Hn. exfalso. apply Hn. split; [done|]. by intros ?.
Qed.

(** The stanza, said of the lines themselves: a block has it when one of
    its lines starts with the string hosts and every such line has the
    path among its own elements. *)
Lemma bodyNeedsHosts_spec (body : list (list item)) :
  bodyNeedsHosts body = false <->
  (exists l, l ∈ body /\ head l = Some (Str "hosts"))
  /\ (forall l, l ∈ body -> head l = Some (Str "hosts") -> Str hostsPath ∈ l).
Proof.
  unfold bodyNeedsHosts.
  assert (Hin : forall l, l ∈ linesFor "hosts" body
                          <-> l ∈ body /\ head l = Some (Str "hosts")).
  { intros l. unfold linesFor. rewrite list_elem_of_filter, headOf_hosts. tauto. }
  destruct (linesFor "hosts" body) as [|l0 ls] eqn:Hl.
  - split; [done|]. intros [(l & Hl0) _]. apply Hin in Hl0.
    by apply elem_of_nil in Hl0.
  - rewrite existsb_false_Forall, Forall_forall. split.
    + intros Hall. split.
      * exists l0. apply Hin. by left.
      * intros l Hb Hh. apply hasPath_or_lacks; [done|].
        apply Hall, Hin. done.
    + intros [_ Hall] l Hl'. apply Hin in Hl' as [Hb Hh].
      apply hasPath_or_lacks; [done|]. by apply Hall.
Qed.

Lemma hasStanza_spec (d : EncodedCaddyfile) :
  hasStanza d = true <-> Forall stanza d.
Proof.
  unfold hasStanza. rewrite forallb_Forall. apply Forall_iff. intros sb.
  by rewrite negb_true_iff, bodyNeedsHosts_spec.
Qed.

End NormalForm.

(** ** The laws of the normalizer, the parser and the serializer *)

Section Laws.

Lemma plainBlock_blockOf (sb : EncodedServerBlock) (ln : nat) :
  Forall LineOK (Body sb) -> plainBlock (blockOf ln sb) = sortBlock sb.
Proof.
  intros Hb. unfold plainBlock, sortBlock, sortBody. f_equal.
  rewrite (sortStrings_perm _ _ (keys_blockOf sb ln)).
  f_equal. apply map_ext. intros dir.
  by rewrite tokensOf_blockOf, linesOf_dirToks.
Qed.

Lemma parseDocument_FromJSON (d : EncodedCaddyfile) :
  wfDoc d = true -> parseDocument (FromJSON d) = Some (map sortBlock d).
Proof.
  intros Hd. unfold parseDocument. rewrite Parse_FromJSON by done.
  simpl. f_equal. generalize 1. revert Hd.
  induction d as [|sb d IH]; intros Hd ln; [done|].
  simpl in Hd. apply andb_true_iff in Hd as [Hsb Hd].
  simpl. rewrite IH by done. f_equal.
  by apply plainBlock_blockOf, wfBlock_lines.
Qed.

Lemma sortBody_in_order (body : list (list item)) :
  Sorted String.le (map headOf (sortBody body)).
Proof.
  apply StronglySorted_Sorted, heads_of_gathered.
  - unfold sortStrings. apply StronglySorted_merge_sort; apply _.
  - intros dir. apply linesFor_heads.
Qed.

Lemma sortBlock_wf (d : EncodedCaddyfile) :
  wfDoc d = true -> wfDoc (map sortBlock d) = true.
Proof.
  unfold wfDoc. rewrite !forallb_Forall. intros Hd.
  apply Forall_fmap. eapply Forall_impl; [exact Hd|].
  intros sb Hsb. simpl. unfold wfBlock in *. simpl.
  rewrite !andb_true_iff in *. destruct Hsb as [Hk Hb]. split; [done|].
  apply forallb_Forall. apply Forall_concat_map. intros dir.
  apply linesFor_sub. by apply forallb_Forall.
Qed.

(** X2: the round trip on well-formed documents (plain strings, heads and
    keys other than [import], nested bodies that have lines and end their
    line): for the text the serializer writes, parsing, serializing and
    parsing again gives the document that parsing gave. *)
Theorem parse_serialize_parse (d : EncodedCaddyfile) :
  wfDoc d = true ->
  exists p,
    parseDocument (FromJSON d) = Some p
    /\ parseDocument (FromJSON p) = Some p.
Proof.
  intros Hd. exists (map sortBlock d). split; [by apply parseDocument_FromJSON|].
  rewrite parseDocument_FromJSON by (by apply sortBlock_wf).
  f_equal. rewrite map_map. apply map_ext. intros sb.
  unfold sortBlock. simpl. f_equal. apply sortBody_sorted, sortBody_in_order.
Qed.

Lemma normalize_sorted (d : EncodedCaddyfile) :
  (normalize d).2 = false <-> (normalize d).1 = map sortBlock d.
Proof.
  unfold normalize. simpl. induction d as [|sb d IH]; [done|].
  simpl. rewrite orb_false_iff, IH, normalizeBody_sortBody.
  unfold normalizeBlock, sortBlock. split.
  - intros [-> ->]. done.
  - intros Heq. injection Heq as -> ->. done.
Qed.

Lemma sortBlock_inOrder (d : EncodedCaddyfile) :
  inOrder d -> map sortBlock d = d.
Proof.
  intros Hd. induction Hd as [|sb d Hsb _ IH]; [done|].
  simpl. rewrite IH. f_equal. unfold sortBlock.
  rewrite sortBody_sorted by done. by destruct sb.
Qed.

Lemma normalize_changed (d : EncodedCaddyfile) :
  (normalize d).2 = negb (hasStanza d).
Proof.
  unfold normalize, hasStanza. simpl.
  induction d as [|sb d IH]; [done|].
  simpl. rewrite IH, negb_andb, negb_involutive. done.
Qed.

(** C1 (amended): on the serialized text of a well-formed document (plain
    strings, heads and keys other than [import], nested bodies that have
    lines and end their line) [BuildNewCoreFile] returns; [needUpdate] is
    false exactly when every block has the stanza, which is: a line that
    starts with hosts, and the path among the own elements of every such
    line; and it is false exactly when the text returned parses to the
    document the input parses to.  The document of a text has, per block,
    the lines of each directive name in the order written and the names
    sorted: the order in which different directives are written is not
    part of it, and writing them out in another order alone leaves
    [needUpdate] false. *)
Theorem needUpdate_iff_reparse_differs (d : EncodedCaddyfile) :
  wfDoc d = true ->
  exists out changed,
    BuildNewCoreFile (FromJSON d) = Some (out, changed)
    /\ (changed = false <-> Forall stanza d)
    /\ (changed = false <-> parseDocument out = parseDocument (FromJSON d)).
Proof.
  intros Hd. exists (FromJSON (normalize d).1), (normalize d).2.
  split; [by apply BuildNewCoreFile_FromJSON|].
  split.
  { rewrite normalize_changed, negb_false_iff. apply hasStanza_spec. }
  rewrite !parseDocument_FromJSON by (done || by apply normalize_wf).
  rewrite (sortBlock_inOrder (normalize d).1) by apply normalize_normal.
  split.
  - intros Hc. f_equal. by apply normalize_sorted.
  - intros [= Heq]. by apply normalize_sorted.
Qed.

(** C3 (amended): for a well-formed document (plain strings, heads and
    keys other than [import], nested bodies that have lines and end their
    line) that has the stanza in every block, the path being an element
    of the hosts line itself, [BuildNewCoreFile] on its serialized text
    returns the text of the document with the lines of every block put in
    the order of their directive names, lines of one name staying in the
    order they had, and reports no change; when its lines are in that
    order already, what is returned is the text given, byte for byte. *)
Theorem normalize_stanza_present (d : EncodedCaddyfile) :
  wfDoc d = true -> Forall stanza d ->
  BuildNewCoreFile (FromJSON d) = Some (FromJSON (map sortBlock d), false)
  /\ (inOrder d -> BuildNewCoreFile (FromJSON d) = Some (FromJSON d, false)).
Proof.
  intros Hwf Hst%hasStanza_spec.
  assert (Hrun : BuildNewCoreFile (FromJSON d)
                 = Some (FromJSON (map sortBlock d), false)).
  { rewrite BuildNewCoreFile_FromJSON by done.
    assert (Hc : (normalize d).2 = false)
      by (by rewrite normalize_changed, Hst).
    by rewrite Hc, (proj1 (normalize_sorted d) Hc). }
  split; [done|]. intros Hord. by rewrite Hrun, sortBlock_inOrder.
Qed.

(** X3: the fixed point on well-formed documents (plain strings, heads
    and keys other than [import], nested bodies that have lines and end
    their line): what [BuildNewCoreFile] returns for the serialized text
    of one is returned unchanged, with no change reported, when it is
    given to [BuildNewCoreFile] again. *)
Theorem normalize_fixed_point (d : EncodedCaddyfile) (out : string) (changed : bool) :
  wfDoc d = true ->
  BuildNewCoreFile (FromJSON d) = Some (out, changed) ->
  BuildNewCoreFile out = Some (out, false).
Proof.
  intros Hwf Hrun.
  rewrite BuildNewCoreFile_FromJSON in Hrun by done.
  injection Hrun as <- <-.
  destruct (normalize_normal d) as [Hst Hord].
  rewrite BuildNewCoreFile_FromJSON by (by apply normalize_wf).
  by rewrite normalize_id.
Qed.

End Laws.

(** ** The normalizer on concrete corefiles *)

Section Corefiles.

(** C1 (counterexample): a corefile whose hosts line has the path and is
    written before [errors] comes back with the two lines in the other
    order, so the tokens of the output are not those of the input, and
    [needUpdate] is false. *)
Lemma reordered_without_needUpdate :
  BuildNewCoreFile corefileUnsorted = Some (FromJSON docSorted, false)
  /\ map Text (allTokens (FromJSON docSorted))
     <> map Text (allTokens corefileUnsorted).
Proof.
  split; [vm_compute; reflexivity|].
  vm_compute. intros H. discriminate H.
Qed.

Lemma needUpdate_iff_reparse_differs_witness :
  exists out changed,
    BuildNewCoreFile (FromJSON docUnsorted) = Some (out, changed)
    /\ (changed = false <-> Forall stanza docUnsorted)
    /\ (changed = false
        <-> parseDocument out = parseDocument (FromJSON docUnsorted)).
Proof.
  apply (needUpdate_iff_reparse_differs docUnsorted). vm_compute. reflexivity.
Defined.

Example needUpdate_corefileUnsorted :
  exists out changed,
    BuildNewCoreFile corefileUnsorted = Some (out, changed)
    /\ (changed = true <->
        exists sb, sb ∈ default [] (Parse corefileUnsorted) /\
          (tokensOf sb "hosts" = []
           \/ exists ls l,
                linesOf (tokensOf sb "hosts") = Some ls /\ l ∈ ls
                /\ head l = Some (Str "hosts") /\ Str "/etc/coredns-dir/hosts" ∉ l)).
Proof.
  apply (needUpdate_iff_hosts_missing corefileUnsorted).
  vm_compute. reflexivity.
Defined.

(** C2: on [hosts { fallthrough }] the path is written over the nested
    body: the hosts line of the output is the name and the path, the body
    and its [fallthrough] are gone, and [needUpdate] is true. *)
Theorem nested_hosts_body_overwritten :
  BuildNewCoreFile corefileNestedHosts
  = Some (FromJSON [mkESB [".:53"] [hostsLineOk]], true)
  /\ map Text (allTokens (FromJSON [mkESB [".:53"] [hostsLineOk]]))
     = [".:53"; "{"; "hosts"; hostsPath; "}"].
Proof.
  split; vm_compute; reflexivity.
Qed.

(** C3 (counterexample): a document that has the stanza in its only block
    and whose hosts line comes before [errors] is not returned as it is:
    the text returned is the text of the document with the two lines in
    the other order, and no change is reported. *)
Lemma stanza_present_yet_rewritten :
  Forall stanza docUnsorted
  /\ BuildNewCoreFile (FromJSON docUnsorted) = Some (FromJSON docSorted, false)
  /\ docSorted <> docUnsorted
  /\ FromJSON docSorted <> FromJSON docUnsorted.
Proof.
  split; [apply hasStanza_spec; vm_compute; reflexivity|].
  split; [vm_compute; reflexivity|].
  split; vm_compute; intros H; discriminate H.
Qed.

Lemma normalize_stanza_present_witness :
  (BuildNewCoreFile (FromJSON docUnsorted)
   = Some (FromJSON (map sortBlock docUnsorted), false)
   /\ (inOrder docUnsorted ->
       BuildNewCoreFile (FromJSON docUnsorted)
       = Some (FromJSON docUnsorted, false)))
  /\ BuildNewCoreFile (FromJSON docSorted) = Some (FromJSON docSorted, false).
Proof.
  split.
  - apply (normalize_stanza_present docUnsorted); [vm_compute; reflexivity|].
    apply hasStanza_spec. vm_compute. reflexivity.
  - apply (normalize_stanza_present docSorted); [vm_compute; reflexivity| |].
    + apply hasStanza_spec. vm_compute. reflexivity.
    + apply (Forall_forall (fun sb => Sorted String.le (map headOf (Body sb)))).
      intros sb [->|[]%elem_of_nil]%elem_of_cons.
      apply (bool_decide_unpack _). vm_compute. reflexivity.
Defined.

(** C7 (the code at the failing input): a nested body that has no lines is
    read by [constructBlock] as the nil body, which the serializer does
    not write, so that parsing the serialized document gives a line
    without the body: the round trip loses a token. *)
Theorem empty_body_lost :
  parseDocument corefileEmptyBody = Some docEmptyBody
  /\ parseDocument (FromJSON docEmptyBody) = Some docNoBody
  /\ docNoBody <> docEmptyBody.
Proof.
  split; [vm_compute; reflexivity|].
  split; [vm_compute; reflexivity|].
  intros H. discriminate H.
Qed.

Example parse_serialize_parse_docA :
  exists p,
    parseDocument (FromJSON docA) = Some p
    /\ parseDocument (FromJSON p) = Some p.
Proof.
  apply (parse_serialize_parse docA). vm_compute. reflexivity.
Defined.

(** C8 (the code at the failing input): with a nested body that has no
    lines, the text returned has the nil body written as nothing after
    the space that separates it from the element before it, and for that
    text another text, the line without the space, is returned: the first
    result is not a fixed point. *)
Theorem empty_body_second_pass :
  BuildNewCoreFile corefileEmptyBodyHosts
  = Some (FromJSON docEmptyBodyHosts, false)
  /\ BuildNewCoreFile (FromJSON docEmptyBodyHosts)
     = Some (FromJSON docNoBodyHosts, false)
  /\ FromJSON docNoBodyHosts <> FromJSON docEmptyBodyHosts.
Proof.
  split; [vm_compute; reflexivity|].
  split; [vm_compute; reflexivity|].
  vm_compute. intros H. discriminate H.
Qed.

Example normalize_fixed_point_docA :
  BuildNewCoreFile (FromJSON (normalize docA).1)
  = Some (FromJSON (normalize docA).1, false).
Proof.
  apply (normalize_fixed_point docA _ (normalize docA).2).
  - vm_compute. reflexivity.
  - vm_compute. reflexivity.
Defined.

End Corefiles.
(** ** What the normalizer establishes and what it keeps *)

Section Keeps.

Lemma namesOf_elem (body : list (list item)) (dir : string) :
  dir ∈ namesOf body <-> dir ∈ map headOf body \/ dir = "hosts".
Proof.
  unfold namesOf. rewrite sortStrings_elem.
  destruct (bool_decide ("hosts" ∈ remove_dups (map headOf body))) eqn:Hb.
  - apply bool_decide_eq_true in Hb. rewrite elem_of_remove_dups in *.
    split; [by left|]. by intros [?| ->].
  - rewrite elem_of_app, elem_of_remove_dups, list_elem_of_singleton. done.
Qed.

Lemma linesFor_normalizeBody_any (body : list (list item)) (dir : string) :
  linesFor dir (normalizeBody body)
  = if decide (dir = "hosts") then normalizeLines body "hosts"
    else linesFor dir body.
Proof.
  unfold normalizeBody.
  rewrite (linesFor_gathered (normalizeLines body))
    by (apply namesOf_NoDup || apply normalizeLines_heads).
  destruct (decide (dir = "hosts")) as [->|Hne].
  - by rewrite decide_True by apply namesOf_hosts.
  - destruct (decide (dir ∈ namesOf body)) as [Hin|Hout].
    + unfold normalizeLines.
      by rewrite (proj2 (String.eqb_neq dir "hosts") Hne).
    + symmetry. apply linesFor_absent. intros Hin. apply Hout.
      apply namesOf_elem. by left.
Qed.

Lemma normalizeBlock_keepsOthers (sb : EncodedServerBlock) :
  keepsOthers sb (normalizeBlock sb).
Proof.
  split; [done|]. intros dir Hne. cbn [normalizeBlock Body].
  by rewrite linesFor_normalizeBody_any, decide_False.
Qed.

Lemma normalizeBlock_keepsHosts (sb : EncodedServerBlock) :
  keepsHosts sb (normalizeBlock sb).
Proof.
  unfold keepsHosts. cbn [normalizeBlock Body].
  rewrite linesFor_normalizeBody_any, decide_True by done.
  unfold normalizeLines. rewrite String.eqb_refl.
  destruct (linesFor "hosts" (Body sb)) as [|l0 ls]; [split; [done|]|split].
  - by intros l ?%elem_of_nil.
  - rewrite length_map. cbn [length]. lia.
  - intros l Hin Hhas. apply list_elem_of_fmap. exists l. split; [|done].
    symmetry. apply fixHosts_noop. rewrite fixHosts_flag.
    apply not_true_iff_false. by intros [_ Hn]%lacksPath_spec.
Qed.

End Keeps.
(** ** Retries *)

Section Retry.
Context {W : Type} (c : client W).

Lemma retryLoop_S (n : nat) (fn : prog (option error)) (last : option error) :
  retryLoop (S n) fn last
  = bind fn (fun err =>
      match err with
      | None => Ret None
      | Some e => if IsConflict e then retryLoop n fn (Some e) else Ret (Some e)
      end).
Proof. reflexivity. Qed.

(** What holds of every call of every attempt holds of every call of the
    retried whole. *)
Lemma retryLoop_log_Forall (P : event -> Prop) (fn : prog (option error)) :
  (forall w, Forall P (exec c fn w).2) ->
  forall n last w, Forall P (exec c (retryLoop n fn last) w).2.
Proof.
  intros Hfn n. induction n as [|n IH]; intros last w; [constructor|].
  rewrite retryLoop_S, exec_bind.
  specialize (Hfn w). destruct (exec c fn w) as [[r w1] l1]. simpl in Hfn.
  destruct r as [e|]; [destruct (IsConflict e)|].
  - specialize (IH (Some e) w1).
    destruct (exec c (retryLoop n fn (Some e)) w1) as [[r2 w2] l2].
    simpl in *. by apply Forall_app.
  - simpl. by rewrite app_nil_r.
  - simpl. by rewrite app_nil_r.
Qed.

(** The attempts are bounded: no more calls than [n] attempts make. *)
Lemma retryLoop_log_length (k : nat) (fn : prog (option error)) :
  (forall w, length (exec c fn w).2 <= k) ->
  forall n last w, length (exec c (retryLoop n fn last) w).2 <= n * k.
Proof.
  intros Hfn n. induction n as [|n IH]; intros last w; [simpl; lia|].
  rewrite retryLoop_S, exec_bind.
  specialize (Hfn w). destruct (exec c fn w) as [[r w1] l1]. simpl in Hfn.
  destruct r as [e|]; [destruct (IsConflict e)|].
  - specialize (IH (Some e) w1).
    destruct (exec c (retryLoop n fn (Some e)) w1) as [[r2 w2] l2].
    simpl in *. rewrite length_app. lia.
  - simpl. rewrite app_nil_r. lia.
  - simpl. rewrite app_nil_r. lia.
Qed.

(** What [RetryOnConflict] returns: nothing, or an error that some attempt
    returned. *)
Lemma retryLoop_result (P : option error -> Prop) (fn : prog (option error)) :
  (forall w, P (exec c fn w).1.1) ->
  forall n last w, P last -> P (exec c (retryLoop n fn last) w).1.1.
Proof.
  intros Hfn n. induction n as [|n IH]; intros last w Hlast; [done|].
  rewrite retryLoop_S, exec_bind.
  specialize (Hfn w). destruct (exec c fn w) as [[r w1] l1]. simpl in Hfn.
  destruct r as [e|]; [destruct (IsConflict e)|]; simpl; try done.
  specialize (IH (Some e) w1 Hfn).
  by destruct (exec c (retryLoop n fn (Some e)) w1) as [[r2 w2] l2].
Qed.

End Retry.

(** ** ensureDeployment *)

Section Deployment.
Context {W : Type} (c : client W).

Lemma existsb_app_last {A : Type} (f : A -> bool) (l : list A) (x : A) :
  existsb f (l ++ [x]) = existsb f l || f x.
Proof. rewrite existsb_app. simpl. by rewrite orb_false_r. Qed.

Lemma mutateDeployment_flag (a : Args) (d : Deployment) :
  (mutateDeployment a d).2 = negb (deploymentReady d).
Proof.
  unfold mutateDeployment, deploymentReady. simpl.
  destruct (ExistContainerByName coreDNSHostsServerName (Containers d)); [|done].
  simpl. rewrite negb_andb. f_equal.
  induction (Containers d) as [|x l IH]; [done|].
  simpl. rewrite IH, negb_andb. done.
Qed.

Lemma mounted_map (cs : list Container) :
  forallb (fun c => ExistVolumeMountsByName volumeName (VolumeMounts c))
    (map (fun c =>
       if negb (ExistVolumeMountsByName volumeName (VolumeMounts c))
       then mkC (cName c) (Image c) (ImagePullPolicy c) (cArgs c) (cPorts c)
                (VolumeMounts c ++ [volumeMountItem])
       else c) cs) = true.
Proof.
  induction cs as [|x l IH]; [done|]. simpl. rewrite IH, andb_true_r.
  destruct (ExistVolumeMountsByName volumeName (VolumeMounts x)) eqn:Hx; [done|].
  simpl. unfold ExistVolumeMountsByName. by rewrite existsb_app_last, orb_true_r.
Qed.

Lemma named_map (name : string) (cs : list Container) :
  ExistContainerByName name
    (map (fun c =>
       if negb (ExistVolumeMountsByName volumeName (VolumeMounts c))
       then mkC (cName c) (Image c) (ImagePullPolicy c) (cArgs c) (cPorts c)
                (VolumeMounts c ++ [volumeMountItem])
       else c) cs) = ExistContainerByName name cs.
Proof.
  induction cs as [|x l IH]; [done|]. simpl. rewrite IH. f_equal.
  by destruct (negb _).
Qed.

(** What [ensureDeployment] makes of a deployment has the container, the
    mounts and the volume. *)
Lemma mutateDeployment_ready (a : Args) (d : Deployment) :
  deploymentReady (mutateDeployment a d).1 = true.
Proof.
  unfold mutateDeployment, deploymentReady. simpl.
  rewrite mounted_map, named_map, andb_true_r.
  apply andb_true_iff. split.
  - destruct (ExistContainerByName coreDNSHostsServerName (Containers d)) eqn:Hc;
      [done|].
    simpl. unfold ExistContainerByName. rewrite existsb_app_last. simpl.
    by rewrite orb_true_r.
  - destruct (ExistVolumeMsByName volumeName (Volumes d)) eqn:Hv; [done|].
    simpl. unfold ExistVolumeMsByName. rewrite existsb_app_last. simpl.
    by rewrite orb_true_r.
Qed.

Lemma mutateDeployment_noop (a : Args) (d : Deployment) :
  deploymentReady d = true -> (mutateDeployment a d).1 = d.
Proof.
  unfold deploymentReady, mutateDeployment. rewrite !andb_true_iff.
  intros [[Hc Hm] Hv]. simpl. rewrite Hc, Hv. simpl.
  destruct d as [m sa dsa cs vs]. simpl in *. f_equal. clear Hc Hv.
  induction cs as [|x l IH]; [done|].
  simpl in *. apply andb_true_iff in Hm as [Hx Hl].
  rewrite Hx, IH by done. done.
Qed.

Lemma exec_ensureDeploymentOnce (a : Args) (dep : Deployment) (w : W) :
  let get := GetDeployment (Namespace (dMeta dep)) (Name (dMeta dep)) in
  exec c (ensureDeploymentOnce a dep) w =
  match handle c get w with
  | (inl _, w1) =>
      (Some (Errorf "failed to get latest version of Deployment: %v"), w1, [get])
  | (inr result, w1) =>
      if deploymentReady result then (None, w1, [get])
      else
        let put := UpdateDeployment (Namespace (dMeta dep))
                     (mutateDeployment a result).1 in
        (errOf (handle c put w1).1, (handle c put w1).2, [get; put])
  end.
Proof.
  intros get. unfold ensureDeploymentOnce, mbind, prog_bind.
  rewrite (exec_call_bind c get). fold get.
  destruct (handle c get w) as [[err|result] w1]; cbn [fst snd]; [done|].
  pose proof (mutateDeployment_flag a result) as Hf.
  destruct (mutateDeployment a result) as [result' needUpdate].
  cbn [fst snd] in *. subst needUpdate.
  destruct (deploymentReady result); cbn [negb]; [done|].
  by rewrite (exec_call_bind c (UpdateDeployment _ result')).
Qed.

End Deployment.

(** ** ensureService and ensureClusterrole *)

Section ServiceRole.
Context {W : Type} (c : client W).

Lemma exec_ensurePort (a : Args) (result : Service) (w : W) :
  exec c (ensurePort a result) w =
  if ExistPortsByPort (Port (ServerArgs_ a)) (svcPorts result)
  then (None, w, [])
  else
    let put := UpdateService (CoreDNSNamespace a)
                 (mkSvc (svcMeta result) (svcPorts result ++ [apisPort a])) in
    (errOf (handle c put w).1, (handle c put w).2, [put]).
Proof.
  unfold ensurePort.
  destruct (ExistPortsByPort (Port (ServerArgs_ a)) (svcPorts result));
    cbn [negb]; [done|].
  unfold mbind, prog_bind. by rewrite (exec_call_bind c (UpdateService _ _)).
Qed.

Lemma ensurePort_calls (a : Args) (result : Service) (w : W) :
  forallb (serviceCall a) (exec c (ensurePort a result) w).2 = true.
Proof.
  rewrite exec_ensurePort.
  destruct (ExistPortsByPort _ _) eqn:Hp; [done|].
  cbn [snd forallb serviceCall svcPorts]. rewrite String.eqb_refl, reverse_snoc.
  rewrite bool_decide_eq_true_2 by done. by rewrite reverse_involutive, Hp.
Qed.

Lemma ensureServiceOnce_calls (a : Args) (w : W) :
  forallb (serviceCall a) (exec c (ensureServiceOnce a) w).2 = true.
Proof.
  rewrite exec_ensureServiceOnce.
  destruct (handle c (GetService _ (CoreDNSName a)) w) as [[err|result] w1].
  - destruct (handle c (GetService _ "kube-dns") w1) as [[err2|result] w2].
    + simpl. by rewrite !String.eqb_refl, ?orb_true_r.
    + pose proof (ensurePort_calls a result w2) as Hp.
      destruct (exec c (ensurePort a result) w2) as [[r w3] l]. simpl in *.
      by rewrite Hp, !String.eqb_refl, ?orb_true_r.
  - pose proof (ensurePort_calls a result w1) as Hp.
    destruct (exec c (ensurePort a result) w1) as [[r w3] l]. simpl in *.
    by rewrite Hp, !String.eqb_refl.
Qed.

Lemma exec_ensureClusterroleOnce (name : string) (w : W) :
  let get := GetClusterRole name in
  exec c (ensureClusterroleOnce name) w =
  match handle c get w with
  | (inl _, w1) =>
      (Some (Errorf "failed to get latest version of Cluster: %v"), w1, [get])
  | (inr result, w1) =>
      if ExistPolicyRule addRule (Rules result) then (None, w1, [get])
      else
        let put := UpdateClusterRole
                     (mkCR (crMeta result) (Rules result ++ [addRule])) in
        (errOf (handle c put w1).1, (handle c put w1).2, [get; put])
  end.
Proof.
  intros get. unfold ensureClusterroleOnce, mbind, prog_bind.
  rewrite (exec_call_bind c get). fold get.
  destruct (handle c get w) as [[err|result] w1]; cbn [fst snd]; [done|].
  destruct (ExistPolicyRule addRule (Rules result)); cbn [negb]; [done|].
  by rewrite (exec_call_bind c (UpdateClusterRole _)).
Qed.

Lemma ensureClusterroleOnce_calls (name : string) (w : W) :
  forallb (clusterroleCall name) (exec c (ensureClusterroleOnce name) w).2 = true.
Proof.
  rewrite exec_ensureClusterroleOnce.
  destruct (handle c (GetClusterRole name) w) as [[err|result] w1].
  - simpl. by rewrite String.eqb_refl.
  - destruct (ExistPolicyRule addRule (Rules result)) eqn:Hr.
    + simpl. by rewrite String.eqb_refl.
    + cbn [snd forallb clusterroleCall Rules]. rewrite String.eqb_refl, reverse_snoc.
      rewrite bool_decide_eq_true_2 by done. by rewrite reverse_involutive, Hr.
Qed.

Lemma ensureDeploymentOnce_calls (a : Args) (dep : Deployment) (w : W) :
  forallb (deploymentCall dep) (exec c (ensureDeploymentOnce a dep) w).2 = true.
Proof.
  rewrite exec_ensureDeploymentOnce.
  destruct (handle c (GetDeployment _ _) w) as [[err|result] w1].
  - simpl. by rewrite !String.eqb_refl.
  - destruct (deploymentReady result).
    + simpl. by rewrite !String.eqb_refl.
    + cbn [snd forallb deploymentCall]. by rewrite !String.eqb_refl, mutateDeployment_ready.
Qed.

(** From what holds of every attempt to what holds of the retried whole,
    for a test on the calls. *)
Lemma retry_calls (f : event -> bool) (fn : prog (option error)) :
  (forall w, forallb f (exec c fn w).2 = true) ->
  forall w, forallb f (exec c (RetryOnConflict fn) w).2 = true.
Proof.
  intros Hfn w. apply forallb_Forall.
  apply (retryLoop_log_Forall c (fun e => f e = true)).
  intros w'. apply forallb_Forall, Hfn.
Qed.

End ServiceRole.

(** ** The role [ensureClusterrole] works on *)

Section RoleName.

Lemma subjects_fold (item : ClusterRoleBinding) (name namespace : string)
    (subjects : list Subject) (acc : string) :
  fold_left (fun acc subject =>
      if String.eqb (sName subject) name
         && String.eqb (sKind subject) "ServiceAccount"
         && String.eqb (sNamespace subject) namespace
      then if String.eqb (rrKind item) "ClusterRole" then rrName item else acc
      else acc) subjects acc
  = if existsb (fun subject =>
                  String.eqb (sName subject) name
                  && String.eqb (sKind subject) "ServiceAccount"
                  && String.eqb (sNamespace subject) namespace) subjects
       && String.eqb (rrKind item) "ClusterRole"
    then rrName item else acc.
Proof.
  revert acc. induction subjects as [|x l IH]; intros acc; [done|].
  cbn [fold_left existsb]. rewrite IH.
  destruct (String.eqb (sName x) name && String.eqb (sKind x) "ServiceAccount"
            && String.eqb (sNamespace x) namespace); cbn [orb].
  - destruct (String.eqb (rrKind item) "ClusterRole"); [|by rewrite andb_false_r].
    rewrite andb_true_r. by destruct (existsb _ l).
  - done.
Qed.

Lemma bindings_fold (name namespace : string) (items : list ClusterRoleBinding)
    (acc : string) :
  fold_left (fun acc item =>
    fold_left (fun acc subject =>
      if String.eqb (sName subject) name
         && String.eqb (sKind subject) "ServiceAccount"
         && String.eqb (sNamespace subject) namespace
      then if String.eqb (rrKind item) "ClusterRole" then rrName item else acc
      else acc) (Subjects item) acc) items acc
  = from_option rrName acc (last (filter (fun item => bindsAccount name namespace item = true) items)).
Proof.
  revert acc. induction items as [|x l IH]; intros acc; [done|].
  cbn [fold_left]. rewrite IH, subjects_fold, filter_cons.
  fold (bindsAccount name namespace x).
  destruct (decide (bindsAccount name namespace x = true)) as [Hb|Hb].
  - rewrite Hb, last_cons. by destruct (last (filter _ l)).
  - apply not_true_is_false in Hb. by rewrite Hb.
Qed.

End RoleName.
(** ** The corefile step and the whole of RunOnce *)

Section RunOnce.
Context {W : Type} (c : client W).

Lemma exec_updateCorefileOnce (a : Args) (corefile : string) (w : W) :
  let get := GetConfigMap (CoreDNSNamespace a) (CoreDNSName a) in
  exec c (updateCorefileOnce a corefile) w =
  match handle c get w with
  | (inl _, w1) =>
      (Some (Errorf "failed to get latest version of ConfigMap: %v"), w1, [get])
  | (inr result, w1) =>
      match Data result with
      | None => (Some (Panic "assignment to entry in nil map"), w1, [get])
      | Some data =>
          let put := UpdateConfigMap (CoreDNSNamespace a)
                       (mkCM (cmMeta result) (Some (<["Corefile" := corefile]> data))) in
          (errOf (handle c put w1).1, (handle c put w1).2, [get; put])
      end
  end.
Proof.
  intros get. unfold updateCorefileOnce, mbind, prog_bind.
  rewrite (exec_call_bind c get). fold get.
  destruct (handle c get w) as [[err|result] w1]; cbn [fst snd]; [done|].
  destruct (Data result) as [data|]; [|done].
  by rewrite (exec_call_bind c (UpdateConfigMap _ _)).
Qed.

Lemma exec_ensureCoreDNSConfigmap (s : Server) (w : W) :
  let get := GetConfigMap (CoreDNSNamespace (args s)) (CoreDNSName (args s)) in
  exec c (ensureCoreDNSConfigmap s) w =
  match handle c get w with
  | (inl err, w1) => (Some err, w1, [get])
  | (inr cm, w1) =>
      match BuildNewCoreFile (dataAt cm "Corefile") with
      | None => (Some (OtherError "caddyfile.Parse"), w1, [get])
      | Some (corefile, true) =>
          let '(r, w2, l) :=
            exec c (RetryOnConflict (updateCorefileOnce (args s) corefile)) w1 in
          (r, w2, get :: l)
      | Some (corefile, false) => (None, w1, [get])
      end
  end.
Proof.
  intros get. unfold ensureCoreDNSConfigmap, mbind, prog_bind.
  rewrite (exec_call_bind c get). fold get.
  destruct (handle c get w) as [[err|cm] w1]; cbn [fst snd]; [done|].
  destruct (BuildNewCoreFile (dataAt cm "Corefile")) as [[corefile []]|]; done.
Qed.

(** The steps on a cluster that is set up. *)
Lemma ensureClusterrole_set_up (s : Server) (dep : Deployment)
    (w w1 w2 : W) (items : list ClusterRoleBinding) (cr : ClusterRole) :
  corednsDeployment s = Some dep ->
  let sa := if isEmpty (ServiceAccountName dep)
            then DeprecatedServiceAccount dep else ServiceAccountName dep in
  let name := findClusterRoleName items sa (Namespace (dMeta dep)) in
  isEmpty sa = false ->
  handle c ListClusterRoleBindings w = (inr items, w1) ->
  isEmpty name = false ->
  handle c (GetClusterRole name) w1 = (inr cr, w2) ->
  ExistPolicyRule addRule (Rules cr) = true ->
  exec c (ensureClusterrole s) w
  = (None, w2, [ListClusterRoleBindings; GetClusterRole name]).
Proof.
  intros Hdep sa name Hsa Hlist Hname Hget Hrule.
  unfold ensureClusterrole. rewrite Hdep. fold sa. rewrite Hsa.
  unfold mbind, prog_bind. rewrite (exec_call_bind c ListClusterRoleBindings).
  rewrite Hlist. cbn [fst snd]. fold name. rewrite Hname.
  rewrite exec_retry_once; rewrite exec_ensureClusterroleOnce, Hget, Hrule; done.
Qed.

Lemma ensureDeployment_set_up (s : Server) (dep d : Deployment) (w w1 : W) :
  corednsDeployment s = Some dep ->
  handle c (GetDeployment (Namespace (dMeta dep)) (Name (dMeta dep))) w
  = (inr d, w1) ->
  deploymentReady d = true ->
  exec c (ensureDeployment s) w
  = (None, w1, [GetDeployment (Namespace (dMeta dep)) (Name (dMeta dep))]).
Proof.
  intros Hdep Hget Hready. unfold ensureDeployment. rewrite Hdep.
  rewrite exec_retry_once; rewrite exec_ensureDeploymentOnce, Hget, Hready; done.
Qed.

Lemma ensureService_set_up (s : Server) (svc : Service) (w w1 : W) :
  handle c (GetService (CoreDNSNamespace (args s)) (CoreDNSName (args s))) w
  = (inr svc, w1) ->
  ExistPortsByPort (Port (ServerArgs_ (args s))) (svcPorts svc) = true ->
  exec c (ensureService s) w
  = (None, w1, [GetService (CoreDNSNamespace (args s)) (CoreDNSName (args s))]).
Proof.
  intros Hget Hport. unfold ensureService.
  rewrite exec_retry_once;
    rewrite exec_ensureServiceOnce, Hget, exec_ensurePort, Hport; done.
Qed.

Lemma ensureCoreDNSConfigmap_set_up (s : Server) (cm : ConfigMap) (w w1 : W)
    (sbs : list ServerBlock) :
  handle c (GetConfigMap (CoreDNSNamespace (args s)) (CoreDNSName (args s))) w
  = (inr cm, w1) ->
  Parse (dataAt cm "Corefile") = Some sbs ->
  existsb needsHosts sbs = false ->
  exec c (ensureCoreDNSConfigmap s) w
  = (None, w1, [GetConfigMap (CoreDNSNamespace (args s)) (CoreDNSName (args s))]).
Proof.
  intros Hget Hparse Hst.
  by rewrite exec_ensureCoreDNSConfigmap, Hget, BuildNewCoreFile_spec, Hparse, Hst.
Qed.

End RunOnce.
Section Bounds.
Context {W : Type} (c : client W).

Lemma retry_length (k : nat) (fn : prog (option error)) :
  (forall w, length (exec c fn w).2 <= k) ->
  forall w, length (exec c (RetryOnConflict fn) w).2 <= 5 * k.
Proof. intros Hfn w. by apply (retryLoop_log_length c k fn Hfn 5). Qed.

Lemma ensureClusterrole_length (s : Server) (w : W) :
  length (exec c (ensureClusterrole s) w).2 <= 11.
Proof.
  unfold ensureClusterrole. destruct (corednsDeployment s) as [dep|]; [|simpl; lia].
  destruct (isEmpty _); [simpl; lia|].
  unfold mbind, prog_bind. rewrite (exec_call_bind c ListClusterRoleBindings).
  destruct (handle c ListClusterRoleBindings w) as [[err|items] w1];
    cbn [fst snd]; [simpl; lia|].
  destruct (isEmpty _); [simpl; lia|].
  match goal with |- context [exec c (RetryOnConflict ?fn) w1] =>
    pose proof (retry_length 2 fn) as Hr end.
  lapply Hr.
  - intros Hl. specialize (Hl w1).
    destruct (exec c (RetryOnConflict _) w1) as [[r w2] l]. simpl in *. lia.
  - intros w'. rewrite exec_ensureClusterroleOnce.
    destruct (handle c _ w') as [[?|result] ?]; [simpl; lia|].
    destruct (ExistPolicyRule _ _); simpl; lia.
Qed.

Lemma ensureDeployment_length (s : Server) (w : W) :
  length (exec c (ensureDeployment s) w).2 <= 10.
Proof.
  unfold ensureDeployment. destruct (corednsDeployment s) as [dep|]; [|simpl; lia].
  apply (retry_length 2). intros w'. rewrite exec_ensureDeploymentOnce.
  destruct (handle c _ w') as [[?|result] ?]; [simpl; lia|].
  destruct (deploymentReady _); simpl; lia.
Qed.

Lemma ensureService_length (s : Server) (w : W) :
  length (exec c (ensureService s) w).2 <= 15.
Proof.
  unfold ensureService. apply (retry_length 3). intros w'.
  rewrite exec_ensureServiceOnce.
  destruct (handle c _ w') as [[?|result] w1].
  - destruct (handle c _ w1) as [[?|result] w2]; [simpl; lia|].
    rewrite exec_ensurePort. destruct (ExistPortsByPort _ _); simpl; lia.
  - rewrite exec_ensurePort. destruct (ExistPortsByPort _ _); simpl; lia.
Qed.

Lemma ensureCoreDNSConfigmap_length (s : Server) (w : W) :
  length (exec c (ensureCoreDNSConfigmap s) w).2 <= 11.
Proof.
  rewrite exec_ensureCoreDNSConfigmap.
  destruct (handle c _ w) as [[?|cm] w1]; [simpl; lia|].
  destruct (BuildNewCoreFile _) as [[corefile []]|]; [|simpl; lia..].
  pose proof (retry_length 2 (updateCorefileOnce (args s) corefile)) as Hr.
  lapply Hr.
  - intros Hl. specialize (Hl w1).
    destruct (exec c (RetryOnConflict _) w1) as [[r w2] l]. simpl in *. lia.
  - intros w'. rewrite exec_updateCorefileOnce.
    destruct (handle c _ w') as [[?|result] ?]; [simpl; lia|].
    destruct (Data result); simpl; lia.
Qed.

Lemma updateCorefileOnce_calls (a : Args) (corefile : string) (w : W) :
  forallb (corefileCall a corefile) (exec c (updateCorefileOnce a corefile) w).2
  = true.
Proof.
  rewrite exec_updateCorefileOnce.
  destruct (handle c _ w) as [[?|result] w1].
  - simpl. by rewrite !String.eqb_refl.
  - destruct (Data result) as [data|].
    + cbn [snd forallb corefileCall Data default from_option id]. rewrite !String.eqb_refl.
      rewrite lookup_insert_eq. by rewrite bool_decide_eq_true_2.
    + simpl. by rewrite !String.eqb_refl.
Qed.

End Bounds.
(** ** The record store *)

Section Store.
Import controller server.
Context {W : Type} (c : client W).

Lemma setDataOnce_calls (domain ip : string) (w : W) :
  forallb (setCall domain ip) (exec c (setDataOnce domain ip) w).2 = true.
Proof.
  rewrite exec_setDataOnce.
  destruct (handle c fetchRecords w) as [[err|cm] w1]; [done|].
  destruct (bool_decide _); [done|].
  assert (Hw : setCall domain ip (setWrite cm domain ip) = true).
  { unfold setCall, setWrite. cbn [Data default from_option id].
    rewrite String.eqb_refl, lookup_insert_eq. by rewrite bool_decide_eq_true_2. }
  destruct (handle c (setWrite cm domain ip) w1) as [[err|newCm] w2];
    cbn [snd forallb]; by rewrite Hw.
Qed.

Lemma deleteDataOnce_calls (domain : string) (w : W) :
  forallb (deleteCall domain) (exec c (deleteDataOnce domain) w).2 = true.
Proof.
  rewrite exec_deleteDataOnce.
  destruct (handle c fetchRecords w) as [[err|cm] w1]; [done|].
  destruct (default ∅ (Data cm) !! domain); [|done].
  assert (Hw : deleteCall domain (deleteWrite cm domain) = true).
  { unfold deleteCall, deleteWrite. cbn [Data default from_option id].
    rewrite String.eqb_refl, lookup_delete_eq. by rewrite bool_decide_eq_true_2. }
  destruct (handle c (deleteWrite cm domain) w1) as [[err|newCm] w2];
    cbn [snd forallb]; by rewrite Hw.
Qed.

Lemma setDataOnce_length (domain ip : string) (w : W) :
  length (exec c (setDataOnce domain ip) w).2 <= 2.
Proof.
  rewrite exec_setDataOnce.
  destruct (handle c fetchRecords w) as [[err|cm] w1]; [simpl; lia|].
  destruct (bool_decide _); [simpl; lia|].
  destruct (handle c (setWrite cm domain ip) w1) as [[err|newCm] w2]; simpl; lia.
Qed.

Lemma deleteDataOnce_length (domain : string) (w : W) :
  length (exec c (deleteDataOnce domain) w).2 <= 2.
Proof.
  rewrite exec_deleteDataOnce.
  destruct (handle c fetchRecords w) as [[err|cm] w1]; [simpl; lia|].
  destruct (default ∅ (Data cm) !! domain); [|simpl; lia].
  destruct (handle c (deleteWrite cm domain) w1) as [[err|newCm] w2]; simpl; lia.
Qed.

End Store.
(** ** The record store on the cluster in memory *)

Section StoreInMemory.
Import controller server.

Lemma mem_fetchRecords (w : mem.world) (cm : ConfigMap) :
  hasRecords w cm -> handle mem.client fetchRecords w = (inr cm, w).
Proof.
  intros [Hcm _]. unfold fetchRecords. cbn [handle mem.client mem.handle].
  unfold mem.getIn. unfold recordsKey in Hcm. by rewrite Hcm.
Qed.

Lemma mem_writeRecords (w : mem.world) (cm : ConfigMap)
    (data : gmap string string) :
  hasRecords w cm ->
  handle mem.client
    (UpdateConfigMap ConfigmapNamespace (mkCM (cmMeta cm) (Some data))) w
  = (inr (mkCM (cmMeta cm) (Some data)),
     withRecords w (mkCM (cmMeta cm) (Some data))).
Proof.
  intros [Hcm Hname]. cbn [handle mem.client mem.handle cmMeta].
  rewrite Hname. unfold recordsKey in Hcm. by rewrite Hcm.
Qed.

Lemma hasRecords_withRecords (w : mem.world) (cm cm' : ConfigMap) :
  hasRecords w cm -> cmMeta cm' = cmMeta cm -> hasRecords (withRecords w cm') cm'.
Proof.
  intros [Hcm Hname] Hmeta. split.
  - unfold withRecords. cbn [mem.configMaps]. by rewrite lookup_insert_eq.
  - by rewrite Hmeta.
Qed.

Lemma mem_GetData (w : mem.world) (cm : ConfigMap) (domain : string) :
  hasRecords w cm ->
  exec mem.client (GetData domain) w
  = (match default ∅ (Data cm) !! domain with
     | Some ip => inr (mkRecord ip domain)
     | None => inl (Errorf "can't find the ip according to the domain %s")
     end, w, [fetchRecords]).
Proof.
  intros Hw. unfold GetData, mbind, prog_bind.
  rewrite (exec_call_bind mem.client fetchRecords), (mem_fetchRecords w cm) by done.
  cbn [fst snd]. by destruct (default ∅ (Data cm) !! domain).
Qed.

Lemma mem_SetData (w : mem.world) (cm : ConfigMap) (domain ip : string) :
  hasRecords w cm ->
  default ∅ (Data cm) !! domain <> Some ip ->
  exec mem.client (SetData domain ip) w
  = (None,
     withRecords w (mkCM (cmMeta cm) (Some (<[domain := ip]> (default ∅ (Data cm))))),
     [fetchRecords; setWrite cm domain ip]).
Proof.
  intros Hw Hne. unfold SetData.
  assert (Hrun : exec mem.client (setDataOnce domain ip) w
    = (None,
       withRecords w (mkCM (cmMeta cm) (Some (<[domain := ip]> (default ∅ (Data cm))))),
       [fetchRecords; setWrite cm domain ip])).
  { rewrite exec_setDataOnce, (mem_fetchRecords w cm) by done.
    rewrite bool_decide_eq_false_2 by done.
    unfold setWrite. rewrite (mem_writeRecords w cm) by done.
    cbn [Data]. rewrite lookup_insert_eq. cbn [default from_option id].
    by rewrite bool_decide_eq_true_2. }
  rewrite exec_retry_once; by rewrite Hrun.
Qed.

Lemma mem_DeleteData (w : mem.world) (cm : ConfigMap) (domain : string) :
  hasRecords w cm ->
  is_Some (default ∅ (Data cm) !! domain) ->
  exec mem.client (DeleteData domain) w
  = (None,
     withRecords w (mkCM (cmMeta cm) (Some (delete domain (default ∅ (Data cm))))),
     [fetchRecords; deleteWrite cm domain]).
Proof.
  intros Hw [ip Hip]. unfold DeleteData.
  assert (Hrun : exec mem.client (deleteDataOnce domain) w
    = (None,
       withRecords w (mkCM (cmMeta cm) (Some (delete domain (default ∅ (Data cm))))),
       [fetchRecords; deleteWrite cm domain])).
  { rewrite exec_deleteDataOnce, (mem_fetchRecords w cm) by done.
    rewrite Hip. unfold deleteWrite. rewrite (mem_writeRecords w cm) by done.
    cbn [Data default from_option id]. by rewrite lookup_delete_eq. }
  rewrite exec_retry_once; by rewrite Hrun.
Qed.

End StoreInMemory.
Section StoreAny.
Import controller server.

Lemma mem_SetData_any (w : mem.world) (cm : ConfigMap) (domain ip : string) :
  hasRecords w cm ->
  exists w' cm' log,
    exec mem.client (SetData domain ip) w = (None, w', log)
    /\ hasRecords w' cm'
    /\ default ∅ (Data cm') = <[domain := ip]> (default ∅ (Data cm)).
Proof.
  intros Hw.
  destruct (decide (default ∅ (Data cm) !! domain = Some ip)) as [Hhas|Hne].
  - exists w, cm, [fetchRecords]. split; [|split; [done|]].
    + unfold SetData.
      rewrite exec_retry_once;
        rewrite exec_setDataOnce, (mem_fetchRecords w cm) by done;
        by rewrite bool_decide_eq_true_2.
    + by rewrite insert_id.
  - do 3 eexists. split; [by rewrite (mem_SetData w cm)|].
    split; [by apply (hasRecords_withRecords w cm)|done].
Qed.

Lemma mem_DeleteData_any (w : mem.world) (cm : ConfigMap) (domain : string) :
  hasRecords w cm ->
  exists w' cm' log,
    exec mem.client (DeleteData domain) w = (None, w', log)
    /\ hasRecords w' cm'
    /\ default ∅ (Data cm') = delete domain (default ∅ (Data cm)).
Proof.
  intros Hw.
  destruct (default ∅ (Data cm) !! domain) as [ip|] eqn:Hip.
  - do 3 eexists. split; [by rewrite (mem_DeleteData w cm)|].
    split; [by apply (hasRecords_withRecords w cm)|done].
  - exists w, cm, [fetchRecords]. split; [|split; [done|]].
    + unfold DeleteData.
      rewrite exec_retry_once;
        rewrite exec_deleteDataOnce, (mem_fetchRecords w cm), Hip by done; done.
    + by rewrite delete_id.
Qed.

End StoreAny.
(** ** Keys, the watch handlers and the worker *)

Section Keys.
Import controller.

Lemma splitSlash_plain (s : string) :
  ContainsAny s ["/"%char] = false -> splitSlash s = [s].
Proof.
  induction s as [|ch s IH]; [done|].
  cbn [ContainsAny existsb splitSlash]. rewrite orb_false_r.
  intros [Hc Hs]%orb_false_iff. rewrite Hc, IH by done. done.
Qed.

Lemma splitSlash_slash (a b : string) :
  ContainsAny a ["/"%char] = false ->
  splitSlash (a +:+ "/" +:+ b) = a :: splitSlash b.
Proof.
  induction a as [|ch a IH]; [done|].
  cbn [ContainsAny existsb]. rewrite orb_false_r.
  intros [Hc Ha]%orb_false_iff.
  change (String ch a +:+ "/" +:+ b) with (String ch (a +:+ "/" +:+ b)).
  cbn [splitSlash]. rewrite Hc, IH by done. done.
Qed.

End Keys.

(** * Further properties of the code *)

Section NormalizerExtras.

(** X4: for the serialized text of a well-formed document (plain strings,
    heads and keys other than [import], nested bodies that have lines and
    end their line), what [BuildNewCoreFile] returns is the serialized
    text of a well-formed document in which every block has a line that
    starts with hosts, every such line has the path among its own
    elements, and the lines of every block are in the order of their
    directive names. *)
Theorem normalizer_establishes_stanza (d : EncodedCaddyfile) :
  wfDoc d = true ->
  exists d' changed,
    BuildNewCoreFile (FromJSON d) = Some (FromJSON d', changed)
    /\ wfDoc d' = true /\ Forall stanza d' /\ inOrder d'.
Proof.
  intros Hd. exists (normalize d).1, (normalize d).2.
  split; [by apply BuildNewCoreFile_FromJSON|].
  split; [by apply normalize_wf|].
  destruct (normalize_normal d) as [Hst Hord].
  split; [by apply hasStanza_spec|done].
Qed.

(** X5: for the serialized text of a well-formed document (plain strings,
    heads and keys other than [import], nested bodies that have lines and
    end their line), the text returned is the serialized text of a
    document that has the blocks of the input, each with its keys; for
    every directive other than hosts the lines the block had for it, in
    the order they had; and one hosts line where the block had none, as
    many as it had otherwise, among them unchanged every hosts line that
    had the path among its own elements. *)
Theorem normalizer_keeps (d : EncodedCaddyfile) :
  wfDoc d = true ->
  exists d' changed,
    BuildNewCoreFile (FromJSON d) = Some (FromJSON d', changed)
    /\ Forall2 (fun sb sb' => keepsOthers sb sb' /\ keepsHosts sb sb') d d'.
Proof.
  intros Hd. exists (normalize d).1, (normalize d).2.
  split; [by apply BuildNewCoreFile_FromJSON|].
  unfold normalize. cbn [fst]. apply Forall2_fmap_r, Forall_Forall2_diag.
  apply Forall_forall. intros sb _.
  split; [apply normalizeBlock_keepsOthers|apply normalizeBlock_keepsHosts].
Qed.

(** X6: [constructLine], run over the tokens of the lines of one directive
    of a body (plain strings, nested bodies that have lines), its lines
    one after the other and its nested bodies one line per line, returns
    those lines: nested bodies are read back whole and the line ends
    where the next line begins. *)
Theorem constructLine_reads_back (b : list (list item)) (dir : string)
    (ln : nat) :
  forallb tokLine b = true ->
  linesOf (dirToks ln b dir) = Some (linesFor dir b).
Proof.
  intros Hb.
  assert (Hok : Forall LineOK b).
  { apply forallb_Forall in Hb. eapply Forall_impl; [exact Hb|].
    apply tokLine_LineOK. }
  pose proof (linesOf_dirToks b dir ln Hok) as Hl.
  destruct (linesOf_total (dirToks ln b dir)) as [ls Hls].
  rewrite Hls in *. by f_equal.
Qed.

(** X7: [ExistInterfaceSlice] finds a string exactly when it is one of the
    line's own elements: a string inside a nested body is not seen. *)
Theorem ExistInterfaceSlice_own_elements (val : string) (it : list item) :
  ExistInterfaceSlice val it = true <-> Str val ∈ it.
Proof.
  induction it as [|[s|b] r IH].
  - split; [done|]. by intros ?%elem_of_nil.
  - cbn [ExistInterfaceSlice]. rewrite elem_of_cons.
    destruct (String.eqb val s) eqn:Hs.
    + apply String.eqb_eq in Hs as ->. split; [by left|done].
    + apply String.eqb_neq in Hs. rewrite IH. split; [by right|].
      intros [[= ->]|?]; done.
  - cbn [ExistInterfaceSlice]. rewrite elem_of_cons, IH.
    split; [by right|]. by intros [?|?].
Qed.

Lemma slicesEqualFrom_spec (a b : list string) (i : nat) :
  length a <= length (drop i b) ->
  slicesEqualFrom i a b = Some (bool_decide (a = take (length a) (drop i b))).
Proof.
  revert i. induction a as [|v r IH]; intros i Hl; [done|].
  cbn [slicesEqualFrom length] in *.
  destruct (b !! i) as [x|] eqn:Hx.
  - rewrite (drop_S _ _ _ Hx) in *. cbn [take length] in *.
    destruct (String.eqb v x) eqn:Hv.
    + apply String.eqb_eq in Hv as ->. rewrite IH by lia.
      f_equal. apply bool_decide_ext. split; [by intros <-|by intros [= ?]].
    + apply String.eqb_neq in Hv. f_equal. symmetry.
      apply bool_decide_eq_false. by intros [= ? ?].
  - apply lookup_ge_None in Hx. rewrite length_drop in Hl. lia.
Qed.

(** X8: [stringSlicesEqual] reads no index outside the second slice, and
    returns true exactly for equal slices. *)
Theorem stringSlicesEqual_eq (a b : list string) :
  stringSlicesEqual a b = Some (bool_decide (a = b)).
Proof.
  unfold stringSlicesEqual.
  destruct (length a =? length b)%nat eqn:Hl.
  - apply Nat.eqb_eq in Hl.
    rewrite slicesEqualFrom_spec by (rewrite drop_0; lia).
    by rewrite drop_0, Hl, firstn_all.
  - apply Nat.eqb_neq in Hl. f_equal. symmetry.
    apply bool_decide_eq_false. by intros ->.
Qed.

End NormalizerExtras.

Lemma normalizer_establishes_stanza_witness :
  exists d' changed,
    BuildNewCoreFile (FromJSON docA) = Some (FromJSON d', changed)
    /\ wfDoc d' = true /\ Forall stanza d' /\ inOrder d'.
Proof.
  apply (normalizer_establishes_stanza docA). vm_compute. reflexivity.
Defined.

Lemma normalizer_keeps_witness :
  exists d' changed,
    BuildNewCoreFile (FromJSON docA) = Some (FromJSON d', changed)
    /\ Forall2 (fun sb sb' => keepsOthers sb sb' /\ keepsHosts sb sb') docA d'.
Proof.
  apply (normalizer_keeps docA). vm_compute. reflexivity.
Defined.

Lemma constructLine_reads_back_witness :
  linesOf (dirToks 2 (Body (default (mkESB [] []) (head docA))) "cache")
  = Some [[Str "cache"; Str "30"]; [Str "cache"; Str "60"]].
Proof.
  apply (constructLine_reads_back
           (Body (default (mkESB [] []) (head docA))) "cache" 2).
  vm_compute. reflexivity.
Defined.

(** ** The installer's steps: what they may call and write *)

Section EnsureSteps.
Context {W : Type} (c : client W).

(** X9: the role [ensureClusterrole] works on is the role of the last
    ClusterRoleBinding, in the order listed, that has a subject of kind
    ServiceAccount with the account's name and namespace and refers to a
    ClusterRole; with no such binding it is the empty name. *)
Theorem findClusterRoleName_last_binding (items : list ClusterRoleBinding)
    (name namespace : string) :
  findClusterRoleName items name namespace
  = from_option rrName EmptyString
      (last (filter (fun item => bindsAccount name namespace item = true) items)).
Proof.
  unfold findClusterRoleName. rewrite bindings_fold.
  by destruct (last _).
Qed.

(** The retried part of [ensureClusterrole] starts with the fetch of the
    role. *)
Lemma ensureClusterrole_first_call (name : string) (w : W) :
  head (exec c (RetryOnConflict (ensureClusterroleOnce name)) w).2
  = Some (GetClusterRole name).
Proof.
  unfold RetryOnConflict, DefaultRetrySteps.
  rewrite retryLoop_S, exec_bind.
  unfold ensureClusterroleOnce at 1, mbind, prog_bind.
  rewrite (exec_call_bind c (GetClusterRole name)).
  destruct (exec c _ (handle c (GetClusterRole name) w).2) as [[r w2] l2].
  by destruct (exec c _ w2) as [[r' w3] l3].
Qed.

(** X10: whatever the cluster answers, [ensureClusterrole] makes no call
    when there is no deployment or when the deployment names no service
    account; otherwise its first call lists the bindings, and it is the
    only call when the listing fails or no binding gives a role name;
    after it comes the fetch of the role found by name, and every later
    call is such a fetch or the write of a role whose last rule is the
    rule on configmaps and that did not have that rule before. *)
Theorem ensureClusterrole_calls (s : Server) (w : W) :
  let log := (exec c (ensureClusterrole s) w).2 in
  match corednsDeployment s with
  | None => log = []
  | Some dep =>
      let sa := if isEmpty (ServiceAccountName dep)
                then DeprecatedServiceAccount dep else ServiceAccountName dep in
      if isEmpty sa then log = []
      else
        exists rest, log = ListClusterRoleBindings :: rest /\
          match (handle c ListClusterRoleBindings w).1 with
          | inl _ => rest = []
          | inr items =>
              let name := findClusterRoleName items sa (Namespace (dMeta dep)) in
              if isEmpty name then rest = []
              else head rest = Some (GetClusterRole name)
                   /\ forallb (clusterroleCall name) rest = true
          end
  end.
Proof.
  unfold ensureClusterrole. destruct (corednsDeployment s) as [dep|]; [|done].
  cbv zeta.
  destruct (isEmpty (if isEmpty (ServiceAccountName dep)
                     then DeprecatedServiceAccount dep
                     else ServiceAccountName dep)); [done|].
  unfold mbind, prog_bind.
  rewrite (exec_call_bind c ListClusterRoleBindings).
  destruct (handle c ListClusterRoleBindings w) as [[err|items] w1]; cbn [fst snd].
  - by exists [].
  - destruct (isEmpty (findClusterRoleName items _ _)); [by exists []|].
    pose proof (retry_calls c _ _ (ensureClusterroleOnce_calls c
      (findClusterRoleName items
         (if isEmpty (ServiceAccountName dep) then DeprecatedServiceAccount dep
          else ServiceAccountName dep) (Namespace (dMeta dep)))) w1) as Hc.
    pose proof (ensureClusterrole_first_call
      (findClusterRoleName items
         (if isEmpty (ServiceAccountName dep) then DeprecatedServiceAccount dep
          else ServiceAccountName dep) (Namespace (dMeta dep))) w1) as Hne.
    destruct (exec c (RetryOnConflict _) w1) as [[r w2] l]. by exists l.
Qed.

(** X11: whatever the cluster answers, [ensureDeployment] only fetches its
    deployment by name and only writes, in that namespace, deployments
    that have the hosts server's container, the shared volume, and the
    mount of it in every container. *)
Theorem ensureDeployment_calls (s : Server) (w : W) :
  match corednsDeployment s with
  | None => (exec c (ensureDeployment s) w).2 = []
  | Some dep =>
      forallb (deploymentCall dep) (exec c (ensureDeployment s) w).2 = true
  end.
Proof.
  unfold ensureDeployment. destruct (corednsDeployment s) as [dep|]; [|done].
  apply retry_calls. intros w'. apply ensureDeploymentOnce_calls.
Qed.

(** X12: whatever the cluster answers, [ensureService] only fetches the
    service of the configured name or the service kube-dns, and only
    writes services to which it has appended the port named apis and which
    had no port of that number. *)
Theorem ensureService_calls (s : Server) (w : W) :
  forallb (serviceCall (args s)) (exec c (ensureService s) w).2 = true.
Proof.
  unfold ensureService. apply retry_calls. intros w'.
  apply ensureServiceOnce_calls.
Qed.

End EnsureSteps.

Section DeploymentMutation.

(** X13: [ensureDeployment] sets [needUpdate], and so writes, exactly when
    the deployment it would write differs from the one it fetched. *)
Theorem mutateDeployment_changes_iff (a : Args) (d : Deployment) :
  (mutateDeployment a d).2 = false <-> (mutateDeployment a d).1 = d.
Proof.
  rewrite mutateDeployment_flag, negb_false_iff. split.
  - apply mutateDeployment_noop.
  - intros Heq. rewrite <- Heq. apply mutateDeployment_ready.
Qed.

(** X14: the deployment [ensureDeployment] writes keeps what the fetched one
    had: its metadata and service account, its volumes, with at most new
    ones after them, and its containers, in their order and each the same
    but for mounts added after its own, followed by nothing or by the
    hosts server's container. *)
Theorem mutateDeployment_keeps (a : Args) (d : Deployment) :
  let d' := (mutateDeployment a d).1 in
  dMeta d' = dMeta d
  /\ ServiceAccountName d' = ServiceAccountName d
  /\ DeprecatedServiceAccount d' = DeprecatedServiceAccount d
  /\ Volumes d `prefix_of` Volumes d'
  /\ exists added,
       (added = [] \/ added = [hostsServerContainer a])
       /\ Forall2 sameButMounts (Containers d ++ added) (Containers d').
Proof.
  unfold mutateDeployment. cbn [fst dMeta ServiceAccountName
    DeprecatedServiceAccount Volumes Containers].
  split; [done|]. split; [done|]. split; [done|]. split.
  - destruct (negb _); [by apply prefix_app_r|done].
  - exists (if negb (ExistContainerByName coreDNSHostsServerName (Containers d))
            then [hostsServerContainer a] else []).
    split; [destruct (negb _); auto|].
    assert (Hmap : forall cs, Forall2 sameButMounts cs
      (map (fun c =>
         if negb (ExistVolumeMountsByName volumeName (VolumeMounts c))
         then mkC (cName c) (Image c) (ImagePullPolicy c) (cArgs c) (cPorts c)
                  (VolumeMounts c ++ [volumeMountItem])
         else c) cs)).
    { induction cs as [|x l IH]; constructor; [|done].
      destruct (negb _); unfold sameButMounts; cbn; repeat split; try done.
      by apply prefix_app_r. }
    destruct (negb (ExistContainerByName _ _)); [apply Hmap|].
    rewrite app_nil_r. apply Hmap.
Qed.

End DeploymentMutation.

Section Corefile.
Context {W : Type} (c : client W).

(** X15: whatever the cluster answers, [RunOnce] makes at most 47 calls: every
    retried step gives up after five attempts. *)
Theorem RunOnce_bounded (s : Server) (w : W) :
  length (exec c (RunOnce s) w).2 <= 47.
Proof.
  unfold RunOnce, mbind, prog_bind. rewrite exec_bind.
  pose proof (ensureClusterrole_length c s w) as H1.
  destruct (exec c (ensureClusterrole s) w) as [[[e1|] w1] l1]; simpl in H1.
  { simpl. rewrite ?length_app. simpl. lia. }
  rewrite exec_bind.
  pose proof (ensureDeployment_length c s w1) as H2.
  destruct (exec c (ensureDeployment s) w1) as [[[e2|] w2] l2]; simpl in H2.
  { simpl. rewrite ?length_app. simpl. lia. }
  rewrite exec_bind.
  pose proof (ensureService_length c s w2) as H3.
  destruct (exec c (ensureService s) w2) as [[[e3|] w3] l3]; simpl in H3.
  { simpl. rewrite ?length_app. simpl. lia. }
  rewrite exec_bind.
  pose proof (ensureCoreDNSConfigmap_length c s w3) as H4.
  destruct (exec c (ensureCoreDNSConfigmap s) w3) as [[[e4|] w4] l4]; simpl in H4;
    simpl; rewrite ?length_app; simpl; lia.
Qed.

(** X16: whatever the cluster answers, [ensureCoreDNSConfigmap] stops after
    the first fetch when that fails, when the corefile fetched does not
    parse, and when no block of it needs the stanza; otherwise it only
    fetches the configmap again and writes configmaps whose Corefile is the
    text [BuildNewCoreFile] made of the corefile first fetched. *)
Theorem ensureCoreDNSConfigmap_calls (s : Server) (w : W) :
  let get := GetConfigMap (CoreDNSNamespace (args s)) (CoreDNSName (args s)) in
  let log := (exec c (ensureCoreDNSConfigmap s) w).2 in
  match (handle c get w).1 with
  | inl _ => log = [get]
  | inr cm =>
      match BuildNewCoreFile (dataAt cm "Corefile") with
      | Some (corefile, true) => forallb (corefileCall (args s) corefile) log = true
      | _ => log = [get]
      end
  end.
Proof.
  intros get log. subst log. rewrite exec_ensureCoreDNSConfigmap. fold get.
  destruct (handle c get w) as [[err|cm] w1]; cbn [fst]; [done|].
  destruct (BuildNewCoreFile (dataAt cm "Corefile")) as [[corefile []]|];
    [|done..].
  pose proof (retry_calls c _ _ (updateCorefileOnce_calls c (args s) corefile) w1)
    as Hc.
  destruct (exec c (RetryOnConflict _) w1) as [[r w2] l]. simpl in *.
  by rewrite !String.eqb_refl, Hc.
Qed.

End Corefile.

Section NoBlocks.

(** X17: a corefile without a token (empty, blank or only comments) has no
    server block: [BuildNewCoreFile] returns the empty text and no stanza
    is added and no update asked for. *)
Theorem BuildNewCoreFile_no_tokens (corefile : string) :
  allTokens corefile = [] ->
  BuildNewCoreFile corefile = Some (EmptyString, false).
Proof.
  intros Hnone. rewrite BuildNewCoreFile_spec. unfold Parse. by rewrite Hnone.
Qed.

End NoBlocks.

Lemma BuildNewCoreFile_no_tokens_witness :
  BuildNewCoreFile ("# managed by the cluster" +:+ nl +:+ "   " +:+ nl)
  = Some (EmptyString, false).
Proof.
  apply BuildNewCoreFile_no_tokens. vm_compute. reflexivity.
Defined.

Section RunOnceWhole.
Context {W : Type} (c : client W).

(** X18: on a cluster that is set up, [RunOnce] reads and writes nothing: it
    lists the bindings, fetches the role, the deployment, the service and
    the configmap, finds the rule, the container with mounts and volume,
    the port and a corefile all of whose blocks have the stanza, and
    returns no error after these five calls. *)
Theorem RunOnce_set_up_reads_only (s : Server) (dep d : Deployment)
    (items : list ClusterRoleBinding) (cr : ClusterRole) (svc : Service)
    (cm : ConfigMap) (sbs : list ServerBlock) (w w1 w2 w3 w4 w5 : W) :
  corednsDeployment s = Some dep ->
  let a := args s in
  let sa := if isEmpty (ServiceAccountName dep)
            then DeprecatedServiceAccount dep else ServiceAccountName dep in
  let name := findClusterRoleName items sa (Namespace (dMeta dep)) in
  let getDep := GetDeployment (Namespace (dMeta dep)) (Name (dMeta dep)) in
  let getSvc := GetService (CoreDNSNamespace a) (CoreDNSName a) in
  let getCm := GetConfigMap (CoreDNSNamespace a) (CoreDNSName a) in
  isEmpty sa = false ->
  handle c ListClusterRoleBindings w = (inr items, w1) ->
  isEmpty name = false ->
  handle c (GetClusterRole name) w1 = (inr cr, w2) ->
  ExistPolicyRule addRule (Rules cr) = true ->
  handle c getDep w2 = (inr d, w3) ->
  deploymentReady d = true ->
  handle c getSvc w3 = (inr svc, w4) ->
  ExistPortsByPort (Port (ServerArgs_ a)) (svcPorts svc) = true ->
  handle c getCm w4 = (inr cm, w5) ->
  Parse (dataAt cm "Corefile") = Some sbs ->
  existsb needsHosts sbs = false ->
  exec c (RunOnce s) w
  = (None, w5,
     [ListClusterRoleBindings; GetClusterRole name; getDep; getSvc; getCm]).
Proof.
  intros Hdep a sa name getDep getSvc getCm Hsa Hlist Hname Hcr Hrule
    Hd Hready Hsvc Hport Hcm Hparse Hst.
  unfold RunOnce, mbind, prog_bind.
  rewrite exec_bind.
  rewrite (ensureClusterrole_set_up c s dep w w1 w2 items cr) by done.
  cbn iota beta. rewrite exec_bind.
  rewrite (ensureDeployment_set_up c s dep d w2 w3) by done.
  cbn iota beta. rewrite exec_bind.
  rewrite (ensureService_set_up c s svc w3 w4) by done.
  cbn iota beta. rewrite exec_bind.
  rewrite (ensureCoreDNSConfigmap_set_up c s cm w4 w5 sbs) by done.
  done.
Qed.

End RunOnceWhole.

Lemma RunOnce_set_up_reads_only_witness :
  exec mem.client (RunOnce server0) world_set_up
  = (None, world_set_up,
     [ListClusterRoleBindings; GetClusterRole "system:coredns";
      GetDeployment "kube-system" "coredns";
      GetService "kube-system" "coredns";
      GetConfigMap "kube-system" "coredns"]).
Proof.
  eapply (RunOnce_set_up_reads_only mem.client server0 dep0 _
            (mem.clusterRoleBindings world_fresh) _ _ _ _
            world_set_up world_set_up world_set_up world_set_up world_set_up
            world_set_up);
    vm_compute; reflexivity.
Defined.

Section StoreGeneral.
Import controller server.
Context {W : Type} (c : client W).

(** X19: whatever the cluster answers, [SetData] and [DeleteData] make at
    most ten calls each, every one the fetch of the records' configmap or
    a write in its namespace: by [SetData] of a configmap in which the
    domain reads the address, by [DeleteData] of a configmap that has no
    entry for the domain. *)
Theorem record_store_calls (domain ip : string) (w : W) :
  (length (exec c (SetData domain ip) w).2 <= 10
   /\ forallb (setCall domain ip) (exec c (SetData domain ip) w).2 = true)
  /\ (length (exec c (DeleteData domain) w).2 <= 10
      /\ forallb (deleteCall domain) (exec c (DeleteData domain) w).2 = true).
Proof.
  split; split.
  - apply (retry_length c 2). intros w'. apply setDataOnce_length.
  - apply retry_calls. intros w'. apply setDataOnce_calls.
  - apply (retry_length c 2). intros w'. apply deleteDataOnce_length.
  - apply retry_calls. intros w'. apply deleteDataOnce_calls.
Qed.

(** X20: when the records fetched have the domain with the address,
    [SetData] ends after the fetch, with no write and no error; and so
    does [DeleteData] when the records fetched have no entry for the
    domain, and in particular when their data map is nil. *)
Theorem record_store_short_circuit (domain ip : string) (cm : ConfigMap)
    (w w1 : W) :
  handle c fetchRecords w = (inr cm, w1) ->
  (default ∅ (Data cm) !! domain = Some ip ->
   exec c (SetData domain ip) w = (None, w1, [fetchRecords]))
  /\ (default ∅ (Data cm) !! domain = None ->
      exec c (DeleteData domain) w = (None, w1, [fetchRecords]))
  /\ (Data cm = None ->
      exec c (DeleteData domain) w = (None, w1, [fetchRecords])).
Proof.
  intros Hget.
  assert (Hdel : default ∅ (Data cm) !! domain = None ->
                 exec c (DeleteData domain) w = (None, w1, [fetchRecords])).
  { intros Hnot. unfold DeleteData.
    rewrite exec_retry_once; rewrite exec_deleteDataOnce, Hget, Hnot; done. }
  split; [|split; [exact Hdel|]].
  - intros Hhas. unfold SetData.
    rewrite exec_retry_once; rewrite exec_setDataOnce, Hget;
      by rewrite bool_decide_eq_true_2.
  - intros Hnil. apply Hdel. by rewrite Hnil.
Qed.

(** X21: when the write of [SetData] is answered with a conflict, the
    records are fetched again and the entry is written into what that
    second fetch returned. *)
Theorem SetData_conflict_refetches (domain ip : string)
    (cm1 cm2 newCm : ConfigMap) (w w1 w2 w3 w4 : W) :
  handle c fetchRecords w = (inr cm1, w1) ->
  default ∅ (Data cm1) !! domain <> Some ip ->
  handle c (setWrite cm1 domain ip) w1 = (inl (StatusError Conflict), w2) ->
  handle c fetchRecords w2 = (inr cm2, w3) ->
  default ∅ (Data cm2) !! domain <> Some ip ->
  handle c (setWrite cm2 domain ip) w3 = (inr newCm, w4) ->
  holdsAddress newCm domain ip = true ->
  exec c (SetData domain ip) w
  = (None, w4,
     [fetchRecords; setWrite cm1 domain ip; fetchRecords; setWrite cm2 domain ip]).
Proof.
  intros Hg1 Hn1 Hu1 Hg2 Hn2 Hu2 Hok.
  unfold SetData, RetryOnConflict, DefaultRetrySteps.
  rewrite retryLoop_S, exec_bind, exec_setDataOnce, Hg1.
  rewrite bool_decide_eq_false_2 by done. rewrite Hu1. cbn iota beta.
  cbn [IsConflict].
  rewrite retryLoop_S, exec_bind, exec_setDataOnce, Hg2.
  rewrite bool_decide_eq_false_2 by done. rewrite Hu2. cbn iota beta.
  unfold holdsAddress in Hok. destruct (Data newCm) as [d|]; [|done].
  by rewrite Hok.
Qed.

End StoreGeneral.

Lemma record_store_short_circuit_witness :
  exec mem.client (server.SetData "a.example.com" "1.2.3.4") (world_of cm_one)
  = (None, world_of cm_one, [server.fetchRecords])
  /\ exec mem.client (server.DeleteData "b.example.com") (world_of cm_one)
     = (None, world_of cm_one, [server.fetchRecords])
  /\ exec mem.client (server.DeleteData "a.example.com") (world_of cm_nil)
     = (None, world_of cm_nil, [server.fetchRecords]).
Proof.
  split; [|split].
  - refine (proj1 (record_store_short_circuit mem.client "a.example.com"
                     "1.2.3.4" cm_one (world_of cm_one) (world_of cm_one) _) _);
      vm_compute; reflexivity.
  - refine (proj1 (proj2 (record_store_short_circuit mem.client "b.example.com"
                            "1.2.3.4" cm_one (world_of cm_one) (world_of cm_one)
                            _)) _);
      vm_compute; reflexivity.
  - refine (proj2 (proj2 (record_store_short_circuit mem.client "a.example.com"
                            "1.2.3.4" cm_nil (world_of cm_nil) (world_of cm_nil)
                            _)) _);
      vm_compute; reflexivity.
Defined.

Lemma SetData_conflict_refetches_witness :
  exec mem.busy (server.SetData "a.example.com" "1.2.3.4") (1, world_of cm_empty)
  = (None, (0, world_of cm_one),
     [server.fetchRecords; server.setWrite cm_empty "a.example.com" "1.2.3.4";
      server.fetchRecords; server.setWrite cm_empty "a.example.com" "1.2.3.4"]).
Proof.
  apply (SetData_conflict_refetches mem.busy "a.example.com" "1.2.3.4"
           cm_empty cm_empty cm_one (1, world_of cm_empty)
           (1, world_of cm_empty) (0, world_of cm_empty)
           (0, world_of cm_empty) (0, world_of cm_one));
    vm_compute; (reflexivity || discriminate || done).
Defined.

Section StoreContended.
Import controller server.

Lemma busy_retry (w : mem.world) (cm : ConfigMap) (domain ip : string) :
  hasRecords w cm ->
  default ∅ (Data cm) !! domain <> Some ip ->
  forall k n last,
    exec mem.busy (retryLoop k (setDataOnce domain ip) last) (k + n, w)
    = (match k with O => last | S _ => Some (StatusError Conflict) end,
       (n, w),
       concat (replicate k [fetchRecords; setWrite cm domain ip])).
Proof.
  intros Hw Hne. induction k as [|k IH]; intros n last; [done|].
  rewrite retryLoop_S, exec_bind, exec_setDataOnce.
  assert (Hf : handle mem.busy fetchRecords (S k + n, w) = (inr cm, (S k + n, w))).
  { pose proof (mem_fetchRecords w cm Hw) as Hm.
    change (handle mem.busy fetchRecords (S k + n, w))
      with ((handle mem.client fetchRecords w).1,
            (S k + n, (handle mem.client fetchRecords w).2)).
    by rewrite Hm. }
  rewrite Hf. rewrite bool_decide_eq_false_2 by done.
  assert (Hu : handle mem.busy (setWrite cm domain ip) (S k + n, w)
               = (inl (StatusError Conflict), (k + n, w))) by done.
  rewrite Hu. cbn iota beta. cbn [IsConflict]. rewrite IH.
  cbn [replicate concat]. by destruct k.
Qed.

(** X22: when every write is answered with a conflict, [SetData] gives up
    after the fifth: it has fetched and written five times, the records
    are as they were, and the conflict is what it returns. *)
Theorem SetData_gives_up (w : mem.world) (cm : ConfigMap) (domain ip : string)
    (n : nat) :
  hasRecords w cm ->
  default ∅ (Data cm) !! domain <> Some ip ->
  exec mem.busy (SetData domain ip) (5 + n, w)
  = (Some (StatusError Conflict), (n, w),
     concat (replicate 5 [fetchRecords; setWrite cm domain ip])).
Proof.
  intros Hw Hne. unfold SetData, RetryOnConflict, DefaultRetrySteps.
  by rewrite (busy_retry w cm domain ip Hw Hne 5 n None).
Qed.

End StoreContended.

Lemma SetData_gives_up_witness :
  exec mem.busy (server.SetData "a.example.com" "1.2.3.4") (7, world_of cm_empty)
  = (Some (StatusError Conflict), (2, world_of cm_empty),
     concat (replicate 5 [server.fetchRecords;
                          server.setWrite cm_empty "a.example.com" "1.2.3.4"])).
Proof.
  apply (SetData_gives_up (world_of cm_empty) cm_empty "a.example.com" "1.2.3.4" 2).
  - split; vm_compute; reflexivity.
  - vm_compute. discriminate.
Defined.

Section StoreRoundTrip.
Import controller server.

(** X23: on a cluster that nobody else writes to and that has the records'
    configmap, [SetData] returns no error and [GetData] then returns the
    record of the domain with the address set; [DeleteData] returns no
    error and [GetData] then returns the error of a domain that is not
    found; and after either, [GetData] returns for every other domain what
    it returned before. *)
Theorem store_then_GetData (w : mem.world) (cm : ConfigMap)
    (domain ip : string) :
  hasRecords w cm ->
  (exists w',
     (exec mem.client (SetData domain ip) w).1 = (None, w')
     /\ (exec mem.client (GetData domain) w').1.1 = inr (mkRecord ip domain)
     /\ forall other, other <> domain ->
          (exec mem.client (GetData other) w').1.1
          = (exec mem.client (GetData other) w).1.1)
  /\ (exists w',
        (exec mem.client (DeleteData domain) w).1 = (None, w')
        /\ (exec mem.client (GetData domain) w').1.1
           = inl (Errorf "can't find the ip according to the domain %s")
        /\ forall other, other <> domain ->
             (exec mem.client (GetData other) w').1.1
             = (exec mem.client (GetData other) w).1.1).
Proof.
  intros Hw. split.
  - destruct (mem_SetData_any w cm domain ip Hw)
      as (w1 & cm1 & l1 & Hset & Hw1 & Hd1).
    exists w1. split; [by rewrite Hset|]. split.
    + by rewrite (mem_GetData w1 cm1 domain Hw1), Hd1, lookup_insert_eq.
    + intros other Hother.
      rewrite (mem_GetData w1 cm1 other Hw1), (mem_GetData w cm other Hw), Hd1.
      by rewrite lookup_insert_ne.
  - destruct (mem_DeleteData_any w cm domain Hw)
      as (w1 & cm1 & l1 & Hdel & Hw1 & Hd1).
    exists w1. split; [by rewrite Hdel|]. split.
    + by rewrite (mem_GetData w1 cm1 domain Hw1), Hd1, lookup_delete_eq.
    + intros other Hother.
      rewrite (mem_GetData w1 cm1 other Hw1), (mem_GetData w cm other Hw), Hd1.
      by rewrite lookup_delete_ne.
Qed.

End StoreRoundTrip.

Lemma store_then_GetData_witness :
  (exists w',
     (exec mem.client (server.SetData "b.example.com" "5.6.7.8") (world_of cm_one)).1
     = (None, w')
     /\ (exec mem.client (server.GetData "b.example.com") w').1.1
        = inr (server.mkRecord "5.6.7.8" "b.example.com")
     /\ forall other, other <> "b.example.com" ->
          (exec mem.client (server.GetData other) w').1.1
          = (exec mem.client (server.GetData other) (world_of cm_one)).1.1)
  /\ (exists w',
        (exec mem.client (server.DeleteData "b.example.com") (world_of cm_one)).1
        = (None, w')
        /\ (exec mem.client (server.GetData "b.example.com") w').1.1
           = inl (Errorf "can't find the ip according to the domain %s")
        /\ forall other, other <> "b.example.com" ->
             (exec mem.client (server.GetData other) w').1.1
             = (exec mem.client (server.GetData other) (world_of cm_one)).1.1).
Proof.
  apply (store_then_GetData (world_of cm_one) cm_one "b.example.com" "5.6.7.8").
  split; vm_compute; reflexivity.
Defined.

(** ** The HTTP routes *)

Section Routes.
Import controller server.
Context (mapRange : gmap string string -> list (string * string)).
Context (Error : error -> string).

(** X24: whatever the request and whatever the cluster answers, a route
    answers with status 200 and code 0, or with status 400, code 1 and no
    data, without a call to the cluster, or with status 500, code 1 and no
    data. *)
Theorem route_status {W : Type} (c : client W) (req : request) (w : W) :
  let '(status, response, _, log) := exec c (route mapRange Error req) w in
  (status = StatusOK /\ Code response = 0%Z)
  \/ (status = StatusBadRequest /\ Code response = 1%Z
      /\ Data_ response = NoData /\ log = [])
  \/ (status = StatusInternalServerError /\ Code response = 1%Z
      /\ Data_ response = NoData).
Proof.
  destruct req as [[err|record]|[err|record]| |domain]; cbn [route].
  - right. left. done.
  - unfold PostRecords, mbind, prog_bind. rewrite exec_bind.
    destruct (exec c (SetData _ _) w) as [[[e|] w1] l1]; simpl; [by right; right|by left].
  - right. left. done.
  - unfold DeleteRecords, mbind, prog_bind. rewrite exec_bind.
    destruct (exec c (DeleteData _) w) as [[[e|] w1] l1]; simpl; [by right; right|by left].
  - unfold ListRecords, mbind, prog_bind. rewrite exec_bind.
    destruct (exec c (GetDatas mapRange) w) as [[[recs [e|]] w1] l1]; simpl; [by right; right|by left].
  - unfold GetRecord, mbind, prog_bind. rewrite exec_bind.
    destruct (exec c _ w) as [[[e|ret] w1] l1]; simpl; [by right; right|by left].
Qed.

(** X25: [GetDatas] returns the error of the fetch with no record, or one
    record for every entry of the configmap's data and no other: every
    domain once, with its address (none for data that is nil). *)
Theorem GetDatas_lists_records {W : Type} (c : client W) (w : W) :
  (forall m, mapRange m ≡ₚ map_to_list m) ->
  match handle c fetchRecords w with
  | (inl err, w1) =>
      exec c (GetDatas mapRange) w = (([], Some err), w1, [fetchRecords])
  | (inr cm, w1) =>
      exists recs,
        exec c (GetDatas mapRange) w = ((recs, None), w1, [fetchRecords])
        /\ map (fun r => (Domain r, IP r)) recs
           ≡ₚ map_to_list (default ∅ (Data cm))
        /\ NoDup (map Domain recs)
  end.
Proof.
  intros Hperm. unfold GetDatas, mbind, prog_bind.
  rewrite (exec_call_bind c fetchRecords). unfold fetchRecords.
  destruct (handle c _ w) as [[err|cm] w1]; cbn [fst snd]; [done|].
  eexists. split; [done|].
  rewrite !map_map. cbn [Domain IP].
  assert (Hid : map (fun x : string * string => (x.1, x.2)) (mapRange (default ∅ (Data cm)))
                = mapRange (default ∅ (Data cm))).
  { rewrite <- (map_id (mapRange _)) at 2. apply map_ext. by intros []. }
  rewrite Hid. split; [apply Hperm|].
  change (map (fun x : string * string => x.1) (mapRange (default ∅ (Data cm))))
    with ((mapRange (default ∅ (Data cm))).*1).
  rewrite (Hperm _). apply NoDup_fst_map_to_list.
Qed.

(** X26: on a cluster that nobody else writes to and that has the records'
    configmap, a record posted is answered with 200, the record is then
    what the route of its domain returns, with 200, and after the record
    is deleted, with 200, that route answers 500. *)
Theorem post_get_delete (w : mem.world) (cm : ConfigMap) (record : Record_) :
  hasRecords w cm ->
  let run req w := exec mem.client (route mapRange Error req) w in
  let w1 := (run (POST_records (inr record)) w).1.2 in
  let w2 := (run (DELETE_records (inr record)) w1).1.2 in
  (run (POST_records (inr record)) w).1.1.1 = StatusOK
  /\ (run (GET_record (Domain record)) w1).1.1
     = (StatusOK,
        SuccessResponse (OneRecord record)
          ("GetRecord is successful. Domain is " +:+ Domain record))
  /\ (run (DELETE_records (inr record)) w1).1.1.1 = StatusOK
  /\ (run (GET_record (Domain record)) w2).1.1.1 = StatusInternalServerError.
Proof.
  intros Hw run w1 w2. subst run w1 w2. cbn [route].
  destruct (mem_SetData_any w cm (Domain record) (IP record) Hw)
    as (w1 & cm1 & l1 & Hset & Hw1 & Hd1).
  assert (Hpost : exec mem.client (PostRecords Error (inr record)) w
    = ((StatusOK, SuccessResponse NoData
          ("PostRecords is successful. Domain is " +:+ Domain record
           +:+ ", and ip is " +:+ IP record)), w1, l1 ++ [])).
  { unfold PostRecords, mbind, prog_bind. by rewrite exec_bind, Hset. }
  rewrite Hpost. cbn [fst snd].
  destruct (mem_DeleteData_any w1 cm1 (Domain record) Hw1)
    as (w2 & cm2 & l2 & Hdel & Hw2 & Hd2).
  assert (Hdelete : exec mem.client (DeleteRecords Error (inr record)) w1
    = ((StatusOK, SuccessResponse NoData
          ("DeleteRecords is successful. Domain is " +:+ Domain record
           +:+ ", and ip is " +:+ IP record)), w2, l2 ++ [])).
  { unfold DeleteRecords, mbind, prog_bind. by rewrite exec_bind, Hdel. }
  rewrite Hdelete. cbn [fst snd].
  split; [done|]. split; [|split; [done|]].
  - unfold GetRecord, mbind, prog_bind.
    rewrite exec_bind, (mem_GetData w1 cm1 _ Hw1), Hd1, lookup_insert_eq.
    cbn [fst]. by destruct record.
  - unfold GetRecord, mbind, prog_bind.
    rewrite exec_bind, (mem_GetData w2 cm2 _ Hw2), Hd2, lookup_delete_eq.
    done.
Qed.

End Routes.

Lemma GetDatas_lists_records_witness :
  exists recs,
    exec mem.client (server.GetDatas map_to_list) world_two
    = ((recs, None), world_two, [server.fetchRecords])
    /\ map (fun r => (server.Domain r, server.IP r)) recs
       ≡ₚ map_to_list (default ∅ (Data cm_two))
    /\ NoDup (map server.Domain recs).
Proof.
  apply (GetDatas_lists_records map_to_list mem.client world_two).
  intros m. reflexivity.
Defined.

Lemma post_get_delete_witness :
  let run req w := exec mem.client (server.route map_to_list errorText req) w in
  let record := server.mkRecord "9.9.9.9" "c.example.com" in
  let w1 := (run (server.POST_records (inr record)) world_two).1.2 in
  let w2 := (run (server.DELETE_records (inr record)) w1).1.2 in
  (run (server.POST_records (inr record)) world_two).1.1.1 = server.StatusOK
  /\ (run (server.GET_record "c.example.com") w1).1.1
     = (server.StatusOK,
        server.SuccessResponse (server.OneRecord record)
          "GetRecord is successful. Domain is c.example.com")
  /\ (run (server.DELETE_records (inr record)) w1).1.1.1 = server.StatusOK
  /\ (run (server.GET_record "c.example.com") w2).1.1.1
     = server.StatusInternalServerError.
Proof.
  apply (post_get_delete map_to_list errorText world_two cm_two
           (server.mkRecord "9.9.9.9" "c.example.com")).
  split; vm_compute; reflexivity.
Defined.

Section Watch.
Import controller.
Context (mapRange : gmap string string -> list (string * string)).
Context (filePath : string).

(** X27: the key an object is queued under is split back into the object's
    namespace and name, when neither has a slash in it; an object without
    a namespace is queued under its name alone. *)
Theorem key_round_trip (m : ObjectMeta) :
  ContainsAny (Namespace m) ["/"%char] = false ->
  ContainsAny (Name m) ["/"%char] = false ->
  SplitMetaNamespaceKey (MetaNamespaceKeyFunc m) = inr (Namespace m, Name m).
Proof.
  intros Hns Hname. unfold MetaNamespaceKeyFunc, SplitMetaNamespaceKey.
  destruct (Namespace m) as [|ch ns] eqn:Hm.
  - cbn [isEmpty]. by rewrite splitSlash_plain.
  - cbn [isEmpty]. rewrite splitSlash_slash, splitSlash_plain by done. done.
Qed.

(** X28: the watch handlers queue nothing but the key of the watched
    configmap.  An added configmap queues it when its name is
    coredns-hosts-api and its namespace kube-system, and nothing
    otherwise; a changed configmap queues it under the same condition
    when its resource version is not the old object's, and nothing when
    the resource version is as it was; a deletion queues nothing; and a
    sync of the key starts with the fetch of the watched configmap. *)
Theorem watch_queues_watched_key {W : Type} (c : client W) (w : W)
    (oldCm cm : ConfigMap) :
  let watched :=
    bool_decide (Name (cmMeta cm) = "coredns-hosts-api"
                 /\ Namespace (cmMeta cm) = "kube-system") in
  let sameVersion :=
    bool_decide (ResourceVersion (cmMeta cm) = ResourceVersion (cmMeta oldCm)) in
  AddFunc cm = (if watched then ["kube-system/coredns-hosts-api"] else [])
  /\ UpdateFunc oldCm cm
     = (if sameVersion then []
        else if watched then ["kube-system/coredns-hosts-api"] else [])
  /\ DeleteFunc cm = []
  /\ head (exec c (syncConfigmap mapRange filePath
                     "kube-system/coredns-hosts-api") w).2
     = Some (GetConfigMap "kube-system" "coredns-hosts-api").
Proof.
  intros watched sameVersion.
  assert (Hkey : (if FilterConfigmap cm then enqueue cm else [])
                 = if watched then ["kube-system/coredns-hosts-api"] else []).
  { unfold watched, FilterConfigmap, enqueue, MetaNamespaceKeyFunc.
    change ConfigmapName with "coredns-hosts-api".
    change ConfigmapNamespace with "kube-system".
    destruct (String.eqb_spec (Name (cmMeta cm)) "coredns-hosts-api") as [Hn|Hn];
      destruct (String.eqb_spec (Namespace (cmMeta cm)) "kube-system") as [Hns|Hns];
      cbn [andb].
    - rewrite bool_decide_eq_true_2 by done. by rewrite Hn, Hns.
    - rewrite bool_decide_eq_false_2; [done|]. by intros [_ ?].
    - rewrite bool_decide_eq_false_2; [done|]. by intros [? _].
    - rewrite bool_decide_eq_false_2; [done|]. by intros [? _]. }
  split; [exact Hkey|]. split; [|split; [done|]].
  - unfold UpdateFunc, sameVersion. rewrite Hkey.
    destruct (String.eqb_spec (ResourceVersion (cmMeta cm))
                (ResourceVersion (cmMeta oldCm))) as [Hv|Hv]; cbn [negb].
    + by rewrite bool_decide_eq_true_2.
    + by rewrite bool_decide_eq_false_2.
  - unfold syncConfigmap.
    change (SplitMetaNamespaceKey "kube-system/coredns-hosts-api")
      with (@inr error _ ("kube-system", "coredns-hosts-api")).
    cbv iota beta. unfold mbind, prog_bind.
    rewrite (exec_call_bind c (GetConfigMap "kube-system" "coredns-hosts-api")).
    by destruct (exec c _ _) as [[r w2] l2].
Qed.

(** X29: for a key the queue hands out, the turn of the worker syncs it,
    then tells the queue to forget the key when the sync returned no error
    and to add it again, rate limited, when it returned one, and tells the
    queue last that the key is done. *)
Theorem workerItem_bookkeeping {W : Type} (c : client W) (w w1 : W)
    (key : string) :
  handle c QueueGet w = ((key, false), w1) ->
  let '(err, w2, calls) := exec c (syncConfigmap mapRange filePath key) w1 in
  let mark := match err with
              | Some _ => QueueAddRateLimited key
              | None => QueueForget key
              end in
  exec c (workerItem mapRange filePath) w
  = (tt, (handle c (QueueDone key) (handle c mark w2).2).2,
     QueueGet :: calls ++ [mark; QueueDone key]).
Proof.
  intros Hget. unfold workerItem, mbind, prog_bind.
  rewrite (exec_call_bind c QueueGet), Hget. cbn [fst snd].
  rewrite exec_bind.
  destruct (exec c (syncConfigmap mapRange filePath key) w1) as [[err w2] calls].
  rewrite exec_bind.
  destruct err as [e|].
  - rewrite (exec_call c (QueueAddRateLimited key)). cbn iota beta.
    rewrite (exec_call c (QueueDone key)).
    by destruct (handle c (QueueDone key) _) as [[] w4].
  - rewrite (exec_call c (QueueForget key)). cbn iota beta.
    rewrite (exec_call c (QueueDone key)).
    by destruct (handle c (QueueDone key) _) as [[] w4].
Qed.

End Watch.

Lemma key_round_trip_witness :
  controller.SplitMetaNamespaceKey
    (controller.MetaNamespaceKeyFunc (mkMeta "coredns-hosts-api" "kube-system" "7"))
  = inr ("kube-system", "coredns-hosts-api").
Proof.
  apply (key_round_trip (mkMeta "coredns-hosts-api" "kube-system" "7"));
    vm_compute; reflexivity.
Defined.

Lemma workerItem_bookkeeping_witness :
  exec mem.client (controller.workerItem map_to_list "/etc/coredns-dir/hosts")
    world_queued
  = (tt,
     (exec mem.client
        (controller.syncConfigmap map_to_list "/etc/coredns-dir/hosts" watchedKey)
        world_two).1.2,
     [QueueGet; GetConfigMap "kube-system" "coredns-hosts-api";
      WriteFile "/etc/coredns-dir/hosts"
        (controller.flatten (map_to_list (default ∅ (Data cm_two))));
      QueueForget watchedKey; QueueDone watchedKey]).
Proof.
  pose proof (workerItem_bookkeeping map_to_list "/etc/coredns-dir/hosts"
                mem.client world_queued
                (mem.mkWorld [] ∅ ∅ ∅
                   (<[("kube-system", "coredns-hosts-api") := cm_two]> ∅) ∅ [])
                watchedKey eq_refl) as H.
  vm_compute in H. vm_compute. exact H.
Defined.

Section EndToEnd.
Import controller server.
Context (mapRange : gmap string string -> list (string * string)).
Context (filePath : string).

Lemma flatten_app (a b : list (string * string)) :
  flatten (a ++ b) = flatten a +:+ flatten b.
Proof.
  induction a as [|kv a IH]; [done|].
  cbn [app flatten]. by rewrite IH, app_assoc_s.
Qed.

Lemma flatten_elem (kv : string * string) (entries : list (string * string)) :
  kv ∈ entries ->
  exists before after, flatten entries = before +:+ hostsLine kv +:+ after.
Proof.
  intros (a & b & ->)%list_elem_of_split.
  exists (flatten a), (flatten b). by rewrite flatten_app.
Qed.

(** X30: on a cluster that nobody else writes to and that has the records'
    configmap, after [SetData] a sync of the watched key writes a hosts
    file that has the line of the record: the address, a space, the domain
    and a line feed. *)
Theorem record_reaches_hosts_file (w : mem.world) (cm : ConfigMap)
    (domain ip : string) :
  (forall m, mapRange m ≡ₚ map_to_list m) ->
  hasRecords w cm ->
  exists w1 w2 before after,
    (exec mem.client (SetData domain ip) w).1 = (None, w1)
    /\ (exec mem.client (syncConfigmap mapRange filePath watchedKey) w1).1
       = (None, w2)
    /\ mem.files w2 !! filePath
       = Some (before +:+ (ip +:+ " " +:+ domain +:+ nl) +:+ after).
Proof.
  intros Hperm Hw.
  destruct (mem_SetData_any w cm domain ip Hw) as (w1 & cm1 & l1 & Hset & Hw1 & Hd1).
  assert (Hin : (domain, ip) ∈ mapRange (default ∅ (Data cm1))).
  { rewrite (Hperm _), Hd1. apply elem_of_map_to_list, lookup_insert_eq. }
  destruct (flatten_elem _ _ Hin) as (before & after & Hflat).
  exists w1. eexists. exists before, after.
  split; [by rewrite Hset|].
  unfold syncConfigmap.
  change (SplitMetaNamespaceKey watchedKey)
    with (@inr error _ (ConfigmapNamespace, ConfigmapName)).
  cbv iota beta. unfold mbind, prog_bind.
  rewrite (exec_call_bind mem.client (GetConfigMap ConfigmapNamespace ConfigmapName)).
  pose proof (mem_fetchRecords w1 cm1 Hw1) as Hf. unfold fetchRecords in Hf.
  rewrite Hf. cbn [fst snd].
  rewrite (exec_call mem.client (WriteFile _ _)).
  split; [reflexivity|].
  change (<[filePath := flatten (mapRange (default ∅ (Data cm1)))]> (mem.files w1)
          !! filePath
          = Some (before +:+ (ip +:+ " " +:+ domain +:+ nl) +:+ after)).
  by rewrite lookup_insert_eq, Hflat.
Qed.

End EndToEnd.

Lemma record_reaches_hosts_file_witness :
  exists w1 w2 before after,
    (exec mem.client (server.SetData "c.example.com" "9.9.9.9") world_two).1
    = (None, w1)
    /\ (exec mem.client
          (controller.syncConfigmap map_to_list "/etc/coredns-dir/hosts" watchedKey)
          w1).1 = (None, w2)
    /\ mem.files w2 !! "/etc/coredns-dir/hosts"
       = Some (before +:+ ("9.9.9.9" +:+ " " +:+ "c.example.com" +:+ nl) +:+ after).
Proof.
  apply (record_reaches_hosts_file map_to_list "/etc/coredns-dir/hosts"
           world_two cm_two).
  - intros m. reflexivity.
  - split; vm_compute; reflexivity.
Defined.
